(** * concur-bench: a shallow embedding of the coordination core

    The development follows the layout of the C sources:
    - [types.h], [error.h]      : records and the error enumeration;
    - [worker.c]                : the summation kernel and the thread entry point;
    - [bench_thread.c], [bench_process_unix.c], [bench_process_win.c],
      [bench_single.c]          : the three coordinators and the slice partition;
    - [stats.c]                 : descriptive statistics over elapsed times;
    - [platform_unix.c], [platform_win.c] : the blocking pipe read and write,
      closing a pipe, the command line of a spawned process;
    - [dataset.c], [input.c]    : dataset generation and configuration input;
    - [error.c], [output.c], [main.c] : messages, the correctness verdict and
      the sequence of the whole program.

    C [int] and [long int] values are integers of [Z]; the accumulation into a
    [long int] is wrapped to 64 bits two's complement.  C [double] values are
    the kernel's binary64 floats.  Calls into the operating system and the C
    library are answered by an explicit record of outcomes. *)

From Stdlib Require Import ZArith List Lia Bool Permutation.
From Stdlib Require String Ascii DecimalString.
From Stdlib Require Import Floats.
From Stdlib Require Import QArith Lqa.
Import ListNotations.
Import String.StringSyntax Ascii.AsciiSyntax.
Delimit Scope string_scope with string.
Delimit Scope char_scope with char.

Local Open Scope Z_scope.

(** ** error.h *)

Inductive cb_error_t : Type :=
| CB_OK
| CB_ERR_ALLOC
| CB_ERR_PIPE
| CB_ERR_FORK
| CB_ERR_THREAD
| CB_ERR_MUTEX
| CB_ERR_IO
| CB_ERR_INPUT
| CB_ERR_PLATFORM
| CB_ERR_TIMEOUT
| CB_ERR_OVERFLOW
| CB_ERR_ARGS
| CB_ERR_SHM.

(** The numeric value of an error code; [if (err)] in the C code tests it
    against zero. *)
Definition cb_error_code (e : cb_error_t) : Z :=
  match e with
  | CB_OK => 0
  | CB_ERR_ALLOC => -1
  | CB_ERR_PIPE => -2
  | CB_ERR_FORK => -3
  | CB_ERR_THREAD => -4
  | CB_ERR_MUTEX => -5
  | CB_ERR_IO => -6
  | CB_ERR_INPUT => -7
  | CB_ERR_PLATFORM => -8
  | CB_ERR_TIMEOUT => -9
  | CB_ERR_OVERFLOW => -10
  | CB_ERR_ARGS => -11
  | CB_ERR_SHM => -12
  end.

Definition is_err (e : cb_error_t) : bool :=
  negb (cb_error_code e =? 0).

(** ** types.h *)

Definition CB_MIN_WORKERS : Z := 1.
Definition CB_MAX_WORKERS : Z := 256.
Definition CB_MIN_ARRAY_LEN : Z := 1000.
Definition CB_DEFAULT_ITERATIONS : Z := 5.
Definition INT_MAX : Z := 2147483647.
Definition UINT_MAX : Z := 4294967295.

Record cb_result_t : Type := mk_result {
  sum : Z;
  elapsed_sec : float
}.

Record cb_bench_stats_t : Type := mk_stats {
  min_sec : float;
  max_sec : float;
  mean_sec : float;
  stddev_sec : float;
  stats_iterations : Z
}.

Record cb_run_report_t : Type := mk_report {
  label : String.string;
  report_sum : Z;
  parallelism : Z;
  stats : cb_bench_stats_t
}.

Record cb_config_t : Type := mk_config {
  array_length : Z;
  num_processes : Z;
  num_threads : Z;
  seed : Z;
  iterations : Z;
  verbose : bool
}.

(** Assignments to single fields of a configuration. *)
Definition set_array_length (c : cb_config_t) (v : Z) : cb_config_t :=
  mk_config v (num_processes c) (num_threads c) (seed c) (iterations c)
    (verbose c).

Definition set_num_processes (c : cb_config_t) (v : Z) : cb_config_t :=
  mk_config (array_length c) v (num_threads c) (seed c) (iterations c)
    (verbose c).

Definition set_num_threads (c : cb_config_t) (v : Z) : cb_config_t :=
  mk_config (array_length c) (num_processes c) v (seed c) (iterations c)
    (verbose c).

Definition set_seed (c : cb_config_t) (v : Z) : cb_config_t :=
  mk_config (array_length c) (num_processes c) (num_threads c) v
    (iterations c) (verbose c).

Definition set_iterations (c : cb_config_t) (v : Z) : cb_config_t :=
  mk_config (array_length c) (num_processes c) (num_threads c) (seed c) v
    (verbose c).

Definition set_verbose (c : cb_config_t) (v : bool) : cb_config_t :=
  mk_config (array_length c) (num_processes c) (num_threads c) (seed c)
    (iterations c) v.

(** ** Machine integers *)

(** A [long int] holds 64 bits (LP64; 32 on Windows), and an addition that
    leaves the range wraps.  The properties below use the width only
    through the fact that wrapping is reduction modulo a power of two. *)
Definition LONG_BITS : Z := 64.

Definition wrap_long (x : Z) : Z :=
  (x + 2 ^ (LONG_BITS - 1)) mod 2 ^ LONG_BITS - 2 ^ (LONG_BITS - 1).

Definition long_add (a b : Z) : Z := wrap_long (a + b).

(** ** platform_unix.c: the clock *)

Module Clock.
Local Open Scope float_scope.

(** [(double) n] for an integer of at most 63 bits. *)
Definition double_of_Z (n : Z) : float :=
  if (n <? 0)%Z then - (PrimFloat.of_uint63 (Uint63.of_Z (- n)))
  else PrimFloat.of_uint63 (Uint63.of_Z n).

(** The double nearest to [1e-9]. *)
Definition nano : float := 0x1.12e0be826d695p-30.

(** [cb_time_now]: [clock_gettime(CLOCK_MONOTONIC, &ts)] either fails
    ([None]) or fills in seconds and nanoseconds. *)
Definition cb_time_now (ts : option (Z * Z)) : float :=
  match ts with
  | None => -1
  | Some (tv_sec, tv_nsec) => double_of_Z tv_sec + double_of_Z tv_nsec * nano
  end.

End Clock.

(** ** worker.c *)

Module Worker.

(** [dataset[i]]; the dataset is a list of [int] values. *)
Definition dataset_get (dataset : list Z) (i : Z) : Z :=
  nth (Z.to_nat i) dataset 0.

(** The loop [for (i = start; i < start + length; i++) acc += dataset[i]],
    entered with [todo] iterations left. *)
Fixpoint sum_loop (dataset : list Z) (i : Z) (todo : nat) (acc : Z) : Z :=
  match todo with
  | O => acc
  | S todo' => sum_loop dataset (i + 1) todo' (long_add acc (dataset_get dataset i))
  end.

(** [cb_array_sum]: the two clock readings taken around the loop are
    arguments. *)
Definition cb_array_sum (t_start t_end : float)
  (dataset : list Z) (start length : Z) : cb_result_t :=
  {| sum := sum_loop dataset start (Z.to_nat length) 0;
     elapsed_sec := (t_end - t_start)%float |}.

(** The sum field alone does not depend on the clock. *)
Definition array_sum (dataset : list Z) (start length : Z) : Z :=
  sum (cb_array_sum 0%float 0%float dataset start length).

Record cb_thread_shared_t : Type := mk_shared {
  shared_sum : Z;
  earliest_start : float;
  latest_end : float
}.

(** What one thread contributes: its two clock readings and its partial sum. *)
Record thread_result : Type := mk_thread_result {
  t_start : float;
  t_end : float;
  partial_sum : Z
}.

(** The accumulator as [cb_bench_thread_run] resets it for an iteration. *)
Definition shared_init : cb_thread_shared_t :=
  {| shared_sum := 0; earliest_start := (-1)%float; latest_end := 0%float |}.

(** The critical section of [cb_array_sum_thread_fn]. *)
Definition locked_update (sh : cb_thread_shared_t) (r : thread_result)
  : cb_thread_shared_t :=
  let s := long_add (shared_sum sh) (partial_sum r) in
  let es :=
    if ((earliest_start sh <? 0) || (t_start r <? earliest_start sh))%float
    then t_start r else earliest_start sh in
  let le :=
    if (latest_end sh <? t_end r)%float then t_end r else latest_end sh in
  {| shared_sum := s; earliest_start := es; latest_end := le |}.

(** [cb_array_sum_thread_fn] up to its critical section: the local loop
    between two clock readings. *)
Definition thread_compute (ts te : float) (dataset : list Z) (start length : Z)
  : thread_result :=
  {| t_start := ts; t_end := te;
     partial_sum := sum_loop dataset start (Z.to_nat length) 0 |}.

(** The accumulator after the threads of one iteration are joined: the
    critical sections ran one at a time, in the order [order] in which the
    threads took the mutex. *)
Definition accumulate (order : list thread_result) : cb_thread_shared_t :=
  fold_left locked_update order shared_init.

End Worker.

(** ** The slice partition of the coordinators *)

Module Partition.

(** A slice [start, start + length) of the dataset. *)
Record slice : Type := mk_slice { sl_start : Z; sl_length : Z }.

(** [chunk = base_len + (i < remainder ? 1 : 0)]. *)
Definition chunk_len (base_len remainder : Z) (i : Z) : Z :=
  base_len + (if i <? remainder then 1 else 0).

(** The distribution loop, entered at worker [i] with [todo] workers left
    and the running [offset]. *)
Fixpoint distribute (base_len remainder : Z) (todo : nat) (i offset : Z)
  : list slice :=
  match todo with
  | O => []
  | S todo' =>
    let chunk := chunk_len base_len remainder i in
    mk_slice offset chunk
      :: distribute base_len remainder todo' (i + 1) (offset + chunk)
  end.

(** [base_len = array_length / n; remainder = array_length % n; offset = 0]
    and the loop over the [n] workers; C division truncates. *)
Definition partition (array_length n : Z) : list slice :=
  distribute (Z.quot array_length n) (Z.rem array_length n) (Z.to_nat n) 0 0.

Definition sl_end (s : slice) : Z := sl_start s + sl_length s.

Definition in_slice (j : Z) (s : slice) : Prop :=
  sl_start s <= j < sl_end s.

(** Adjacent slices touch: each starts where the one before ends. *)
Fixpoint chained (from : Z) (l : list slice) : Prop :=
  match l with
  | [] => True
  | s :: l' => sl_start s = from /\ 0 <= sl_length s /\ chained (sl_end s) l'
  end.

(** The end of the last slice of a chain that starts at [from]. *)
Fixpoint chain_end (from : Z) (l : list slice) : Z :=
  match l with
  | [] => from
  | s :: l' => chain_end (sl_end s) l'
  end.

End Partition.

(** ** Specification-side sums, used to state the kernel's properties *)

Module SumSpec.
Import Worker Partition.

(** The mathematical sum of [todo] consecutive elements from index [i]. *)
Fixpoint range_sum (dataset : list Z) (i : Z) (todo : nat) : Z :=
  match todo with
  | O => 0
  | S todo' => dataset_get dataset i + range_sum dataset (i + 1) todo'
  end.

(** Adding the partial sums of slices, in [long int] arithmetic. *)
Definition add_slices (dataset : list Z) (l : list slice) (acc : Z) : Z :=
  fold_left
    (fun a s => long_add a (array_sum dataset (sl_start s) (sl_length s))) l acc.

(** The unwrapped total over a list of slices. *)
Fixpoint slices_total (dataset : list Z) (l : list slice) : Z :=
  match l with
  | [] => 0
  | s :: l' =>
    range_sum dataset (sl_start s) (Z.to_nat (sl_length s))
    + slices_total dataset l'
  end.

End SumSpec.

(** ** Specification-side notions for the partition *)

Module PartitionSpec.

(** The two slice lengths named by the specification. *)
Definition floor_div (a n : Z) : Z := a / n.
Definition ceil_div (a n : Z) : Z := (a + n - 1) / n.

End PartitionSpec.

(** ** Specification-side notions for the shared accumulator *)

Module AccumulatorSpec.
Import Worker.
Local Open Scope float_scope.

(** [x] is the minimum of the start timestamps of [l], compared as C
    compares doubles. *)
Definition is_earliest (x : float) (l : list thread_result) : Prop :=
  (exists r, In r l /\ (x =? t_start r) = true)
  /\ (forall r, In r l -> (x <=? t_start r) = true).

(** [x] is the maximum of the end timestamps of [l]. *)
Definition is_latest (x : float) (l : list thread_result) : Prop :=
  (exists r, In r l /\ (x =? t_end r) = true)
  /\ (forall r, In r l -> (t_end r <=? x) = true).

(** The total of the partial sums, as a [long int]. *)
Fixpoint partials_total (l : list thread_result) : Z :=
  match l with
  | [] => 0%Z
  | r :: l' => (partial_sum r + partials_total l')%Z
  end.

(** Both clock readings of a thread succeeded: [cb_time_now] returns a
    non-negative number of seconds, and [-1.0] when the clock fails. *)
Definition clock_ok (r : thread_result) : Prop :=
  (0 <=? t_start r) = true /\ (0 <=? t_end r) = true.

(** Two threads; the first read its start time while the clock failed. *)
Definition failed_clock_run : list thread_result :=
  [ {| t_start := Clock.cb_time_now None;
       t_end := Clock.cb_time_now (Some (1, 0)%Z);
       partial_sum := 10 |};
    {| t_start := Clock.cb_time_now (Some (5, 0)%Z);
       t_end := Clock.cb_time_now (Some (6, 0)%Z);
       partial_sum := 20 |} ].

Definition sample_run : list thread_result :=
  [ {| t_start := Clock.cb_time_now (Some (3, 250000000)%Z);
       t_end := Clock.cb_time_now (Some (7, 0)%Z);
       partial_sum := 10 |};
    {| t_start := Clock.cb_time_now (Some (2, 500000000)%Z);
       t_end := Clock.cb_time_now (Some (9, 125000000)%Z);
       partial_sum := 20 |};
    {| t_start := Clock.cb_time_now (Some (4, 0)%Z);
       t_end := Clock.cb_time_now (Some (5, 750000000)%Z);
       partial_sum := 30 |} ].

(** What the two timestamp fields hold after a non-empty run of updates. *)
Definition stamps_inv (seen : list thread_result) (sh : cb_thread_shared_t)
  : Prop :=
  ((exists r, In r seen /\ earliest_start sh = t_start r)
   /\ (forall r, In r seen -> (earliest_start sh <=? t_start r) = true))
  /\ ((0 <=? latest_end sh) = true
      /\ (forall r, In r seen -> (t_end r <=? latest_end sh) = true)
      /\ (latest_end sh = 0 \/ exists r, In r seen /\ latest_end sh = t_end r)).

End AccumulatorSpec.

(** ** stats.c *)

Module Stats.

(** The first pass of [cb_stats_compute] touches the samples only through
    addition and the comparison [<]; it is written once over the number
    type, for the binary64 doubles of the program and for exact rationals. *)
Section FirstPass.
Context {T : Type}.
Variable t_zero : T.
Variable t_add : T -> T -> T.
Variable t_ltb : T -> T -> bool.

(** [times[i]]. *)
Definition times_get (times : list T) (i : nat) : T := nth i times t_zero.

Record pass1 : Type := mk_pass1 { p_sum : T; p_min : T; p_max : T }.

(** The loop body for [i = i0 .. i0 + todo - 1]. *)
Fixpoint first_pass_loop (times : list T) (todo i : nat) (acc : pass1) : pass1 :=
  match todo with
  | O => acc
  | S todo' =>
    let x := times_get times i in
    let s := t_add (p_sum acc) x in
    let mn := if t_ltb x (p_min acc) then x else p_min acc in
    let mx := if t_ltb (p_max acc) x then x else p_max acc in
    first_pass_loop times todo' (S i) (mk_pass1 s mn mx)
  end.

(** [min_val = max_val = times[0]; sum = 0.0] and the loop up to [count]. *)
Definition first_pass (times : list T) (count : Z) : pass1 :=
  first_pass_loop times (Z.to_nat count) 0
    (mk_pass1 t_zero (times_get times 0) (times_get times 0)).
End FirstPass.

Arguments pass1 : clear implicits.
Arguments mk_pass1 {T}.
Arguments p_sum {T}.
Arguments p_min {T}.
Arguments p_max {T}.

Local Open Scope float_scope.

(** [(double)count]. *)
Definition double_of_int (n : Z) : float := Clock.double_of_Z n.

(** The second pass: [variance_sum += (times[i] - mean)^2]. *)
Fixpoint second_pass_loop (times : list float) (mean : float) (todo i : nat)
  (variance_sum : float) : float :=
  match todo with
  | O => variance_sum
  | S todo' =>
    let diff := times_get 0 times i - mean in
    second_pass_loop times mean todo' (S i) (variance_sum + diff * diff)
  end.

(** [cb_stats_compute]: [times] and [stats_out] are pointers, [None] when
    NULL; the second component is the content of [*stats_out] afterwards. *)
Definition cb_stats_compute (times : option (list float)) (count : Z)
  (stats_out : option cb_bench_stats_t)
  : cb_error_t * option cb_bench_stats_t :=
  match times, stats_out with
  | Some ts, Some _ =>
    if (count <? 1)%Z then (CB_ERR_ARGS, stats_out)
    else
      let p := first_pass 0 PrimFloat.add PrimFloat.ltb ts count in
      let mean := p_sum p / double_of_int count in
      let variance_sum := second_pass_loop ts mean (Z.to_nat count) 0 0 in
      let stddev :=
        if (1 <? count)%Z
        then PrimFloat.sqrt (variance_sum / double_of_int (count - 1))
        else 0 in
      (CB_OK,
       Some {| min_sec := p_min p; max_sec := p_max p; mean_sec := mean;
               stddev_sec := stddev; stats_iterations := count |})
  | _, _ => (CB_ERR_ARGS, stats_out)
  end.

End Stats.

(** ** Specification-side notions for the statistics *)

Module StatsSpec.
Import Stats.
Local Open Scope Q_scope.






End StatsSpec.

(** ** platform_unix.c: the blocking pipe read *)

Module PlatformUnix.

(** What the kernel has in store for the read end of a pipe: data that
    becomes available, an interrupted call, a failing call.  When the list
    is exhausted every write end is closed and [read] returns 0. *)
Inductive pipe_event : Type :=
| Chunk (b : Byte.byte) (bs : list Byte.byte)
| Eintr
| Fail.

Definition pipe_t : Type := list pipe_event.

(** The outcome of one [read(fd, ptr, count)]. *)
Inductive read_result : Type :=
| ReadBytes (bs : list Byte.byte)   (* n = length bs > 0 *)
| ReadEOF                           (* n == 0 *)
| ReadEINTR                         (* n < 0, errno == EINTR *)
| ReadError.                        (* n < 0, another errno *)

(** [read] hands over at most [count] bytes of the data at the head of the
    pipe and leaves the rest for the next call. *)
Definition sys_read (p : pipe_t) (count : nat) : read_result * pipe_t :=
  match p with
  | [] => (ReadEOF, [])
  | Eintr :: rest => (ReadEINTR, rest)
  | Fail :: rest => (ReadError, rest)
  | Chunk b bs :: rest =>
    (ReadBytes (firstn count (b :: bs)),
     match skipn count (b :: bs) with
     | [] => rest
     | b' :: bs' => Chunk b' bs' :: rest
     end)
  end.

(** The loop [while (remaining > 0)] of [cb_pipe_read]; [buf] holds the
    bytes stored so far.  [fuel] bounds the number of [read] calls. *)
Fixpoint pipe_read_loop (fuel : nat) (p : pipe_t) (remaining : nat)
  (buf : list Byte.byte) : option (cb_error_t * list Byte.byte * pipe_t) :=
  match remaining with
  | O => Some (CB_OK, buf, p)
  | S _ =>
    match fuel with
    | O => None
    | S fuel' =>
      match sys_read p remaining with
      | (ReadEINTR, p') => pipe_read_loop fuel' p' remaining buf
      | (ReadError, p') => Some (CB_ERR_PIPE, buf, p')
      | (ReadEOF, p') => Some (CB_ERR_PIPE, buf, p')
      | (ReadBytes bs, p') =>
        pipe_read_loop fuel' p' (remaining - length bs) (buf ++ bs)
      end
    end
  end.

(** [cb_pipe_read(p, buf, size)]: the error code, the bytes stored in [buf]
    and the pipe afterwards.  Every call of [read] either shortens the pipe
    or stores a byte, which bounds the number of calls. *)
Definition cb_pipe_read (p : pipe_t) (size : nat)
  : option (cb_error_t * list Byte.byte * pipe_t) :=
  pipe_read_loop (length p + size) p size [].

End PlatformUnix.

(** ** platform_win.c: the blocking pipe read *)

Module PlatformWin.

(** [(DWORD)-1]. *)
Definition DWORD_MAX : N := 4294967295%N.

(** What [ReadFile] will find: a successful transfer of some bytes
    (possibly none), or a failing call.  When the list is exhausted the
    pipe is broken and [ReadFile] fails. *)
Inductive pipe_event : Type :=
| Transfer (bs : list Byte.byte)
| Fail.

Definition pipe_t : Type := list pipe_event.

(** [ReadFile(h, ptr, to_read, &bytes_read, NULL)]: success flag, the bytes
    read, the pipe afterwards. *)
Definition ReadFile (p : pipe_t) (to_read : N)
  : bool * list Byte.byte * pipe_t :=
  match p with
  | [] => (false, [], [])
  | Fail :: rest => (false, [], rest)
  | Transfer bs :: rest =>
    (true, firstn (N.to_nat to_read) bs,
     match skipn (N.to_nat to_read) bs with
     | [] => rest
     | more => Transfer more :: rest
     end)
  end.

(** The loop [while (remaining > 0)] of [cb_pipe_read]; [remaining] is a
    [size_t].  [fuel] bounds the number of [ReadFile] calls. *)
Fixpoint pipe_read_loop (fuel : nat) (p : pipe_t) (remaining : N)
  (buf : list Byte.byte) : option (cb_error_t * list Byte.byte * pipe_t) :=
  if (remaining =? 0)%N then Some (CB_OK, buf, p)
  else
    match fuel with
    | O => None
    | S fuel' =>
      let to_read :=
        if (DWORD_MAX <? remaining)%N then DWORD_MAX else remaining in
      match ReadFile p to_read with
      | (false, _, p') => Some (CB_ERR_PIPE, buf, p')
      | (true, bs, p') =>
        if (N.of_nat (length bs) =? 0)%N then Some (CB_ERR_PIPE, buf, p')
        else pipe_read_loop fuel' p' (remaining - N.of_nat (length bs)) (buf ++ bs)
      end
    end.

(** [cb_pipe_read(p, buf, size)]; every successful [ReadFile] that does
    not end the loop stores a byte, so [size] calls suffice. *)
Definition cb_pipe_read (p : pipe_t) (size : N)
  : option (cb_error_t * list Byte.byte * pipe_t) :=
  pipe_read_loop (N.to_nat size) p size [].

End PlatformWin.

(** ** Specification-side notions for the pipe read *)

Module PipeSpec.

(** The bytes a Unix pipe delivers before it is closed or fails. *)
Fixpoint unix_stream (p : PlatformUnix.pipe_t) : list Byte.byte :=
  match p with
  | [] => []
  | PlatformUnix.Chunk b bs :: rest => (b :: bs) ++ unix_stream rest
  | PlatformUnix.Eintr :: rest => unix_stream rest
  | PlatformUnix.Fail :: _ => []
  end.

(** The bytes a Windows pipe delivers before it breaks, fails, or reports
    an empty transfer. *)
Fixpoint win_stream (p : PlatformWin.pipe_t) : list Byte.byte :=
  match p with
  | [] => []
  | PlatformWin.Transfer [] :: _ => []
  | PlatformWin.Transfer bs :: rest => bs ++ win_stream rest
  | PlatformWin.Fail :: _ => []
  end.

(** A writer that sent two of three bytes and then went away: on Unix the
    read is once interrupted and then fails; on Windows the pipe breaks. *)
Definition broken_unix_pipe : PlatformUnix.pipe_t :=
  [PlatformUnix.Chunk Byte.x01 []; PlatformUnix.Eintr;
   PlatformUnix.Chunk Byte.x02 []; PlatformUnix.Fail;
   PlatformUnix.Chunk Byte.x03 []].

Definition broken_win_pipe : PlatformWin.pipe_t :=
  [PlatformWin.Transfer [Byte.x01; Byte.x02]].

End PipeSpec.

(** ** input.c *)

Module Input.

Definition INPUT_BUF_SIZE : Z := 256.

Record cb_worker_args_t : Type := mk_worker_args {
  worker_id : Z;
  shm_name : String.string;
  array_size : Z;
  num_workers : Z;
  wa_start : Z;
  wa_length : Z
}.

(** What [strtol] and [strtoul] report: the value, the offset of [endptr]
    from the start of the string, and whether [errno] is [ERANGE]. *)
Record strto_result : Type := mk_strto {
  st_val : Z;
  st_end : nat;
  st_erange : bool
}.

(** The C library's conversions. *)
Section WithLibc.
Variable strtol : String.string -> strto_result.
Variable strtoul : String.string -> strto_result.
Variable atoi : String.string -> Z.

(** Standard input as the successive results of [fgets]: each entry is what
    one call stores in the buffer; when the list is exhausted [fgets]
    returns NULL. *)
Definition stdin_t : Type := list String.string.

(** Strip the trailing newline of the buffer. *)
Fixpoint strip_newline (buf : String.string) : String.string :=
  match buf with
  | String.EmptyString => String.EmptyString
  | String.String c String.EmptyString =>
    if Ascii.eqb c "010"%char then String.EmptyString
    else String.String c String.EmptyString
  | String.String c rest => String.String c (strip_newline rest)
  end.

(** [buf[0]], the terminating NUL for the empty string. *)
Definition first_char (buf : String.string) : Ascii.ascii :=
  match buf with
  | String.EmptyString => Ascii.zero
  | String.String c _ => c
  end.

(** [read_long]: one prompt per [fgets]; a line that does not parse or is
    out of range prompts again.  Returns the error code, the value stored
    through [out] (if any) and the input left. *)
Fixpoint read_long (stdin : stdin_t) (min_val max_val : Z)
  : cb_error_t * option Z * stdin_t :=
  match stdin with
  | [] => (CB_ERR_INPUT, None, [])
  | line :: rest =>
    let buf := strip_newline line in
    let r := strtol buf in
    if (st_end r =? 0)%nat then read_long rest min_val max_val
    else if (st_end r <? String.length buf)%nat then read_long rest min_val max_val
    else if st_erange r then read_long rest min_val max_val
    else if (st_val r <? min_val) || (max_val <? st_val r)
         then read_long rest min_val max_val
    else (CB_OK, Some (st_val r), rest)
  end.

(** [read_ulong]. *)
Fixpoint read_ulong (stdin : stdin_t) (min_val max_val : Z)
  : cb_error_t * option Z * stdin_t :=
  match stdin with
  | [] => (CB_ERR_INPUT, None, [])
  | line :: rest =>
    let buf := strip_newline line in
    if Ascii.eqb (first_char buf) "-"%char then read_ulong rest min_val max_val
    else
      let r := strtoul buf in
      if (st_end r =? 0)%nat then read_ulong rest min_val max_val
      else if (st_end r <? String.length buf)%nat then read_ulong rest min_val max_val
      else if st_erange r then read_ulong rest min_val max_val
      else if (st_val r <? min_val) || (max_val <? st_val r)
           then read_ulong rest min_val max_val
      else (CB_OK, Some (st_val r), rest)
  end.

(** [read_yes_no]. *)
Fixpoint read_yes_no (stdin : stdin_t) : cb_error_t * option bool * stdin_t :=
  match stdin with
  | [] => (CB_ERR_INPUT, None, [])
  | buf :: rest =>
    let c := first_char buf in
    if Ascii.eqb c "y"%char || Ascii.eqb c "Y"%char then (CB_OK, Some true, rest)
    else if Ascii.eqb c "n"%char || Ascii.eqb c "N"%char
         then (CB_OK, Some false, rest)
    else read_yes_no rest
  end.

(** The state [cb_parse_args] writes through its three pointers. *)
Record parse_state : Type := mk_parse_state {
  ps_config : cb_config_t;
  ps_is_worker : bool;
  ps_worker_args : cb_worker_args_t
}.

(** The loop over [argv[1 .. argc-1]]. *)
Fixpoint parse_loop (args : list String.string) (st : parse_state)
  : cb_error_t * parse_state :=
  match args with
  | [] => (CB_OK, st)
  | a :: rest =>
    if String.eqb a "--help" then (CB_ERR_ARGS, st)
    else if String.eqb a "--verbose"
    then parse_loop rest
           (mk_parse_state (set_verbose (ps_config st) true)
              (ps_is_worker st) (ps_worker_args st))
    else if String.eqb a "--iterations"
    then
      match rest with
      | [] => (CB_ERR_ARGS, st)
      | v :: rest' =>
        let r := strtol v in
        if (st_end r =? 0)%nat
           || (st_end r <? String.length v)%nat
           || st_erange r
           || (st_val r <? 1) || (1000 <? st_val r)
        then (CB_ERR_ARGS, st)
        else parse_loop rest'
               (mk_parse_state (set_iterations (ps_config st) (st_val r))
                  (ps_is_worker st) (ps_worker_args st))
      end
    else if String.eqb a "--worker"
    then
      match rest with
      | a1 :: a2 :: a3 :: a4 :: a5 :: a6 :: rest' =>
        parse_loop rest'
          (mk_parse_state (ps_config st) true
             {| worker_id := atoi a1;
                shm_name := String.substring 0 63 a2;
                array_size := atoi a3;
                num_workers := atoi a4;
                wa_start := atoi a5;
                wa_length := atoi a6 |})
      | _ => (CB_ERR_ARGS, st)
      end
    else (CB_ERR_ARGS, st)
  end.

(** [cb_parse_args(argc, argv, config, is_worker, worker_args)]: the three
    pointers are given as one optional state, [None] when one of them is
    NULL; [argv] includes the program name. *)
Definition cb_parse_args (argv : list String.string) (out : option parse_state)
  : cb_error_t * option parse_state :=
  match out with
  | None => (CB_ERR_ARGS, None)
  | Some _ =>
    let st0 :=
      mk_parse_state
        (mk_config 0 0 0 0 CB_DEFAULT_ITERATIONS false)
        false
        (mk_worker_args 0 String.EmptyString 0 0 0 0) in
    let '(err, st) := parse_loop (tl argv) st0 in
    (err, Some st)
  end.

(** [cb_input_interactive(config)]: the error code, [*config] and the
    input left. *)
Definition cb_input_interactive (config : option cb_config_t) (stdin : stdin_t)
  : cb_error_t * option cb_config_t * stdin_t :=
  match config with
  | None => (CB_ERR_ARGS, None, stdin)
  | Some c0 =>
    let '(err, c1, in1) :=
      if verbose c0 then (CB_OK, c0, stdin)
      else
        match read_yes_no stdin with
        | (CB_OK, Some v, rest) => (CB_OK, set_verbose c0 v, rest)
        | (err, _, rest) => (err, c0, rest)
        end in
    if is_err err then (err, Some c1, in1)
    else
      match read_long in1 CB_MIN_ARRAY_LEN INT_MAX with
      | (CB_OK, Some len, in2) =>
        let c2 := set_array_length c1 len in
        match read_long in2 CB_MIN_WORKERS CB_MAX_WORKERS with
        | (CB_OK, Some np, in3) =>
          let c3 := set_num_processes c2 np in
          match read_long in3 CB_MIN_WORKERS CB_MAX_WORKERS with
          | (CB_OK, Some nt, in4) =>
            let c4 := set_num_threads c3 nt in
            match read_ulong in4 0 UINT_MAX with
            | (CB_OK, Some s, in5) =>
              let c5 := set_seed c4 s in
              match read_long in5 1 100 with
              | (CB_OK, Some it, in6) =>
                (CB_OK, Some (set_iterations c5 it), in6)
              | (err, _, in6) => (err, Some c5, in6)
              end
            | (err, _, in5) => (err, Some c4, in5)
            end
          | (err, _, in4) => (err, Some c3, in4)
          end
        | (err, _, in3) => (err, Some c2, in3)
        end
      | (err, _, in2) => (err, Some c1, in2)
      end
  end.

(** [main] up to the start of the benchmarks: parse the command line, then
    collect the configuration interactively.  [None] when the program exits
    before a benchmark runs. *)
Definition input_layer (argv : list String.string) (stdin : stdin_t)
  : option cb_config_t :=
  match cb_parse_args argv
          (Some (mk_parse_state (mk_config 0 0 0 0 0 false) false
                   (mk_worker_args 0 String.EmptyString 0 0 0 0))) with
  | (CB_OK, Some st) =>
    if ps_is_worker st then None
    else
      match cb_input_interactive (Some (ps_config st)) stdin with
      | (CB_OK, Some c, _) => Some c
      | _ => None
      end
  | _ => None
  end.

End WithLibc.

End Input.

(** ** platform.h: what the operating system answers *)

Module Platform.

(** The outcomes of the platform calls of one benchmark run.  Calls that are
    made once per worker are indexed by the iteration and the worker. *)
Record world : Type := mk_world {
  (** [calloc]: whether the allocations of the run succeed. *)
  alloc_ok : bool;
  (** [cb_time_now] as read by the coordinator before and after iteration
      [it]. *)
  coord_clock : nat -> float * float;
  (** [cb_time_now] as read by worker [i] of iteration [it] before and
      after its summation loop. *)
  worker_clock : nat -> nat -> float * float;
  mutex_init_res : cb_error_t;
  thread_create_res : nat -> nat -> cb_error_t;
  thread_join_res : nat -> nat -> cb_error_t;
  (** The position at which thread [i] of iteration [it] takes the mutex
      among the threads [0..i]. *)
  lock_rank : nat -> nat -> nat;
  pipe_create_res : nat -> nat -> cb_error_t;
  process_spawn_res : nat -> nat -> cb_error_t;
  pipe_read_res : nat -> nat -> cb_error_t;
  (** [cb_pipe_close_write] and [cb_pipe_close_read] on the parent's ends of
      the pipe of worker [i]; the coordinator calls them as statements and
      drops what they return. *)
  pipe_close_write_res : nat -> nat -> cb_error_t;
  pipe_close_read_res : nat -> nat -> cb_error_t;
  (** [cb_process_wait]: the error code and the exit status. *)
  process_wait_res : nat -> nat -> cb_error_t * Z;
  exe_path_res : cb_error_t;
  shared_mem_create_res : cb_error_t;
  (** Windows: the arguments with which worker [i] of iteration [it] ran
      [cb_bench_process_worker_main] up to the store into a result slot;
      [None] when it did not get there: its command line was not read as a
      worker's, the segment did not open, or the process ended early.  The
      exit status says nothing about it: a worker whose command line is
      refused exits with status 0 like one that stored its result. *)
  worker_store : nat -> nat -> option Input.cb_worker_args_t
}.

(** A platform call on worker [i], with the error code it returned where
    the coordinator looks at it. *)
Inductive event : Type :=
| PipeCreate (i : nat) (res : cb_error_t)
| ProcessSpawn (i : nat) (res : cb_error_t)
| PipeCloseRead (i : nat)
| PipeCloseWrite (i : nat)
| PipeRead (i : nat) (res : cb_error_t)
| ProcessWait (i : nat)
| ProcessKill (i : nat)
| ThreadCreate (i : nat) (res : cb_error_t)
| ThreadJoin (i : nat).

(** The calls of a run in program order, each with its iteration. *)
Definition trace : Type := list (nat * event).

Definition at_iteration (it : nat) (evs : list event) : trace :=
  map (fun ev => (it, ev)) evs.

End Platform.

(** ** bench_single.c *)

Module BenchSingle.
Import Platform Worker Stats.

(** The iteration loop; [times] holds the elapsed times recorded so far. *)
Fixpoint single_loop (w : world) (dataset : list Z) (config : cb_config_t)
  (todo iter : nat) (times : list float) (verified_sum : Z)
  : list float * Z :=
  match todo with
  | O => (times, verified_sum)
  | S todo' =>
    let result :=
      cb_array_sum (fst (coord_clock w iter)) (snd (coord_clock w iter))
        dataset 0 (array_length config) in
    single_loop w dataset config todo' (S iter)
      (times ++ [elapsed_sec result])
      (if (iter =? 0)%nat then sum result else verified_sum)
  end.

(** [cb_bench_single_run]: pointers are [None] when NULL; the second
    component is the content of [*report] afterwards. *)
Definition cb_bench_single_run (w : world) (dataset : option (list Z))
  (config : option cb_config_t) (report : option cb_run_report_t)
  : cb_error_t * option cb_run_report_t :=
  match dataset, config, report with
  | Some d, Some c, Some r =>
    if negb (alloc_ok w) then (CB_ERR_ALLOC, report)
    else
      let '(times, verified_sum) :=
        single_loop w d c (Z.to_nat (iterations c)) 0 [] 0 in
      let '(err, st) :=
        cb_stats_compute (Some times) (iterations c) (Some (stats r)) in
      (err,
       Some {| label := "single"%string; report_sum := verified_sum;
               parallelism := 1;
               stats := match st with Some s => s | None => stats r end |})
  | _, _, _ => (CB_ERR_ARGS, report)
  end.

End BenchSingle.

(** ** bench_thread.c *)

Module BenchThread.
Import Platform Worker Partition Stats.

(** [x] placed at position [pos] of [l] (at the end when [l] is shorter). *)
Fixpoint insert_at {A : Type} (pos : nat) (x : A) (l : list A) : list A :=
  match pos, l with
  | O, _ => x :: l
  | S _, [] => [x]
  | S pos', y :: l' => y :: insert_at pos' x l'
  end.

(** The order in which the critical sections run: thread [i] goes to
    position [rank i] among the threads before it. *)
Fixpoint lock_order {A : Type} (rank : nat -> nat) (i : nat) (l acc : list A)
  : list A :=
  match l with
  | [] => acc
  | x :: l' => lock_order rank (S i) l' (insert_at (rank i) x acc)
  end.

(** What the threads of iteration [iter] compute from [params], thread [i]
    first. *)
Fixpoint thread_results (w : world) (dataset : list Z) (iter : nat)
  (params : list slice) (i : nat) : list thread_result :=
  match params with
  | [] => []
  | s :: params' =>
    thread_compute (fst (worker_clock w iter i)) (snd (worker_clock w iter i))
      dataset (sl_start s) (sl_length s)
      :: thread_results w dataset iter params' (S i)
  end.

(** The creation loop; on a failure the threads created so far are joined
    and the error is returned. *)
Fixpoint create_loop (w : world) (iter : nat) (todo i : nat)
  : cb_error_t * list event :=
  match todo with
  | O => (CB_OK, [])
  | S todo' =>
    let err := thread_create_res w iter i in
    if is_err err
    then (err, ThreadCreate i err :: map ThreadJoin (seq 0 i))
    else
      let '(e, evs) := create_loop w iter todo' (S i) in
      (e, ThreadCreate i err :: evs)
  end.

(** The join loop keeps the first join error. *)
Fixpoint join_loop (w : world) (iter : nat) (todo i : nat) (err : cb_error_t)
  : cb_error_t * list event :=
  match todo with
  | O => (err, [])
  | S todo' =>
    let join_err := thread_join_res w iter i in
    let err' := if is_err join_err && negb (is_err err) then join_err else err in
    let '(e, evs) := join_loop w iter todo' (S i) err' in
    (e, ThreadJoin i :: evs)
  end.

(** One iteration: the error, the accumulator after the joins, the calls. *)
Definition thread_iteration (w : world) (dataset : list Z)
  (config : cb_config_t) (n : Z) (iter : nat)
  : cb_error_t * cb_thread_shared_t * list event :=
  let params := partition (array_length config) n in
  let '(err, evs) := create_loop w iter (Z.to_nat n) 0 in
  if is_err err then (err, shared_init, evs)
  else
    let '(err', evs') := join_loop w iter (Z.to_nat n) 0 err in
    let shared :=
      accumulate
        (lock_order (lock_rank w iter) 0
           (thread_results w dataset iter params 0) []) in
    (err', shared, evs ++ evs').

Fixpoint thread_iterations (w : world) (dataset : list Z)
  (config : cb_config_t) (n : Z) (todo iter : nat)
  (times : list float) (verified_sum : Z) (tr : trace)
  : cb_error_t * list float * Z * trace :=
  match todo with
  | O => (CB_OK, times, verified_sum, tr)
  | S todo' =>
    let '(err, shared, evs) := thread_iteration w dataset config n iter in
    let tr' := tr ++ at_iteration iter evs in
    if is_err err then (err, times, verified_sum, tr')
    else
      let elapsed := (latest_end shared - earliest_start shared)%float in
      thread_iterations w dataset config n todo' (S iter)
        (times ++ [elapsed])
        (if (iter =? 0)%nat then shared_sum shared else verified_sum) tr'
  end.

Definition cb_bench_thread_run (w : world) (dataset : option (list Z))
  (config : option cb_config_t) (report : option cb_run_report_t)
  : cb_error_t * option cb_run_report_t * trace :=
  match dataset, config, report with
  | Some d, Some c, Some r =>
    let n := num_threads c in
    if negb (alloc_ok w) then (CB_ERR_ALLOC, report, [])
    else if is_err (mutex_init_res w) then (mutex_init_res w, report, [])
    else
      let '(err, times, verified_sum, tr) :=
        thread_iterations w d c n (Z.to_nat (iterations c)) 0 [] 0 [] in
      if is_err err then (err, report, tr)
      else
        let '(err', st) :=
          cb_stats_compute (Some times) (iterations c) (Some (stats r)) in
        (err',
         Some {| label := "thread"%string; report_sum := verified_sum;
                 parallelism := n;
                 stats := match st with Some s => s | None => stats r end |},
         tr)
  | _, _, _ => (CB_ERR_ARGS, report, [])
  end.

End BenchThread.

(** ** bench_process_unix.c *)

Module BenchProcessUnix.
Import Platform Worker Partition Stats.

(** The fan-out loop, entered at worker [i]: the error, the number of
    workers spawned when the loop ends, the slices handed to the workers
    spawned from [i] on, and the calls made.  What closing a pipe end
    returns is bound and not used, as in the source. *)
Fixpoint spawn_loop (w : world) (iter : nat) (base_len remainder : Z)
  (todo i : nat) (offset : Z)
  : cb_error_t * nat * list slice * list event :=
  match todo with
  | O => (CB_OK, i, [], [])
  | S todo' =>
    let chunk := chunk_len base_len remainder (Z.of_nat i) in
    let e1 := pipe_create_res w iter i in
    if is_err e1 then (e1, i, [], [PipeCreate i e1])
    else
      let e2 := process_spawn_res w iter i in
      if is_err e2
      then
        let _ := pipe_close_read_res w iter i in
        let _ := pipe_close_write_res w iter i in
        (e2, i, [],
         [PipeCreate i e1; ProcessSpawn i e2;
          PipeCloseRead i; PipeCloseWrite i])
      else
        let _ := pipe_close_write_res w iter i in
        let '(e, spawned, work, evs) :=
          spawn_loop w iter base_len remainder todo' (S i) (offset + chunk) in
        (e, spawned, mk_slice offset chunk :: work,
         PipeCreate i e1 :: ProcessSpawn i e2 :: PipeCloseWrite i :: evs)
  end.

(** The collection loop over the workers' pipes, entered at worker [i];
    a successful read yields the record the child wrote, its
    [cb_array_sum] over its slice. *)
Fixpoint read_loop (w : world) (iter : nat) (dataset : list Z)
  (work : list slice) (i : nat) (iter_sum : Z)
  : cb_error_t * Z * list event :=
  match work with
  | [] => (CB_OK, iter_sum, [])
  | s :: work' =>
    let err := pipe_read_res w iter i in
    if is_err err then (err, iter_sum, [PipeRead i err])
    else
      let child_result :=
        cb_array_sum (fst (worker_clock w iter i)) (snd (worker_clock w iter i))
          dataset (sl_start s) (sl_length s) in
      let _ := pipe_close_read_res w iter i in
      let '(e, total, evs) :=
        read_loop w iter dataset work' (S i)
          (long_add iter_sum (sum child_result)) in
      (e, total, PipeRead i err :: PipeCloseRead i :: evs)
  end.

(** The reaping loop keeps the first wait error; a non-zero exit status is
    only reported. *)
Fixpoint wait_loop (w : world) (iter : nat) (todo i : nat) (err : cb_error_t)
  : cb_error_t * list event :=
  match todo with
  | O => (err, [])
  | S todo' =>
    let wait_err := fst (process_wait_res w iter i) in
    let err' :=
      if is_err wait_err then (if is_err err then err else wait_err) else err in
    let '(e, evs) := wait_loop w iter todo' (S i) err' in
    (e, ProcessWait i :: evs)
  end.

(** The label [cleanup_children]: kill and reap workers [0 .. spawned-1]. *)
Definition cleanup_children (spawned : nat) : list event :=
  flat_map (fun j => [ProcessKill j; ProcessWait j]) (seq 0 spawned).

(** One iteration: the error, [iter_sum], the calls made. *)
Definition process_iteration (w : world) (dataset : list Z)
  (config : cb_config_t) (n : Z) (iter : nat)
  : cb_error_t * Z * list event :=
  let base_len := Z.quot (array_length config) n in
  let remainder := Z.rem (array_length config) n in
  let '(e1, spawned, work, evs1) :=
    spawn_loop w iter base_len remainder (Z.to_nat n) 0 0 in
  if is_err e1 then (e1, 0, evs1 ++ cleanup_children spawned)
  else
    let '(e2, iter_sum, evs2) := read_loop w iter dataset work 0 0 in
    if is_err e2 then (e2, iter_sum, evs1 ++ evs2 ++ cleanup_children spawned)
    else
      let '(e3, evs3) := wait_loop w iter spawned 0 e2 in
      (e3, iter_sum, evs1 ++ evs2 ++ evs3).

Fixpoint process_iterations (w : world) (dataset : list Z)
  (config : cb_config_t) (n : Z) (todo iter : nat)
  (times : list float) (verified_sum : Z) (tr : trace)
  : cb_error_t * list float * Z * trace :=
  match todo with
  | O => (CB_OK, times, verified_sum, tr)
  | S todo' =>
    let '(err, iter_sum, evs) := process_iteration w dataset config n iter in
    let tr' := tr ++ at_iteration iter evs in
    if is_err err then (err, times, verified_sum, tr')
    else
      let elapsed :=
        (snd (coord_clock w iter) - fst (coord_clock w iter))%float in
      process_iterations w dataset config n todo' (S iter)
        (times ++ [elapsed])
        (if (iter =? 0)%nat then iter_sum else verified_sum) tr'
  end.

Definition cb_bench_process_run (w : world) (dataset : option (list Z))
  (config : option cb_config_t) (report : option cb_run_report_t)
  : cb_error_t * option cb_run_report_t * trace :=
  match dataset, config, report with
  | Some d, Some c, Some r =>
    let n := num_processes c in
    if negb (alloc_ok w) then (CB_ERR_ALLOC, report, [])
    else
      let '(err, times, verified_sum, tr) :=
        process_iterations w d c n (Z.to_nat (iterations c)) 0 [] 0 [] in
      if is_err err then (err, report, tr)
      else
        let '(err', st) :=
          cb_stats_compute (Some times) (iterations c) (Some (stats r)) in
        (err',
         Some {| label := "process"%string; report_sum := verified_sum;
                 parallelism := n;
                 stats := match st with Some s => s | None => stats r end |},
         tr)
  | _, _, _ => (CB_ERR_ARGS, report, [])
  end.

End BenchProcessUnix.

(** ** bench_process_win.c: the shared segment and the worker's side *)

Module SharedMemWin.
Import Worker Input.

(** [(size_t) x], 64 bits wide. *)
Definition to_size_t (x : Z) : Z := x mod 2 ^ 64.

Definition SIZEOF_INT : Z := 4.

(** [sizeof(cb_result_t)]: a [long int] of 4 bytes, 4 bytes of padding and
    a [double]. *)
Definition SIZEOF_RESULT : Z := 16.

Definition shm_total_size (array_size num_workers : Z) : Z :=
  to_size_t (to_size_t (to_size_t array_size * SIZEOF_INT)
             + to_size_t (to_size_t num_workers * SIZEOF_RESULT)).

(** [shm_result(base, array_size, worker_id)], as the distance in bytes
    from [base]. *)
Definition shm_result (array_size worker_id : Z) : Z :=
  to_size_t (to_size_t array_size * SIZEOF_INT) + worker_id * SIZEOF_RESULT.

(** The segment: the dataset at its start, and the results stored behind
    it, found by the distance of their first byte from the start. *)
Record segment : Type := mk_segment {
  seg_dataset : list Z;
  seg_result : Z -> cb_result_t
}.

(** [*slot = result] for the slot at distance [at_byte]. *)
Definition store_result (m : segment) (at_byte : Z) (r : cb_result_t) : segment :=
  {| seg_dataset := seg_dataset m;
     seg_result := fun b => if b =? at_byte then r else seg_result m b |}.

(** [cb_bench_process_worker_main(args)]: [open_res] is what
    [cb_shared_mem_open] answers, [clock] what [cb_time_now] reads before
    and after the summation.  Returns the exit status and the segment. *)
Definition cb_bench_process_worker_main (open_res : cb_error_t)
  (clock : float * float) (m : segment) (wa : cb_worker_args_t) : Z * segment :=
  if is_err open_res then (1, m)
  else
    let result :=
      cb_array_sum (fst clock) (snd clock) (seg_dataset m)
        (wa_start wa) (wa_length wa) in
    (0, store_result m (shm_result (array_size wa) (worker_id wa)) result).

(** The command line the coordinator builds for worker [i]; [fmt_int] is
    [snprintf] with ["%d"] into a buffer of 16 bytes, which holds every
    [int]. *)
Definition child_argv (fmt_int : Z -> String.string)
  (exe_path shm_name : String.string) (array_length n i offset chunk : Z)
  : list String.string :=
  [exe_path; "--worker"%string; fmt_int i; shm_name; fmt_int array_length;
   fmt_int n; fmt_int offset; fmt_int chunk].

(** ["%d"] as the C standard describes it. *)
Definition fmt_int (x : Z) : String.string :=
  DecimalString.NilZero.string_of_int (Z.to_int x).

End SharedMemWin.

(** ** bench_process_win.c *)

Module BenchProcessWin.
Import Platform Worker Partition Stats SharedMemWin.

(** The fan-out loop, entered at worker [i]. *)
Fixpoint spawn_loop (w : world) (iter : nat) (base_len remainder : Z)
  (todo i : nat) (offset : Z)
  : cb_error_t * nat * list slice * list event :=
  match todo with
  | O => (CB_OK, i, [], [])
  | S todo' =>
    let chunk := chunk_len base_len remainder (Z.of_nat i) in
    let err := process_spawn_res w iter i in
    if is_err err then (err, i, [], [ProcessSpawn i err])
    else
      let '(e, spawned, work, evs) :=
        spawn_loop w iter base_len remainder todo' (S i) (offset + chunk) in
      (e, spawned, mk_slice offset chunk :: work, ProcessSpawn i err :: evs)
  end.

(** The reaping loop keeps the first error; a non-zero exit status counts
    as a platform error. *)
Fixpoint wait_loop (w : world) (iter : nat) (todo i : nat) (err : cb_error_t)
  : cb_error_t * list event :=
  match todo with
  | O => (err, [])
  | S todo' =>
    let wait_err := fst (process_wait_res w iter i) in
    let status := snd (process_wait_res w iter i) in
    let err' :=
      if is_err wait_err then (if is_err err then err else wait_err)
      else if negb (status =? 0)
           then (if is_err err then err else CB_ERR_PLATFORM)
           else err in
    let '(e, evs) := wait_loop w iter todo' (S i) err' in
    (e, ProcessWait i :: evs)
  end.

(** The loop that clears the result slots of the workers from [i] on,
    [memset(shm_result(shm_base, array_length, i), 0, ...)]. *)
Fixpoint clear_slots (m : segment) (array_length : Z) (todo i : nat)
  : segment :=
  match todo with
  | O => m
  | S todo' =>
    clear_slots
      (store_result m (shm_result array_length (Z.of_nat i))
         {| sum := 0; elapsed_sec := 0%float |})
      array_length todo' (S i)
  end.

(** What the workers from [i] on did to the segment by the time the
    coordinator has waited for them: a worker that ran
    [cb_bench_process_worker_main] stored its result where its own
    arguments put it; any other worker left the segment as it was. *)
Fixpoint workers_run (w : world) (iter : nat) (m : segment) (todo i : nat)
  : segment :=
  match todo with
  | O => m
  | S todo' =>
    let m' :=
      match worker_store w iter i with
      | Some wa =>
        snd (cb_bench_process_worker_main CB_OK (worker_clock w iter i) m wa)
      | None => m
      end in
    workers_run w iter m' todo' (S i)
  end.

(** Reading the slots of the workers from [i] on: the coordinator adds what
    it finds there, written or not. *)
Fixpoint slots_loop (m : segment) (array_length : Z) (todo i : nat)
  (iter_sum : Z) : Z :=
  match todo with
  | O => iter_sum
  | S todo' =>
    slots_loop m array_length todo' (S i)
      (long_add iter_sum
         (sum (seg_result m (shm_result array_length (Z.of_nat i)))))
  end.

Definition cleanup_children (spawned : nat) : list event :=
  flat_map (fun j => [ProcessKill j; ProcessWait j]) (seq 0 spawned).

(** One iteration on the segment [m]: the error, [iter_sum], the calls made
    and the segment afterwards. *)
Definition process_iteration (w : world) (m : segment)
  (config : cb_config_t) (n : Z) (iter : nat)
  : cb_error_t * Z * list event * segment :=
  let m0 := clear_slots m (array_length config) (Z.to_nat n) 0 in
  let base_len := Z.quot (array_length config) n in
  let remainder := Z.rem (array_length config) n in
  let '(e1, spawned, work, evs1) :=
    spawn_loop w iter base_len remainder (Z.to_nat n) 0 0 in
  let m1 := workers_run w iter m0 spawned 0 in
  if is_err e1 then (e1, 0, evs1 ++ cleanup_children spawned, m1)
  else
    let '(e2, evs2) := wait_loop w iter spawned 0 e1 in
    if is_err e2 then (e2, 0, evs1 ++ evs2, m1)
    else
      (e2, slots_loop m1 (array_length config) (Z.to_nat n) 0 0,
       evs1 ++ evs2, m1).

Fixpoint process_iterations (w : world) (m : segment)
  (config : cb_config_t) (n : Z) (todo iter : nat)
  (times : list float) (verified_sum : Z) (tr : trace)
  : cb_error_t * list float * Z * trace :=
  match todo with
  | O => (CB_OK, times, verified_sum, tr)
  | S todo' =>
    let '(err, iter_sum, evs, m') := process_iteration w m config n iter in
    let tr' := tr ++ at_iteration iter evs in
    if is_err err then (err, times, verified_sum, tr')
    else
      let elapsed :=
        (snd (coord_clock w iter) - fst (coord_clock w iter))%float in
      process_iterations w m' config n todo' (S iter)
        (times ++ [elapsed])
        (if (iter =? 0)%nat then iter_sum else verified_sum) tr'
  end.

(** [cb_bench_process_run]; the segment is created with the dataset copied
    to its start. *)
Definition cb_bench_process_run (w : world) (dataset : option (list Z))
  (config : option cb_config_t) (report : option cb_run_report_t)
  : cb_error_t * option cb_run_report_t * trace :=
  match dataset, config, report with
  | Some d, Some c, Some r =>
    let n := num_processes c in
    if is_err (exe_path_res w) then (exe_path_res w, report, [])
    else if negb (alloc_ok w) then (CB_ERR_ALLOC, report, [])
    else if is_err (shared_mem_create_res w)
    then (shared_mem_create_res w, report, [])
    else
      let m :=
        mk_segment d (fun _ => {| sum := 0; elapsed_sec := 0%float |}) in
      let '(err, times, verified_sum, tr) :=
        process_iterations w m c n (Z.to_nat (iterations c)) 0 [] 0 [] in
      if is_err err then (err, report, tr)
      else
        let '(err', st) :=
          cb_stats_compute (Some times) (iterations c) (Some (stats r)) in
        (err',
         Some {| label := "process"%string; report_sum := verified_sum;
                 parallelism := n;
                 stats := match st with Some s => s | None => stats r end |},
         tr)
  | _, _, _ => (CB_ERR_ARGS, report, [])
  end.

End BenchProcessWin.

(** ** Specification-side notion: the Windows workers did their work *)

Module WorkerSpec.
Import Platform Partition Input.

(** In iteration [it] every worker ran [cb_bench_process_worker_main] on
    the index, the array length and the slice that the coordinator wrote on
    its command line, and stored its result. *)
Definition workers_stored (w : world) (array_length n : Z) (it : nat) : Prop :=
  forall i s,
    nth_error (partition array_length n) i = Some s ->
    exists wa,
      worker_store w it i = Some wa
      /\ worker_id wa = Z.of_nat i
      /\ array_size wa = array_length
      /\ wa_start wa = sl_start s
      /\ wa_length wa = sl_length s.

End WorkerSpec.

(** ** Sample inputs *)

Module Samples.
Import Platform.
Local Open Scope float_scope.

(** Windows workers that all run on the arguments the coordinator builds
    for an array of [array_length] elements and [n] workers. *)
Definition workers_for (array_length n : Z)
  : nat -> nat -> option Input.cb_worker_args_t :=
  fun _ i =>
    option_map
      (fun s =>
         Input.mk_worker_args (Z.of_nat i) "concur_bench_4242"%string
           array_length n (Partition.sl_start s) (Partition.sl_length s))
      (nth_error (Partition.partition array_length n) i).

(** A world in which every platform call succeeds; thread [i] takes the
    mutex before the threads created earlier, and the Windows workers run
    on the arguments built for the sample configuration below. *)
Definition calm_world : world :=
  {| alloc_ok := true;
     coord_clock := fun it =>
       (Stats.double_of_int (Z.of_nat it),
        Stats.double_of_int (Z.of_nat it) + 0.5);
     worker_clock := fun it i =>
       (Stats.double_of_int (Z.of_nat (it + i)),
        Stats.double_of_int (Z.of_nat (it + i)) + 0.25);
     mutex_init_res := CB_OK;
     thread_create_res := fun _ _ => CB_OK;
     thread_join_res := fun _ _ => CB_OK;
     lock_rank := fun _ _ => O;
     pipe_create_res := fun _ _ => CB_OK;
     process_spawn_res := fun _ _ => CB_OK;
     pipe_read_res := fun _ _ => CB_OK;
     pipe_close_write_res := fun _ _ => CB_OK;
     pipe_close_read_res := fun _ _ => CB_OK;
     process_wait_res := fun _ _ => (CB_OK, 0%Z);
     exe_path_res := CB_OK;
     shared_mem_create_res := CB_OK;
     worker_store := workers_for 11 3 |}.

(** [w] with other Windows workers. *)
Definition with_workers (w : world)
  (workers : nat -> nat -> option Input.cb_worker_args_t) : world :=
  {| alloc_ok := alloc_ok w;
     coord_clock := coord_clock w;
     worker_clock := worker_clock w;
     mutex_init_res := mutex_init_res w;
     thread_create_res := thread_create_res w;
     thread_join_res := thread_join_res w;
     lock_rank := lock_rank w;
     pipe_create_res := pipe_create_res w;
     process_spawn_res := process_spawn_res w;
     pipe_read_res := pipe_read_res w;
     pipe_close_write_res := pipe_close_write_res w;
     pipe_close_read_res := pipe_close_read_res w;
     process_wait_res := process_wait_res w;
     exe_path_res := exe_path_res w;
     shared_mem_create_res := shared_mem_create_res w;
     worker_store := workers |}.

(** [w] with other answers to the closing of pipe ends. *)
Definition with_closes (w : world)
  (close_write close_read : nat -> nat -> cb_error_t) : world :=
  {| alloc_ok := alloc_ok w;
     coord_clock := coord_clock w;
     worker_clock := worker_clock w;
     mutex_init_res := mutex_init_res w;
     thread_create_res := thread_create_res w;
     thread_join_res := thread_join_res w;
     lock_rank := lock_rank w;
     pipe_create_res := pipe_create_res w;
     process_spawn_res := process_spawn_res w;
     pipe_read_res := pipe_read_res w;
     pipe_close_write_res := close_write;
     pipe_close_read_res := close_read;
     process_wait_res := process_wait_res w;
     exe_path_res := exe_path_res w;
     shared_mem_create_res := shared_mem_create_res w;
     worker_store := worker_store w |}.

(** As [calm_world], but in iteration 1 the spawn of worker 2 fails. *)
Definition spawn_fails_world : world :=
  {| alloc_ok := true;
     coord_clock := coord_clock calm_world;
     worker_clock := worker_clock calm_world;
     mutex_init_res := CB_OK;
     thread_create_res := fun _ _ => CB_OK;
     thread_join_res := fun _ _ => CB_OK;
     lock_rank := fun _ _ => O;
     pipe_create_res := fun _ _ => CB_OK;
     process_spawn_res := fun it i =>
       if ((it =? 1) && (i =? 2))%nat then CB_ERR_FORK else CB_OK;
     pipe_read_res := fun _ _ => CB_OK;
     pipe_close_write_res := fun _ _ => CB_OK;
     pipe_close_read_res := fun _ _ => CB_OK;
     process_wait_res := fun _ _ => (CB_OK, 0%Z);
     exe_path_res := CB_OK;
     shared_mem_create_res := CB_OK;
     worker_store := worker_store calm_world |}.

Definition sample_dataset : list Z := [3; 1; 4; 1; 5; 9; 2; 6; 5; 3; 5]%Z.

Definition sample_config : cb_config_t :=
  {| array_length := 11; num_processes := 3; num_threads := 4;
     seed := 314159; iterations := 2; verbose := false |}.

Definition blank_report : cb_run_report_t :=
  {| label := ""%string; report_sum := 0; parallelism := 0;
     stats := mk_stats 0 0 0 0 0 |}.

End Samples.

(** ** Specification-side notions for the teardown of the process mode *)

Module TeardownSpec.
Import Platform.

(** Where the first failing platform call of an iteration occurs. *)
Inductive failure_point : Type :=
| CreateFails   (* [cb_pipe_create] for worker [k] *)
| SpawnFails    (* [cb_process_spawn] for worker [k] *)
| ReadFails.    (* [cb_pipe_read] on the pipe of worker [k] *)

(** Iteration [it] of the Unix coordinator with [n] workers meets no failing
    call. *)
Definition unix_clean (w : world) (n it : nat) : Prop :=
  forall i, (i < n)%nat ->
    pipe_create_res w it i = CB_OK
    /\ process_spawn_res w it i = CB_OK
    /\ pipe_read_res w it i = CB_OK
    /\ fst (process_wait_res w it i) = CB_OK.

(** In iteration [it] the first failing call is the one named by [f] for
    worker [k], and it returns [e]. *)
Definition unix_fails (w : world) (n it k : nat) (f : failure_point)
  (e : cb_error_t) : Prop :=
  (k < n)%nat /\ e <> CB_OK /\
  match f with
  | CreateFails =>
    (forall i, (i < k)%nat ->
       pipe_create_res w it i = CB_OK /\ process_spawn_res w it i = CB_OK)
    /\ pipe_create_res w it k = e
  | SpawnFails =>
    (forall i, (i < k)%nat ->
       pipe_create_res w it i = CB_OK /\ process_spawn_res w it i = CB_OK)
    /\ pipe_create_res w it k = CB_OK
    /\ process_spawn_res w it k = e
  | ReadFails =>
    (forall i, (i < n)%nat ->
       pipe_create_res w it i = CB_OK /\ process_spawn_res w it i = CB_OK)
    /\ (forall i, (i < k)%nat -> pipe_read_res w it i = CB_OK)
    /\ pipe_read_res w it k = e
  end.

(** The workers already spawned when the failure occurs. *)
Definition spawned_at (f : failure_point) (n k : nat) : nat :=
  match f with
  | ReadFails => n
  | _ => k
  end.

(** In iteration [it] no call that the coordinator checks fails, but the
    parent's [cb_pipe_close_write] on the pipe of worker [k] returns the
    error [e]. *)
Definition unix_close_fails (w : world) (n it k : nat) (e : cb_error_t)
  : Prop :=
  (k < n)%nat /\ e <> CB_OK
  /\ unix_clean w n it
  /\ pipe_close_write_res w it k = e.

(** Iteration [it] of the Windows coordinator meets no failing call and
    every worker exits with status 0. *)
Definition win_clean (w : world) (n it : nat) : Prop :=
  forall i, (i < n)%nat ->
    process_spawn_res w it i = CB_OK
    /\ process_wait_res w it i = (CB_OK, 0).

(** In iteration [it] the spawn of worker [k] is the first to fail. *)
Definition win_spawn_fails (w : world) (n it k : nat) (e : cb_error_t) : Prop :=
  (k < n)%nat /\ e <> CB_OK
  /\ (forall i, (i < k)%nat -> process_spawn_res w it i = CB_OK)
  /\ process_spawn_res w it k = e.

(** Kill and reap workers [0 .. s-1], in this order. *)
Definition kill_and_reap (s : nat) : list event :=
  flat_map (fun j => [ProcessKill j; ProcessWait j]) (seq 0 s).

End TeardownSpec.

(** ** dataset.c *)

Module Dataset.

(** What the environment answers to one call of [cb_dataset_create]. *)
Record env : Type := mk_env {
  time_now : Z;        (* [time(NULL)] *)
  malloc_ok : bool     (* whether [malloc] returns a block *)
}.

(** The C library's [srand] and [rand] act on a hidden generator state. *)
Section WithRand.
Variable prng : Type.
Variable srand : Z -> prng.
Variable rand : prng -> Z * prng.

(** [(unsigned int) x]. *)
Definition to_unsigned (x : Z) : Z := x mod 2 ^ 32.

(** The population loop, with [todo] elements left: the elements stored,
    the number of progress marks printed, the generator afterwards. *)
Fixpoint populate (verbose : bool) (progress_step : Z) (st : prng)
  (todo : nat) (i : Z) : list Z * nat * prng :=
  match todo with
  | O => ([], O, st)
  | S todo' =>
    let '(x, st') := rand st in
    let mark := if verbose && (Z.rem i progress_step =? 0) then 1%nat else O in
    let '(data, marks, st'') := populate verbose progress_step st' todo' (i + 1) in
    ((Z.rem x 100 + 1) :: data, (mark + marks)%nat, st'')
  end.

(** [cb_dataset_create(config, data_out, verbose)].  [config] and
    [data_out] are pointers, [None] when NULL; [*data_out] is itself a
    pointer to the array.  The result gives the error code, [*config] and
    [*data_out] afterwards, and the number of progress marks printed. *)
Definition cb_dataset_create (e : env) (config : option cb_config_t)
  (data_out : option (option (list Z))) (verbose : bool)
  : cb_error_t * option cb_config_t * option (option (list Z)) * nat :=
  match config, data_out with
  | Some c, Some _ =>
    let c1 :=
      if seed c =? 0
      then
        let st := srand (to_unsigned (time_now e)) in
        set_seed c (to_unsigned (fst (rand st)))
      else c in
    let st := srand (seed c1) in
    if negb (malloc_ok e) then (CB_ERR_ALLOC, Some c1, Some None, O)
    else
      let progress_step :=
        if Z.quot (array_length c1) 10 =? 0 then 1
        else Z.quot (array_length c1) 10 in
      let '(data, marks, _) :=
        populate verbose progress_step st (Z.to_nat (array_length c1)) 0 in
      (CB_OK, Some c1, Some (Some data), marks)
  | _, _ => (CB_ERR_ARGS, config, data_out, O)
  end.

End WithRand.

(** The sample generator of the C standard (7.22.2): a 64-bit state,
    [srand] stores the seed, [rand] steps it and returns 15 bits. *)
Definition iso_srand (seed : Z) : Z := seed.

Definition iso_rand (next : Z) : Z * Z :=
  let next' := (next * 1103515245 + 12345) mod 2 ^ 64 in
  ((next' / 65536) mod 32768, next').

End Dataset.

(** ** Sample inputs for the dataset *)

Module DatasetSamples.

Definition config_314159 : cb_config_t :=
  {| array_length := 1000; num_processes := 4; num_threads := 4;
     seed := 314159; iterations := 5; verbose := false |}.

Definition morning : Dataset.env :=
  {| Dataset.time_now := 1700000000; Dataset.malloc_ok := true |}.

Definition evening : Dataset.env :=
  {| Dataset.time_now := 1700040000; Dataset.malloc_ok := true |}.

End DatasetSamples.

(** ** A decimal [strtol], [strtoul] and [atoi] as the C standard describes
    them, to run the input layer on sample inputs *)

Module Libc.
Import Input.

Definition LONG_MAX : Z := 9223372036854775807.
Definition LONG_MIN : Z := -9223372036854775808.
Definition ULONG_MAX : Z := 18446744073709551615.

Definition is_space (c : Ascii.ascii) : bool :=
  let n := Ascii.nat_of_ascii c in
  ((n =? 32) || ((9 <=? n) && (n <=? 13)))%nat.

Definition digit_val (c : Ascii.ascii) : option Z :=
  let n := Z.of_nat (Ascii.nat_of_ascii c) in
  if (48 <=? n) && (n <=? 57) then Some (n - 48) else None.

Fixpoint skip_space (s : String.string) : nat * String.string :=
  match s with
  | String.EmptyString => (O, s)
  | String.String c rest =>
    if is_space c
    then let '(k, s') := skip_space rest in (S k, s')
    else (O, s)
  end.

Fixpoint read_digits (s : String.string) (acc : Z) : Z * nat :=
  match s with
  | String.EmptyString => (acc, O)
  | String.String c rest =>
    match digit_val c with
    | Some d => let '(v, k) := read_digits rest (acc * 10 + d) in (v, S k)
    | None => (acc, O)
    end
  end.

Definition read_sign (s : String.string) : bool * nat * String.string :=
  match s with
  | String.String c rest =>
    if Ascii.eqb c "-"%char then (true, 1%nat, rest)
    else if Ascii.eqb c "+"%char then (false, 1%nat, rest)
    else (false, O, s)
  | String.EmptyString => (false, O, s)
  end.

Definition strtol (s : String.string) : strto_result :=
  let '(k1, s1) := skip_space s in
  let '(neg, k2, s2) := read_sign s1 in
  let '(v, k3) := read_digits s2 0 in
  if (k3 =? 0)%nat then mk_strto 0 0 false
  else
    let v' := if neg then - v else v in
    if LONG_MAX <? v' then mk_strto LONG_MAX (k1 + k2 + k3) true
    else if v' <? LONG_MIN then mk_strto LONG_MIN (k1 + k2 + k3) true
    else mk_strto v' (k1 + k2 + k3) false.

Definition strtoul (s : String.string) : strto_result :=
  let '(k1, s1) := skip_space s in
  let '(neg, k2, s2) := read_sign s1 in
  let '(v, k3) := read_digits s2 0 in
  if (k3 =? 0)%nat then mk_strto 0 0 false
  else if ULONG_MAX <? v then mk_strto ULONG_MAX (k1 + k2 + k3) true
  else mk_strto (if neg then (- v) mod (ULONG_MAX + 1) else v) (k1 + k2 + k3) false.

Definition atoi (s : String.string) : Z :=
  let v := st_val (strtol s) in
  (v + 2 ^ 31) mod 2 ^ 32 - 2 ^ 31.

(** The C runtime of a Windows program, before [main]: the command line is
    split into [argv] at blanks and tabs.  Double quotes, which the runtime
    treats specially, are not modelled: this is how the runtime splits a
    command line that has none. *)
Definition is_blank (c : Ascii.ascii) : bool :=
  Ascii.eqb c " "%char || Ascii.eqb c "009"%char.

Fixpoint split_args (s : String.string) : list String.string :=
  match s with
  | String.EmptyString => []
  | String.String c rest =>
    if is_blank c then split_args rest
    else
      match rest with
      | String.EmptyString => [String.String c String.EmptyString]
      | String.String c' _ =>
        if is_blank c'
        then String.String c String.EmptyString :: split_args rest
        else
          match split_args rest with
          | word :: words => String.String c word :: words
          | [] => [String.String c String.EmptyString]
          end
      end
  end.

(** An argument that survives being written on a command line without
    quoting: not empty, no blank, no tab, no double quote. *)
Fixpoint no_blank (s : String.string) : bool :=
  match s with
  | String.EmptyString => true
  | String.String c rest =>
    negb (is_blank c) && negb (Ascii.eqb c "034"%char) && no_blank rest
  end.

Definition plain (s : String.string) : bool :=
  negb (String.eqb s String.EmptyString) && no_blank s.

(** A session: [--iterations 500] on the command line, then the answers to
    the prompts, two of them refused. *)
Definition sample_argv : list String.string :=
  ["concur-bench"; "--iterations"; "500"]%string.

Definition newline : String.string :=
  String.String "010"%char String.EmptyString.

Definition sample_stdin : Input.stdin_t :=
  map (fun s => String.append s newline)
    ["n"; "1000000"; "4"; "8"; "314159"; "many"; "500"; "20"]%string.

End Libc.

(** ** Specification-side notions for the failure paths of the coordinators *)

Module CoordinatorSpec.
Import Platform.

(** Iteration [it] of the thread coordinator with [n] threads meets no
    failing call. *)
Definition thread_clean (w : world) (n it : nat) : Prop :=
  forall i, (i < n)%nat ->
    thread_create_res w it i = CB_OK /\ thread_join_res w it i = CB_OK.

(** In iteration [it] the creation of thread [k] is the first to fail. *)
Definition thread_create_fails (w : world) (n it k : nat) (e : cb_error_t)
  : Prop :=
  (k < n)%nat /\ e <> CB_OK
  /\ (forall i, (i < k)%nat -> thread_create_res w it i = CB_OK)
  /\ thread_create_res w it k = e.

(** In iteration [it] all threads are created and the join of thread [k] is
    the first to fail. *)
Definition thread_join_fails (w : world) (n it k : nat) (e : cb_error_t)
  : Prop :=
  (k < n)%nat /\ e <> CB_OK
  /\ (forall i, (i < n)%nat -> thread_create_res w it i = CB_OK)
  /\ (forall i, (i < k)%nat -> thread_join_res w it i = CB_OK)
  /\ thread_join_res w it k = e.

(** In iteration [it] of the Unix process coordinator every worker is
    spawned and read, and the wait for worker [k] is the first to fail. *)
Definition unix_wait_fails (w : world) (n it k : nat) (e : cb_error_t)
  : Prop :=
  (k < n)%nat /\ e <> CB_OK
  /\ (forall i, (i < n)%nat ->
        pipe_create_res w it i = CB_OK
        /\ process_spawn_res w it i = CB_OK
        /\ pipe_read_res w it i = CB_OK)
  /\ (forall i, (i < k)%nat -> fst (process_wait_res w it i) = CB_OK)
  /\ fst (process_wait_res w it k) = e.

(** In iteration [it] of the Windows process coordinator every worker is
    spawned, workers before [k] exit with status 0, and worker [k] is
    reaped with a non-zero exit status. *)
Definition win_bad_status (w : world) (n it k : nat) : Prop :=
  (k < n)%nat
  /\ (forall i, (i < n)%nat -> process_spawn_res w it i = CB_OK)
  /\ (forall i, (i < k)%nat -> process_wait_res w it i = (CB_OK, 0))
  /\ fst (process_wait_res w it k) = CB_OK
  /\ snd (process_wait_res w it k) <> 0.

(** As [Samples.calm_world], with one failing call chosen by the fields
    that differ. *)
Definition world_with (create join : nat -> nat -> cb_error_t)
  (wait : nat -> nat -> cb_error_t * Z) : world :=
  {| alloc_ok := true;
     coord_clock := coord_clock Samples.calm_world;
     worker_clock := worker_clock Samples.calm_world;
     mutex_init_res := CB_OK;
     thread_create_res := create;
     thread_join_res := join;
     lock_rank := fun _ _ => O;
     pipe_create_res := fun _ _ => CB_OK;
     process_spawn_res := fun _ _ => CB_OK;
     pipe_read_res := fun _ _ => CB_OK;
     pipe_close_write_res := fun _ _ => CB_OK;
     pipe_close_read_res := fun _ _ => CB_OK;
     process_wait_res := wait;
     exe_path_res := CB_OK;
     shared_mem_create_res := CB_OK;
     worker_store := worker_store Samples.calm_world |}.

Definition all_ok : nat -> nat -> cb_error_t := fun _ _ => CB_OK.

Definition fails_at (it0 k0 : nat) (e : cb_error_t)
  : nat -> nat -> cb_error_t :=
  fun it i => if ((it =? it0) && (i =? k0))%nat then e else CB_OK.

Definition waits_ok : nat -> nat -> cb_error_t * Z := fun _ _ => (CB_OK, 0).

(** As [Samples.calm_world], but in iteration 0 the parent cannot close the
    write end of the pipe of worker 1. *)
Definition close_fails_world : world :=
  Samples.with_closes Samples.calm_world (fails_at 0 1 CB_ERR_PIPE) all_ok.

Definition wait_at (it0 k0 : nat) (res : cb_error_t * Z)
  : nat -> nat -> cb_error_t * Z :=
  fun it i => if ((it =? it0) && (i =? k0))%nat then res else (CB_OK, 0).

End CoordinatorSpec.

(** ** The platform calls of an iteration in which nothing fails *)

Module TraceSpec.
Import Platform.

(** Unix process mode: per worker a pipe, a spawn and the close of the
    parent's write end; then per worker a read and the close of the read
    end; then one wait per worker. *)
Definition unix_iteration_calls (n : nat) : list event :=
  flat_map (fun j => [PipeCreate j CB_OK; ProcessSpawn j CB_OK; PipeCloseWrite j])
    (seq 0 n)
  ++ flat_map (fun j => [PipeRead j CB_OK; PipeCloseRead j]) (seq 0 n)
  ++ map ProcessWait (seq 0 n).

(** Windows process mode: one spawn per worker, then one wait per worker. *)
Definition win_iteration_calls (n : nat) : list event :=
  map (fun j => ProcessSpawn j CB_OK) (seq 0 n) ++ map ProcessWait (seq 0 n).

(** Thread mode: one creation per thread, then one join per thread. *)
Definition thread_iteration_calls (n : nat) : list event :=
  map (fun j => ThreadCreate j CB_OK) (seq 0 n) ++ map ThreadJoin (seq 0 n).

(** The calls of iterations [0 .. its-1], each running [calls]. *)
Definition repeated (calls : list event) (its : nat) : trace :=
  flat_map (fun it => at_iteration it calls) (seq 0 its).

Definition is_kill (ev : event) : bool :=
  match ev with
  | ProcessKill _ => true
  | _ => false
  end.

End TraceSpec.

(** ** platform_unix.c: the write end of a pipe, and closing its ends *)

Module PipeWriteUnix.

(** What the kernel answers to the successive [write] calls on the write
    end: it takes at most [k] of the bytes offered (a partial write, [k] may
    be 0), the call is interrupted, or it fails.  Once the list is exhausted
    the kernel takes whatever is offered in one call. *)
Inductive write_event : Type :=
| Accept (k : nat)
| Eintr
| Fail.

(** The loop [while (remaining > 0)] of [cb_pipe_write]: [data] is what is
    left to write, from [ptr] on, and [sent] what the pipe has taken. *)
Fixpoint pipe_write_loop (script : list write_event) (data sent : list Byte.byte)
  : cb_error_t * list Byte.byte * list write_event :=
  match data with
  | [] => (CB_OK, sent, script)
  | _ :: _ =>
    match script with
    | [] => (CB_OK, sent ++ data, [])
    | Accept k :: rest =>
      pipe_write_loop rest (skipn k data) (sent ++ firstn k data)
    | Eintr :: rest => pipe_write_loop rest data sent
    | Fail :: rest => (CB_ERR_PIPE, sent, rest)
    end
  end.

(** [cb_pipe_write(p, buf, size)] with [buf[0 .. size-1] = data]: the error
    code, the bytes that went into the pipe, the kernel's answers left. *)
Definition cb_pipe_write (script : list write_event) (data : list Byte.byte)
  : cb_error_t * list Byte.byte * list write_event :=
  pipe_write_loop script data [].

(** The two descriptors of a [cb_pipe_t]; [-1] once closed. *)
Record pipe_fds : Type := mk_fds { fd_read : Z; fd_write : Z }.

(** [cb_pipe_close_read(p)]: [close_ok] is whether [close] succeeds, should
    it be called.  Returns the error code, the descriptors afterwards and
    the descriptors handed to [close]. *)
Definition cb_pipe_close_read (p : pipe_fds) (close_ok : bool)
  : cb_error_t * pipe_fds * list Z :=
  if 0 <=? fd_read p
  then
    if close_ok then (CB_OK, mk_fds (-1) (fd_write p), [fd_read p])
    else (CB_ERR_PIPE, p, [fd_read p])
  else (CB_OK, p, []).

(** [cb_pipe_close_write(p)]. *)
Definition cb_pipe_close_write (p : pipe_fds) (close_ok : bool)
  : cb_error_t * pipe_fds * list Z :=
  if 0 <=? fd_write p
  then
    if close_ok then (CB_OK, mk_fds (fd_read p) (-1), [fd_write p])
    else (CB_ERR_PIPE, p, [fd_write p])
  else (CB_OK, p, []).

(** The descriptors of a pipe that are still open. *)
Definition open_fds (p : pipe_fds) : list Z :=
  (if 0 <=? fd_read p then [fd_read p] else [])
  ++ (if 0 <=? fd_write p then [fd_write p] else []).

(** A sequence of close calls on one pipe, [true] for the read end; the
    second component of each entry is the answer [close] would give. *)
Fixpoint close_calls (p : pipe_fds) (calls : list (bool * bool))
  : pipe_fds * list Z :=
  match calls with
  | [] => (p, [])
  | (read_end, ok) :: rest =>
    let '(_, p', closed) :=
      if read_end then cb_pipe_close_read p ok else cb_pipe_close_write p ok in
    let '(p'', closed') := close_calls p' rest in
    (p'', closed ++ closed')
  end.

End PipeWriteUnix.

(** ** Sample environments for the automatic seed *)

Module SeedSamples.

(** A configuration that asks for an automatic seed. *)
Definition auto_config : cb_config_t :=
  {| array_length := 12; num_processes := 2; num_threads := 3;
     seed := 0; iterations := 5; verbose := false |}.

(** A clock value at which the sample generator's first number is 0. *)
Definition unlucky : Dataset.env :=
  {| Dataset.time_now := 1700012425; Dataset.malloc_ok := true |}.

Definition out_of_memory : Dataset.env :=
  {| Dataset.time_now := 1700000000; Dataset.malloc_ok := false |}.

End SeedSamples.

(** ** error.c *)

Module ErrorStr.
Local Open Scope string_scope.

(** [cb_error_str(err)]; the argument is the [int] behind the enumeration,
    so that values outside of it are covered. *)
Definition cb_error_str (err : Z) : String.string :=
  if err =? 0 then "success"
  else if err =? -1 then "memory allocation failed"
  else if err =? -2 then "pipe operation failed"
  else if err =? -3 then "process creation failed"
  else if err =? -4 then "thread operation failed"
  else if err =? -5 then "mutex operation failed"
  else if err =? -6 then "I/O operation failed"
  else if err =? -7 then "invalid input"
  else if err =? -8 then "platform-specific error"
  else if err =? -9 then "operation timed out"
  else if err =? -10 then "overflow detected"
  else if err =? -11 then "invalid arguments"
  else if err =? -12 then "shared memory operation failed"
  else "unknown error".

End ErrorStr.

(** ** platform_win.c: the command line of [cb_process_spawn] *)

Module SpawnWin.

(** [sizeof(cmdline)]. *)
Definition CMDLINE_SIZE : Z := 4096.

(** The loop over [child_argv[i]], entered with [offset] bytes written:
    [snprintf] reports the length of the full piece, and a piece that does
    not fit with its terminator ends the call.  [None] when it overflows. *)
Fixpoint build_cmdline (args : list String.string) (first : bool)
  (cmdline : String.string) (offset : Z) : option String.string :=
  match args with
  | [] => Some cmdline
  | a :: rest =>
    let piece := if first then a else String.append " " a in
    let written := Z.of_nat (String.length piece) in
    if CMDLINE_SIZE - offset <=? written then None
    else build_cmdline rest false (String.append cmdline piece) (offset + written)
  end.

(** [cb_process_spawn(proc, child_argv, NULL, NULL)]: [child_argv] is [None]
    when NULL and empty when [child_argv[0]] is NULL; [create_ok] is whether
    [CreateProcessA] succeeds on a command line.  Returns the error code and
    the command line handed to [CreateProcessA], if it was called. *)
Definition cb_process_spawn (child_argv : option (list String.string))
  (create_ok : String.string -> bool) : cb_error_t * option String.string :=
  match child_argv with
  | None | Some [] => (CB_ERR_ARGS, None)
  | Some args =>
    match build_cmdline args true String.EmptyString 0 with
    | None => (CB_ERR_OVERFLOW, None)
    | Some cmdline =>
      if create_ok cmdline then (CB_OK, Some cmdline)
      else (CB_ERR_FORK, Some cmdline)
    end
  end.

End SpawnWin.

(** ** output.c *)

Module Output.

(** [CB_MAX_PATH] of [platform.h], the size of [run_dir] in [main]. *)
Definition CB_MAX_PATH : Z := 512.

(** [sizeof(session.timestamp)]. *)
Definition TIMESTAMP_SIZE : Z := 32.

(** The correctness line of [cb_output_terminal]. *)
Inductive verdict : Type :=
| Pass (s : Z)
| Fail (single process thread : Z).

Definition correctness (single process thread : cb_run_report_t) : verdict :=
  if (report_sum single =? report_sum process)
     && (report_sum single =? report_sum thread)
  then Pass (report_sum single)
  else Fail (report_sum single) (report_sum process) (report_sum thread).

(** [cb_output_create_run_dir(base_dir, timestamp, path_out, path_size)]:
    the strings are [None] when NULL, [path_out] is given by whether it is
    non-NULL; [mkdir_p] is what [cb_mkdir_p] answers.  Returns the error
    code and what [path_out] holds afterwards, if it was written. *)
Definition cb_output_create_run_dir (base_dir timestamp : option String.string)
  (path_out : bool) (path_size : Z) (mkdir_p : String.string -> cb_error_t)
  : cb_error_t * option String.string :=
  match base_dir, timestamp with
  | Some b, Some t =>
    if negb path_out || (path_size =? 0) then (CB_ERR_ARGS, None)
    else
      let full := String.append b (String.append "/run_" t) in
      let written := Z.of_nat (String.length full) in
      if path_size <=? written
      then (CB_ERR_OVERFLOW,
            Some (String.substring 0 (Z.to_nat (path_size - 1)) full))
      else (mkdir_p full, Some full)
  | _, _ => (CB_ERR_ARGS, None)
  end.

End Output.

(** ** main.c *)

Module Main.
Import Platform Input.

(** The target the program is compiled for. *)
Inductive os : Type := Unix | Windows.

(** [memset(&session, 0, sizeof(session))]: a report before its benchmark
    has run. *)
Definition zero_report : cb_run_report_t :=
  {| label := String.EmptyString; report_sum := 0; parallelism := 0;
     stats := mk_stats 0 0 0 0 0 |}.

Definition report_of (r : option cb_run_report_t) : cb_run_report_t :=
  match r with
  | Some r => r
  | None => zero_report
  end.

Section WithLibc.
Variable strtol : String.string -> strto_result.
Variable strtoul : String.string -> strto_result.
Variable atoi : String.string -> Z.
Variable prng : Type.
Variable srand : Z -> prng.
Variable rand : prng -> Z * prng.
Variable target : os.

(** [cb_bench_process_run] as linked for the target. *)
Definition process_run (w : world) (dataset : option (list Z))
  (config : option cb_config_t) (report : option cb_run_report_t)
  : cb_error_t * option cb_run_report_t * trace :=
  match target with
  | Unix => BenchProcessUnix.cb_bench_process_run w dataset config report
  | Windows => BenchProcessWin.cb_bench_process_run w dataset config report
  end.

(** Steps 6 to 8 of [main]: the three benchmarks, each in the world that
    answers its platform calls, then the results.  Returns the exit status
    and the correctness line, if [cb_output_terminal] was reached.  A
    failure to save the report files does not change the exit status. *)
Definition run_benchmarks (ws wp wt : world) (dataset : list Z)
  (config : cb_config_t) : Z * option Output.verdict :=
  let '(e1, single) :=
    BenchSingle.cb_bench_single_run ws (Some dataset) (Some config)
      (Some zero_report) in
  if is_err e1 then (1, None)
  else
    let '(e2, process, _) :=
      process_run wp (Some dataset) (Some config) (Some zero_report) in
    if is_err e2 then (1, None)
    else
      let '(e3, thread, _) :=
        BenchThread.cb_bench_thread_run wt (Some dataset) (Some config)
          (Some zero_report) in
      if is_err e3 then (1, None)
      else
        (0, Some (Output.correctness (report_of single) (report_of process)
                    (report_of thread))).

(** [main(argc, argv)]: [stdin] is what the user types, [e] what the dataset
    creation finds, [worker] the exit status of
    [cb_bench_process_worker_main]. *)
Definition main (argv : list String.string) (stdin : stdin_t)
  (e : Dataset.env) (ws wp wt : world) (worker : cb_worker_args_t -> Z)
  : Z * option Output.verdict :=
  let st0 :=
    mk_parse_state (mk_config 0 0 0 0 0 false) false
      (mk_worker_args 0 String.EmptyString 0 0 0 0) in
  match cb_parse_args strtol atoi argv (Some st0) with
  | (err, Some st) =>
    if is_err err
    then (if cb_error_code err =? cb_error_code CB_ERR_ARGS then 0 else 1, None)
    else if ps_is_worker st
    then
      match target with
      | Windows => (worker (ps_worker_args st), None)
      | Unix => (1, None)
      end
    else
      let '(err1, c1, _) :=
        cb_input_interactive strtol strtoul (Some (ps_config st)) stdin in
      if is_err err1 then (1, None)
      else
        match c1 with
        | Some c =>
          let '(err2, c2, data, _) :=
            Dataset.cb_dataset_create prng srand rand e (Some c) (Some None)
              (verbose c) in
          if is_err err2 then (1, None)
          else
            match c2, data with
            | Some c', Some (Some d) => run_benchmarks ws wp wt d c'
            | _, _ => (1, None)
            end
        | None => (1, None)
        end
  | (_, None) => (1, None)
  end.

End WithLibc.

(** A short session: no flags, then the answers to the six prompts. *)
Definition short_stdin : stdin_t :=
  map (fun s => String.append s Libc.newline)
    ["n"; "1000"; "2"; "3"; "42"; "1"]%string.

End Main.

(** ** A Windows installation whose path has a blank in it *)

Module BlankPath.
Import Platform Partition.

Definition exe_path : String.string :=
  "C:\Program Files\concur-bench.exe"%string.

(** A thousand sevens, and a configuration the prompts accept. *)
Definition dataset : list Z := repeat 7 1000.

Definition config : cb_config_t :=
  {| array_length := 1000; num_processes := 2; num_threads := 2;
     seed := 42; iterations := 1; verbose := false |}.

(** The arguments the coordinator hands to [cb_process_spawn] for worker
    [i]. *)
Definition worker_argv (i : nat) : list String.string :=
  match nth_error (partition (array_length config) (num_processes config)) i with
  | Some s =>
    SharedMemWin.child_argv SharedMemWin.fmt_int exe_path
      "concur_bench_4242"%string (array_length config) (num_processes config)
      (Z.of_nat i) (sl_start s) (sl_length s)
  | None => []
  end.

(** Every platform call succeeds and every worker exits with status 0, but
    no worker has stored a result. *)
Definition world : world :=
  Samples.with_workers Samples.calm_world (fun _ _ => None).

End BlankPath.

(** * Properties *)

(** ** Machine arithmetic *)

Lemma wrap_long_idem (x : Z) : wrap_long (wrap_long x) = wrap_long x.
Proof.
  unfold wrap_long.
  replace ((x + 2 ^ (LONG_BITS - 1)) mod 2 ^ LONG_BITS - 2 ^ (LONG_BITS - 1)
           + 2 ^ (LONG_BITS - 1))
    with ((x + 2 ^ (LONG_BITS - 1)) mod 2 ^ LONG_BITS) by lia.
  rewrite Z.mod_mod; [reflexivity | unfold LONG_BITS; lia].
Qed.

Lemma wrap_long_add_l (a b : Z) : wrap_long (wrap_long a + b) = wrap_long (a + b).
Proof.
  unfold wrap_long. f_equal.
  replace ((a + 2 ^ (LONG_BITS - 1)) mod 2 ^ LONG_BITS - 2 ^ (LONG_BITS - 1) + b
           + 2 ^ (LONG_BITS - 1))
    with ((a + 2 ^ (LONG_BITS - 1)) mod 2 ^ LONG_BITS + b) by lia.
  rewrite Z.add_mod_idemp_l by (unfold LONG_BITS; lia).
  f_equal. lia.
Qed.

Lemma wrap_long_add_r (a b : Z) : wrap_long (a + wrap_long b) = wrap_long (a + b).
Proof. rewrite Z.add_comm, wrap_long_add_l. f_equal. lia. Qed.

Lemma wrap_long_small (x : Z) :
  - 2 ^ 63 <= x < 2 ^ 63 -> wrap_long x = x.
Proof.
  intros H. unfold wrap_long, LONG_BITS. simpl Z.sub.
  rewrite Z.mod_small; lia.
Qed.

(** ** The summation kernel *)

Module WorkerFacts.
Import Worker Partition SumSpec.


Lemma range_sum_app dataset (a b : nat) : forall i,
  range_sum dataset i (a + b)
  = range_sum dataset i a + range_sum dataset (i + Z.of_nat a) b.
Proof.
  induction a as [|a IH]; intros i.
  - simpl. f_equal. lia.
  - cbn [Nat.add range_sum]. rewrite IH.
    replace (i + 1 + Z.of_nat a) with (i + Z.of_nat (S a)) by lia. lia.
Qed.

Lemma sum_loop_wrap dataset : forall todo i acc,
  wrap_long (sum_loop dataset i todo acc)
  = wrap_long (acc + range_sum dataset i todo).
Proof.
  induction todo as [|todo IH]; intros i acc; cbn [sum_loop range_sum].
  - f_equal. lia.
  - rewrite IH. unfold long_add. rewrite wrap_long_add_l. f_equal. lia.
Qed.

Lemma sum_loop_zero dataset todo i :
  sum_loop dataset i todo 0 = wrap_long (range_sum dataset i todo).
Proof.
  destruct todo as [|todo].
  - reflexivity.
  - cbn [sum_loop]. unfold long_add at 1.
    assert (E : forall t j x,
      sum_loop dataset j t (wrap_long x)
      = wrap_long (sum_loop dataset j t (wrap_long x))).
    { induction t as [|t IH]; intros j x; cbn [sum_loop].
      - now rewrite wrap_long_idem.
      - unfold long_add. apply IH. }
    rewrite E, sum_loop_wrap, wrap_long_add_l. reflexivity.
Qed.

Lemma array_sum_range dataset start length :
  array_sum dataset start length
  = wrap_long (range_sum dataset start (Z.to_nat length)).
Proof. unfold array_sum, cb_array_sum. cbn [sum]. apply sum_loop_zero. Qed.

(** With [int] elements and an [int] length the 64-bit accumulator never
    wraps: the kernel returns the mathematical sum. *)
Lemma range_sum_bound dataset :
  Forall (fun x => - 2 ^ 31 <= x < 2 ^ 31) dataset ->
  forall todo i,
    - (Z.of_nat todo * 2 ^ 31) <= range_sum dataset i todo <= Z.of_nat todo * 2 ^ 31.
Proof.
  intros Hd. induction todo as [|todo IH]; intros i; cbn [range_sum].
  - lia.
  - specialize (IH (i + 1)).
    assert (Hx : - 2 ^ 31 <= dataset_get dataset i < 2 ^ 31).
    { unfold dataset_get.
      destruct (Nat.lt_ge_cases (Z.to_nat i) (length dataset)) as [Hlt | Hge].
      - rewrite Forall_forall in Hd. apply Hd. now apply nth_In.
      - rewrite nth_overflow by exact Hge. lia. }
    lia.
Qed.

Lemma array_sum_exact dataset start length :
  Forall (fun x => - 2 ^ 31 <= x < 2 ^ 31) dataset ->
  length <= INT_MAX ->
  array_sum dataset start length = range_sum dataset start (Z.to_nat length).
Proof.
  intros Hd Hl. rewrite array_sum_range. apply wrap_long_small.
  pose proof (range_sum_bound dataset Hd (Z.to_nat length) start) as Hb.
  unfold INT_MAX in Hl.
  assert (Z.of_nat (Z.to_nat length) <= 2 ^ 31) by lia.
  nia.
Qed.

Lemma cb_array_sum_clock_free ts te dataset start length :
  sum (cb_array_sum ts te dataset start length) = array_sum dataset start length.
Proof. reflexivity. Qed.



Lemma add_slices_total dataset l : forall acc,
  wrap_long (add_slices dataset l acc)
  = wrap_long (acc + slices_total dataset l).
Proof.
  unfold add_slices.
  induction l as [|s l IH]; intros acc; cbn [fold_left slices_total].
  - f_equal. lia.
  - rewrite IH. unfold long_add. rewrite wrap_long_add_l, array_sum_range.
    rewrite Z.add_assoc. rewrite <- (wrap_long_add_l (acc + _)).
    rewrite wrap_long_add_r. rewrite wrap_long_add_l. reflexivity.
Qed.

Lemma add_slices_wrapped dataset l : forall acc,
  wrap_long acc = acc ->
  wrap_long (add_slices dataset l acc) = add_slices dataset l acc.
Proof.
  unfold add_slices.
  induction l as [|s l IH]; intros acc Hacc; cbn [fold_left].
  - exact Hacc.
  - apply IH. unfold long_add. apply wrap_long_idem.
Qed.

Lemma slices_total_perm dataset l l' :
  Permutation l l' -> slices_total dataset l = slices_total dataset l'.
Proof.
  induction 1; cbn [slices_total]; lia.
Qed.

Lemma slices_total_chain dataset : forall l from,
  chained from l ->
  slices_total dataset l
  = range_sum dataset from (Z.to_nat (chain_end from l - from)).
Proof.
  induction l as [|s l IH]; intros from H; cbn [slices_total chain_end].
  - now rewrite Z.sub_diag.
  - destruct H as (Hs & Hlen & Hrest).
    assert (Hge : sl_end s <= chain_end (sl_end s) l).
    { clear -Hrest. revert Hrest. generalize (sl_end s).
      induction l as [|t l IH]; intros z Hc; cbn [chain_end].
      - lia.
      - destruct Hc as (Ht & Hl & Hr). specialize (IH _ Hr).
        unfold sl_end in *. lia. }
    rewrite (IH _ Hrest).
    unfold sl_end in *. subst from.
    replace (Z.to_nat (chain_end (sl_start s + sl_length s) l - sl_start s))
      with (Z.to_nat (sl_length s)
            + Z.to_nat (chain_end (sl_start s + sl_length s) l
                        - (sl_start s + sl_length s)))%nat by lia.
    rewrite range_sum_app. rewrite Z2Nat.id by lia. reflexivity.
Qed.

End WorkerFacts.

(** ** The slice partition *)

Module PartitionFacts.
Import Partition PartitionSpec.

Lemma distribute_length b r : forall todo i off,
  length (distribute b r todo i off) = todo.
Proof.
  induction todo as [|todo IH]; intros i off; cbn [distribute length].
  - reflexivity.
  - now rewrite IH.
Qed.

Lemma chunk_len_nonneg b r i : 0 <= b -> 0 <= chunk_len b r i.
Proof. unfold chunk_len. destruct (i <? r); lia. Qed.

Lemma distribute_chained b r : 0 <= b -> forall todo i off,
  chained off (distribute b r todo i off).
Proof.
  intros Hb. induction todo as [|todo IH]; intros i off; cbn [distribute chained].
  - exact I.
  - repeat split.
    + cbn. now apply chunk_len_nonneg.
    + apply IH.
Qed.

Lemma distribute_chain_end b r : forall todo i off,
  0 <= i ->
  chain_end off (distribute b r todo i off)
  = off + Z.of_nat todo * b + Z.max 0 (Z.min (i + Z.of_nat todo) r - i).
Proof.
  induction todo as [|todo IH]; intros i off Hi; cbn [distribute chain_end].
  - lia.
  - unfold sl_end. cbn [sl_start sl_length].
    rewrite IH by lia. unfold chunk_len.
    destruct (Z.ltb_spec i r); lia.
Qed.

Lemma distribute_nth b r : forall todo i off k s,
  nth_error (distribute b r todo i off) k = Some s ->
  sl_length s = chunk_len b r (i + Z.of_nat k).
Proof.
  induction todo as [|todo IH]; intros i off k s H; cbn [distribute] in H.
  - destruct k; discriminate.
  - destruct k as [|k]; cbn [nth_error] in H.
    + injection H as <-. cbn. f_equal. lia.
    + rewrite (IH _ _ _ _ H). f_equal. lia.
Qed.

(** Facts about any chain of slices. *)

Lemma chain_end_ge : forall l from, chained from l -> from <= chain_end from l.
Proof.
  induction l as [|s l IH]; intros from H; cbn [chain_end].
  - lia.
  - destruct H as (Hs & Hl & Hr). specialize (IH _ Hr). unfold sl_end in *. lia.
Qed.

Lemma chained_cover : forall l from j,
  chained from l ->
  (from <= j < chain_end from l <-> exists s, In s l /\ in_slice j s).
Proof.
  induction l as [|s l IH]; intros from j H; cbn [chain_end].
  - split; [lia | intros (s & [] & _)].
  - destruct H as (Hs & Hl & Hr).
    pose proof (chain_end_ge _ _ Hr) as Hge.
    specialize (IH (sl_end s) j Hr). unfold in_slice in *. split.
    + intros Hj. destruct (Z.lt_ge_cases j (sl_end s)) as [Hlt | Hge'].
      * exists s. split; [now left | lia].
      * destruct IH as [IH _]. destruct IH as (t & Ht & Hin); [lia|].
        exists t. split; [now right | exact Hin].
    + intros (t & [<- | Ht] & Hin).
      * unfold sl_end in *. lia.
      * destruct IH as [_ IH]. assert (sl_end s <= j < chain_end (sl_end s) l)
          by (apply IH; now exists t).
        unfold sl_end in *. lia.
Qed.

Lemma chained_later_starts : forall l from k s,
  chained from l -> nth_error l k = Some s -> from <= sl_start s.
Proof.
  induction l as [|t l IH]; intros from k s H Hk.
  - destruct k; discriminate.
  - destruct H as (Ht & Hl & Hr). destruct k as [|k]; cbn [nth_error] in Hk.
    + injection Hk as <-. lia.
    + specialize (IH _ _ _ Hr Hk). unfold sl_end in *. lia.
Qed.

Lemma chained_ordered : forall l from a b sa sb,
  chained from l ->
  nth_error l a = Some sa -> nth_error l b = Some sb -> (a < b)%nat ->
  sl_end sa <= sl_start sb.
Proof.
  induction l as [|t l IH]; intros from a b sa sb H Ha Hb Hab.
  - destruct a; discriminate.
  - destruct H as (Ht & Hl & Hr).
    destruct b as [|b]; [lia|]. cbn [nth_error] in Hb.
    destruct a as [|a]; cbn [nth_error] in Ha.
    + injection Ha as <-. eapply chained_later_starts; eauto.
    + eapply IH; eauto. lia.
Qed.

Lemma chained_disjoint l from a b sa sb j :
  chained from l ->
  nth_error l a = Some sa -> nth_error l b = Some sb -> a <> b ->
  ~ (in_slice j sa /\ in_slice j sb).
Proof.
  intros H Ha Hb Hab [Hja Hjb]. unfold in_slice in *.
  destruct (Nat.lt_total a b) as [Hlt | [Heq | Hgt]]; [| contradiction |].
  - pose proof (chained_ordered _ _ _ _ _ _ H Ha Hb Hlt). lia.
  - pose proof (chained_ordered _ _ _ _ _ _ H Hb Ha Hgt). lia.
Qed.

Lemma partition_chained array_length n :
  0 <= array_length -> 1 <= n -> chained 0 (partition array_length n).
Proof.
  intros Ha Hn. unfold partition. apply distribute_chained.
  rewrite Z.quot_div_nonneg by lia. apply Z.div_pos; lia.
Qed.

Lemma partition_chain_end array_length n :
  0 <= array_length -> 1 <= n ->
  chain_end 0 (partition array_length n) = array_length.
Proof.
  intros Ha Hn. unfold partition. rewrite distribute_chain_end by lia.
  rewrite Z2Nat.id by lia.
  rewrite Z.quot_div_nonneg, Z.rem_mod_nonneg by lia.
  pose proof (Z.mod_pos_bound array_length n ltac:(lia)).
  pose proof (Z.div_mod array_length n ltac:(lia)). lia.
Qed.

Lemma ceil_div_floor a n :
  0 <= a -> 1 <= n ->
  ceil_div a n = floor_div a n + (if a mod n =? 0 then 0 else 1).
Proof.
  intros Ha Hn. unfold ceil_div, floor_div.
  pose proof (Z.mod_pos_bound a n ltac:(lia)) as Hm.
  pose proof (Z.div_mod a n ltac:(lia)) as Hd.
  destruct (Z.eqb_spec (a mod n) 0) as [E | E].
  - replace (a + n - 1) with ((n - 1) + (a / n) * n) by lia.
    rewrite Z.div_add by lia. rewrite Z.div_small; lia.
  - replace (a + n - 1) with ((a mod n - 1) + (a / n + 1) * n) by lia.
    rewrite Z.div_add by lia. rewrite Z.div_small; lia.
Qed.

(** C2 -- Partition coverage.  For [array_length >= 1] and [1 <= n <= 256]
    with [n <= array_length], the [n] slices laid out by the distribution
    loop of the coordinators are contiguous (each starts where its
    predecessor ends, the first at 0), pairwise non-overlapping, cover
    exactly the indices of [[0, array_length)], and slice [i] has length
    [ceil (array_length / n)] when [i < array_length mod n] and
    [floor (array_length / n)] otherwise. *)
Theorem partition_coverage (array_length n : Z) :
  1 <= array_length -> 1 <= n <= 256 -> n <= array_length ->
  let P := partition array_length n in
  length P = Z.to_nat n
  /\ chained 0 P
  /\ chain_end 0 P = array_length
  /\ (forall j, 0 <= j < array_length <-> exists s, In s P /\ in_slice j s)
  /\ (forall a b sa sb j,
        nth_error P a = Some sa -> nth_error P b = Some sb -> a <> b ->
        ~ (in_slice j sa /\ in_slice j sb))
  /\ (forall i s, nth_error P i = Some s ->
        sl_length s = if Z.of_nat i <? array_length mod n
                      then ceil_div array_length n
                      else floor_div array_length n).
Proof.
  intros Ha Hn Hle P.
  assert (Hc : chained 0 P) by (apply partition_chained; lia).
  assert (He : chain_end 0 P = array_length) by (apply partition_chain_end; lia).
  split; [apply distribute_length|].
  split; [exact Hc|]. split; [exact He|].
  split; [intros j; rewrite <- He; now apply chained_cover|].
  split; [intros a b sa sb j Hsa Hsb Hab; eapply chained_disjoint; eauto|].
  intros i s Hi. unfold P, partition in Hi.
  apply distribute_nth in Hi. rewrite Hi. unfold chunk_len.
  rewrite Z.quot_div_nonneg, Z.rem_mod_nonneg by lia.
  rewrite Z.add_0_l.
  destruct (Z.ltb_spec (Z.of_nat i) (array_length mod n)) as [Hlt | Hge].
  - rewrite ceil_div_floor by lia. unfold floor_div.
    destruct (Z.eqb_spec (array_length mod n) 0); lia.
  - unfold floor_div. lia.
Qed.

Lemma partition_coverage_witness :
  let P := partition 1003 4 in
  length P = 4%nat
  /\ chained 0 P
  /\ chain_end 0 P = 1003
  /\ (forall j, 0 <= j < 1003 <-> exists s, In s P /\ in_slice j s)
  /\ (forall a b sa sb j,
        nth_error P a = Some sa -> nth_error P b = Some sb -> a <> b ->
        ~ (in_slice j sa /\ in_slice j sb))
  /\ (forall i s, nth_error P i = Some s ->
        sl_length s = if Z.of_nat i <? 1003 mod 4
                      then ceil_div 1003 4
                      else floor_div 1003 4).
Proof. apply (partition_coverage 1003 4); lia. Defined.

End PartitionFacts.

(** ** Order facts on binary64 values *)

Module FloatOrder.

Ltac sf_cases :=
  repeat match goal with
  | |- context [Z.compare ?a ?b] => destruct (Z.compare_spec a b)
  | |- context [Pos.compare_cont Eq ?a ?b] =>
      change (Pos.compare_cont Eq a b) with (Pos.compare a b);
      destruct (Pos.compare_spec a b)
  end.

Ltac sf_order :=
  unfold SFleb, SFltb, SFeqb, SFcompare;
  repeat match goal with
  | x : spec_float |- _ => destruct x as [[]|[]| |[] ? ?]
  end;
  cbn; try (intros; (discriminate || reflexivity || congruence));
  sf_cases; cbn; intros; subst; try reflexivity; try discriminate; try lia.

Lemma SFleb_trans x y z :
  SFleb x y = true -> SFleb y z = true -> SFleb x z = true.
Proof. sf_order. Qed.

Lemma SFltb_leb x y : SFltb x y = true -> SFleb x y = true.
Proof. sf_order. Qed.

Lemma SFltb_false_leb x y :
  SFleb x x = true -> SFleb y y = true -> SFltb x y = false -> SFleb y x = true.
Proof. sf_order. Qed.

Lemma SFleb_antisym x y :
  SFleb x y = true -> SFleb y x = true -> SFeqb x y = true.
Proof. sf_order. Qed.

Lemma SFleb_refl_l x y : SFleb x y = true -> SFleb x x = true.
Proof. sf_order. Qed.

Lemma SFleb_refl_r x y : SFleb x y = true -> SFleb y y = true.
Proof. sf_order. Qed.

Lemma SFleb_ltb_false x y : SFleb x y = true -> SFltb y x = false.
Proof. sf_order. Qed.

Lemma SFeqb_refl x : SFleb x x = true -> SFeqb x x = true.
Proof. sf_order. Qed.

Local Open Scope float_scope.

Lemma leb_trans (x y z : float) :
  (x <=? y) = true -> (y <=? z) = true -> (x <=? z) = true.
Proof. rewrite !FloatAxioms.leb_spec. apply SFleb_trans. Qed.

Lemma ltb_leb (x y : float) : (x <? y) = true -> (x <=? y) = true.
Proof. rewrite FloatAxioms.ltb_spec, FloatAxioms.leb_spec. apply SFltb_leb. Qed.

Lemma ltb_false_leb (x y : float) :
  (x <=? x) = true -> (y <=? y) = true -> (x <? y) = false -> (y <=? x) = true.
Proof. rewrite FloatAxioms.ltb_spec, !FloatAxioms.leb_spec. apply SFltb_false_leb. Qed.

Lemma leb_antisym (x y : float) :
  (x <=? y) = true -> (y <=? x) = true -> (x =? y) = true.
Proof. rewrite FloatAxioms.eqb_spec, !FloatAxioms.leb_spec. apply SFleb_antisym. Qed.

Lemma leb_refl_l (x y : float) : (x <=? y) = true -> (x <=? x) = true.
Proof. rewrite !FloatAxioms.leb_spec. apply SFleb_refl_l. Qed.

Lemma leb_refl_r (x y : float) : (x <=? y) = true -> (y <=? y) = true.
Proof. rewrite !FloatAxioms.leb_spec. apply SFleb_refl_r. Qed.

Lemma leb_ltb_false (x y : float) : (x <=? y) = true -> (y <? x) = false.
Proof. rewrite FloatAxioms.ltb_spec, FloatAxioms.leb_spec. apply SFleb_ltb_false. Qed.

Lemma eqb_refl (x : float) : (x <=? x) = true -> (x =? x) = true.
Proof. rewrite FloatAxioms.eqb_spec, FloatAxioms.leb_spec. apply SFeqb_refl. Qed.

End FloatOrder.

(** ** The shared accumulator of the thread mode *)

Module AccumulatorFacts.
Import Worker AccumulatorSpec FloatOrder.
Local Open Scope float_scope.

Lemma fold_locked_update_sum : forall l sh,
  wrap_long (shared_sum (fold_left locked_update l sh))
  = wrap_long (shared_sum sh + partials_total l)%Z.
Proof.
  induction l as [|r l IH]; intros sh; cbn [fold_left partials_total].
  - f_equal. lia.
  - rewrite IH. cbn [locked_update shared_sum]. unfold long_add.
    rewrite wrap_long_add_l. f_equal. lia.
Qed.

Lemma fold_locked_update_wrapped : forall l sh,
  wrap_long (shared_sum sh) = shared_sum sh ->
  wrap_long (shared_sum (fold_left locked_update l sh))
  = shared_sum (fold_left locked_update l sh).
Proof.
  induction l as [|r l IH]; intros sh H; cbn [fold_left].
  - exact H.
  - apply IH. cbn [locked_update shared_sum]. apply wrap_long_idem.
Qed.

Lemma accumulate_sum l : shared_sum (accumulate l) = wrap_long (partials_total l).
Proof.
  unfold accumulate.
  rewrite <- fold_locked_update_wrapped by reflexivity.
  rewrite fold_locked_update_sum. reflexivity.
Qed.

Lemma partials_total_perm l l' :
  Permutation l l' -> partials_total l = partials_total l'.
Proof. induction 1; cbn [partials_total]; lia. Qed.

Lemma stamps_inv_first r :
  clock_ok r -> stamps_inv [r] (locked_update shared_init r).
Proof.
  intros [Hs He]. unfold stamps_inv, locked_update, shared_init.
  cbn [earliest_start latest_end].
  replace (-1 <? 0) with true by reflexivity. cbn [orb].
  assert (Hrr : (t_end r <=? t_end r) = true) by (eapply leb_refl_r; eauto).
  split; [split|].
  - exists r. split; [now left | reflexivity].
  - intros r' [<- | []]. eapply leb_refl_r; eauto.
  - destruct (0 <? t_end r) eqn:E.
    + split; [exact He|]. split.
      * intros r' [<- | []]. exact Hrr.
      * right. exists r. split; [now left | reflexivity].
    + split; [reflexivity|]. split.
      * intros r' [<- | []]. apply ltb_false_leb; auto.
      * now left.
Qed.

Lemma stamps_inv_step seen sh r :
  Forall clock_ok seen -> stamps_inv seen sh -> clock_ok r ->
  stamps_inv (seen ++ [r]) (locked_update sh r).
Proof.
  intros Hok [[(r0 & Hin0 & Heq0) Hmin] (Hle0 & Hmax & Hwho)] [Hs He].
  assert (Hes0 : (0 <=? earliest_start sh) = true).
  { rewrite Heq0. rewrite Forall_forall in Hok. now destruct (Hok _ Hin0). }
  assert (Hee : (earliest_start sh <=? earliest_start sh) = true)
    by (eapply leb_refl_r; eauto).
  assert (Hss : (t_start r <=? t_start r) = true) by (eapply leb_refl_r; eauto).
  assert (Hte : (t_end r <=? t_end r) = true) by (eapply leb_refl_r; eauto).
  assert (Hll : (latest_end sh <=? latest_end sh) = true)
    by (eapply leb_refl_r; eauto).
  unfold stamps_inv, locked_update. cbn [earliest_start latest_end].
  rewrite (leb_ltb_false _ _ Hes0). cbn [orb].
  split; [split|].
  - destruct (t_start r <? earliest_start sh).
    + exists r. split; [apply in_or_app; right; now left | reflexivity].
    + exists r0. split; [apply in_or_app; now left | exact Heq0].
  - intros r' Hin. apply in_app_or in Hin.
    destruct (t_start r <? earliest_start sh) eqn:E.
    + destruct Hin as [Hin | [<- | []]]; [|exact Hss].
      eapply leb_trans; [apply ltb_leb; exact E | now apply Hmin].
    + destruct Hin as [Hin | [<- | []]]; [now apply Hmin|].
      apply ltb_false_leb; auto.
  - destruct (latest_end sh <? t_end r) eqn:E.
    + split; [exact He|]. split.
      * intros r' Hin. apply in_app_or in Hin.
        destruct Hin as [Hin | [<- | []]]; [|exact Hte].
        eapply leb_trans; [now apply Hmax | apply ltb_leb; exact E].
      * right. exists r. split; [apply in_or_app; right; now left | reflexivity].
    + split; [exact Hle0|]. split.
      * intros r' Hin. apply in_app_or in Hin.
        destruct Hin as [Hin | [<- | []]]; [now apply Hmax|].
        apply ltb_false_leb; auto.
      * destruct Hwho as [Hz | (r1 & Hin1 & Heq1)]; [now left|].
        right. exists r1. split; [apply in_or_app; now left | exact Heq1].
Qed.

Lemma accumulate_stamps : forall l,
  l <> [] -> Forall clock_ok l -> stamps_inv l (accumulate l).
Proof.
  unfold accumulate.
  induction l as [|r l IH] using rev_ind; intros Hne Hok; [contradiction|].
  rewrite fold_left_app. cbn [fold_left].
  apply Forall_app in Hok. destruct Hok as [Hokl Hokr].
  inversion Hokr as [|? ? Hr _]; subst.
  destruct l as [|r0 l0].
  - cbn [fold_left]. now apply stamps_inv_first.
  - apply stamps_inv_step; auto. apply IH; [discriminate | exact Hokl].
Qed.

Lemma stamps_inv_extremes l sh :
  l <> [] -> Forall clock_ok l -> stamps_inv l sh ->
  is_earliest (earliest_start sh) l /\ is_latest (latest_end sh) l.
Proof.
  intros Hne Hok [[(r0 & Hin0 & Heq0) Hmin] (Hle0 & Hmax & Hwho)].
  rewrite Forall_forall in Hok.
  split; split; auto.
  - exists r0. split; [exact Hin0|]. rewrite Heq0. apply eqb_refl.
    destruct (Hok _ Hin0) as [H0 _]. eapply leb_refl_r; eauto.
  - destruct Hwho as [Hz | (r1 & Hin1 & Heq1)].
    + destruct l as [|r l]; [contradiction|].
      exists r. split; [now left|].
      apply leb_antisym.
      * rewrite Hz. now destruct (Hok r (or_introl eq_refl)).
      * apply Hmax. now left.
    + exists r1. split; [exact Hin1|]. rewrite Heq1. apply eqb_refl.
      destruct (Hok _ Hin1) as [_ H1]. eapply leb_refl_r; eauto.
Qed.

(** C3 (amended) -- Thread critical-section result.  For every non-empty
    collection of thread results whose clock readings all succeeded
    (non-negative timestamps), and for every order in which the threads
    take the mutex, the joined accumulator holds the minimum of the start
    timestamps, the maximum of the end timestamps, and the [long int]
    total of the partial sums. *)
Theorem accumulate_joined (l order : list thread_result) :
  l <> [] -> Forall clock_ok l -> Permutation l order ->
  is_earliest (earliest_start (accumulate order)) l
  /\ is_latest (latest_end (accumulate order)) l
  /\ shared_sum (accumulate order) = wrap_long (partials_total l).
Proof.
  intros Hne Hok Hperm.
  assert (Hne' : order <> []).
  { intros ->. apply Permutation_sym, Permutation_nil in Hperm. contradiction. }
  assert (Hok' : Forall clock_ok order).
  { rewrite Forall_forall in *. intros r Hr. apply Hok.
    eapply Permutation_in; [apply Permutation_sym; exact Hperm | exact Hr]. }
  destruct (stamps_inv_extremes order _ Hne' Hok' (accumulate_stamps _ Hne' Hok'))
    as [[(r0 & Hin0 & He0) Hmin] [(r1 & Hin1 & He1) Hmax]].
  assert (Hback : forall r, In r order -> In r l).
  { intros r Hr. eapply Permutation_in; [apply Permutation_sym; exact Hperm | exact Hr]. }
  assert (Hfwd : forall r, In r l -> In r order).
  { intros r Hr. eapply Permutation_in; [exact Hperm | exact Hr]. }
  split; [|split].
  - split; [exists r0; auto | intros r Hr; apply Hmin; auto].
  - split; [exists r1; auto | intros r Hr; apply Hmax; auto].
  - rewrite accumulate_sum. f_equal. symmetry. now apply partials_total_perm.
Qed.

Lemma accumulate_joined_witness :
  is_earliest (earliest_start (accumulate (rev sample_run))) sample_run
  /\ is_latest (latest_end (accumulate (rev sample_run))) sample_run
  /\ shared_sum (accumulate (rev sample_run))
     = wrap_long (partials_total sample_run).
Proof.
  apply (accumulate_joined sample_run (rev sample_run)).
  - discriminate.
  - repeat constructor.
  - apply Permutation_rev.
Defined.

(** The failed clock makes the outcome depend on the order of the updates. *)
Example accumulate_order_matters :
  earliest_start (accumulate failed_clock_run) = 5
  /\ earliest_start (accumulate (rev failed_clock_run)) = -1.
Proof. split; reflexivity. Qed.

(** C3 (as stated) fails when a clock reading failed: [cb_time_now] then
    returns [-1.0], the very value that marks [earliest_start] as unset, so
    the next thread overwrites it and the result depends on the order. *)
Lemma accumulate_sentinel_counterexample :
  ~ (forall l order : list thread_result,
       l <> [] -> Permutation l order ->
       is_earliest (earliest_start (accumulate order)) l
       /\ is_latest (latest_end (accumulate order)) l
       /\ shared_sum (accumulate order) = wrap_long (partials_total l)).
Proof.
  intros H.
  destruct (H failed_clock_run failed_clock_run) as [[_ Hmin] _].
  - discriminate.
  - apply Permutation_refl.
  - specialize (Hmin _ (or_introl eq_refl)).
    vm_compute in Hmin. discriminate.
Qed.

End AccumulatorFacts.

(** ** Statistics *)

Module StatsFacts.
Import Stats StatsSpec FloatOrder.

(** Bounds kept by the first pass, for any number type whose [<] is the
    strict part of a total preorder on the admissible values. *)
Section MinMax.
Context {T : Type}.
Variable t_zero : T.
Variable t_add : T -> T -> T.
Variable t_ltb : T -> T -> bool.
Variable le : T -> T -> Prop.
Variable ok : T -> Prop.
Hypothesis le_refl : forall x, ok x -> le x x.
Hypothesis le_trans : forall x y z, le x y -> le y z -> le x z.
Hypothesis ltb_le : forall x y, t_ltb x y = true -> le x y.
Hypothesis nlt_le : forall x y, ok x -> ok y -> t_ltb x y = false -> le y x.

End MinMax.

Local Open Scope Q_scope.





Local Open Scope Z_scope.

Lemma cb_stats_compute_ok (ts : list float) (count : Z) (out : cb_bench_stats_t) :
  1 <= count ->
  exists st,
    cb_stats_compute (Some ts) count (Some out) = (CB_OK, Some st)
    /\ min_sec st = p_min (first_pass 0%float PrimFloat.add PrimFloat.ltb ts count)
    /\ max_sec st = p_max (first_pass 0%float PrimFloat.add PrimFloat.ltb ts count)
    /\ mean_sec st
       = (p_sum (first_pass 0%float PrimFloat.add PrimFloat.ltb ts count)
          / double_of_int count)%float
    /\ stats_iterations st = count
    /\ (count = 1 -> stddev_sec st = 0%float).
Proof.
  intros Hc. unfold cb_stats_compute.
  destruct (Z.ltb_spec count 1) as [Hlt | _]; [lia|].
  eexists. split; [reflexivity|]. cbn [min_sec max_sec mean_sec stats_iterations stddev_sec].
  repeat split. intros ->. reflexivity.
Qed.

(** C6 -- [cb_stats_compute] returns [CB_ERR_ARGS] for every sample
    sequence with [count < 1], and for every single-sample sequence
    ([count == 1]) it returns [CB_OK] with a standard deviation that is the
    double [0.0], hence not NaN. *)
Theorem stats_empty_and_single :
  (forall times count stats_out,
     count < 1 -> fst (cb_stats_compute times count stats_out) = CB_ERR_ARGS)
  /\ (forall ts out,
        exists st,
          cb_stats_compute (Some ts) 1 (Some out) = (CB_OK, Some st)
          /\ stddev_sec st = 0%float
          /\ PrimFloat.is_nan (stddev_sec st) = false).
Proof.
  split.
  - intros times count stats_out Hc. unfold cb_stats_compute.
    destruct times, stats_out; try reflexivity.
    destruct (Z.ltb_spec count 1); [reflexivity | lia].
  - intros ts out.
    destruct (cb_stats_compute_ok ts 1 out ltac:(lia)) as (st & E & _ & _ & _ & _ & Hsd).
    exists st. split; [exact E|]. rewrite (Hsd eq_refl). split; reflexivity.
Qed.

(** The worked example of the specification: for the samples 1.0, 2.0, 3.0
    the mean is 2.0 and the sample standard deviation is 1.0. *)
Example stats_one_two_three :
  cb_stats_compute (Some [1; 2; 3]%float) 3 (Some (mk_stats 0 0 0 0 0))
  = (CB_OK, Some (mk_stats 1 3 2 1 3)).
Proof. reflexivity. Qed.

Lemma stats_empty_and_single_witness :
  fst (cb_stats_compute (Some []) 0 (Some (mk_stats 0 0 0 0 0))) = CB_ERR_ARGS.
Proof.
  apply (proj1 stats_empty_and_single (Some []) 0 (Some (mk_stats 0 0 0 0 0))).
  lia.
Defined.




End StatsFacts.

(** ** The blocking pipe read *)

Module PipeFacts.
Import PipeSpec.

Lemma unix_stream_after_chunk b bs rest n :
  unix_stream (match skipn n (b :: bs) with
               | [] => rest
               | b' :: bs' => PlatformUnix.Chunk b' bs' :: rest
               end)
  = skipn n (b :: bs) ++ unix_stream rest.
Proof. destruct (skipn n (b :: bs)); reflexivity. Qed.

Lemma unix_pipe_read_loop_spec : forall fuel p remaining buf,
  (length p + remaining <= fuel)%nat ->
  exists p',
    PlatformUnix.pipe_read_loop fuel p remaining buf
    = (if (remaining <=? length (unix_stream p))%nat
       then Some (CB_OK, buf ++ firstn remaining (unix_stream p), p')
       else Some (CB_ERR_PIPE, buf ++ unix_stream p, p'))
    /\ ((remaining <= length (unix_stream p))%nat ->
        unix_stream p' = skipn remaining (unix_stream p)).
Proof.
  induction fuel as [|fuel IH]; intros p remaining buf Hfuel.
  - assert (remaining = O) by lia. subst. exists p. cbn.
    now rewrite app_nil_r.
  - destruct remaining as [|r].
    + exists p. cbn. now rewrite app_nil_r.
    + cbn [PlatformUnix.pipe_read_loop].
      destruct p as [|[b bs | | ] rest]; cbn [PlatformUnix.sys_read unix_stream].
      * exists []. cbn. rewrite app_nil_r. split; [reflexivity | lia].
      * set (got := firstn (S r) (b :: bs)).
        set (p' := match skipn (S r) (b :: bs) with
                   | [] => rest
                   | b' :: bs' => PlatformUnix.Chunk b' bs' :: rest
                   end).
        assert (Hsplit : b :: bs = got ++ skipn (S r) (b :: bs))
          by (symmetry; apply firstn_skipn).
        assert (Hgot : length got = Nat.min (S r) (length (b :: bs)))
          by apply length_firstn.
        assert (Hstream : unix_stream p' = skipn (S r) (b :: bs) ++ unix_stream rest)
          by apply unix_stream_after_chunk.
        assert (Hskip : length (skipn (S r) (b :: bs)) = (length (b :: bs) - S r)%nat)
          by apply length_skipn.
        assert (Hp' : (length p' + (S r - length got) <= fuel)%nat).
        { unfold p'. cbn [length] in *.
          destruct (skipn (S r) (b :: bs)) eqn:E; cbn [length] in *; lia. }
        destruct (IH p' (S r - length got)%nat (buf ++ got) Hp') as (q & Hq & Hrest).
        exists q. rewrite Hq.
        replace ((b :: bs) ++ unix_stream rest)
          with (got ++ unix_stream p')
          by (rewrite Hstream, app_assoc, <- Hsplit; reflexivity).
        rewrite length_app. split.
        -- destruct (Nat.leb_spec (S r - length got) (length (unix_stream p')));
             destruct (Nat.leb_spec (S r) (length got + length (unix_stream p')));
             try lia.
           ++ rewrite firstn_app, <- app_assoc.
              rewrite (firstn_all2 (n := S r) got) by lia. reflexivity.
           ++ now rewrite <- app_assoc.
        -- intros Hle. rewrite Hrest by lia.
           rewrite skipn_app. rewrite (skipn_all2 (n := S r) got) by lia.
           reflexivity.
      * cbn [length] in Hfuel.
        destruct (IH rest (S r) buf ltac:(lia)) as (q & Hq).
        exists q. exact Hq.
      * exists rest. cbn. rewrite app_nil_r. split; [reflexivity | lia].
Qed.

Lemma win_stream_after_transfer bs rest n :
  win_stream (match skipn n bs with
              | [] => rest
              | more => PlatformWin.Transfer more :: rest
              end)
  = skipn n bs ++ win_stream rest.
Proof. destruct (skipn n bs); reflexivity. Qed.

Lemma win_pipe_read_loop_spec : forall fuel p remaining buf,
  (N.to_nat remaining <= fuel)%nat ->
  exists p',
    PlatformWin.pipe_read_loop fuel p remaining buf
    = (if (N.to_nat remaining <=? length (win_stream p))%nat
       then Some (CB_OK, buf ++ firstn (N.to_nat remaining) (win_stream p), p')
       else Some (CB_ERR_PIPE, buf ++ win_stream p, p'))
    /\ ((N.to_nat remaining <= length (win_stream p))%nat ->
        win_stream p' = skipn (N.to_nat remaining) (win_stream p)).
Proof.
  induction fuel as [|fuel IH]; intros p remaining buf Hfuel.
  - assert (remaining = 0%N) by lia. subst. exists p. cbn.
    now rewrite app_nil_r.
  - cbn [PlatformWin.pipe_read_loop].
    destruct (N.eqb_spec remaining 0) as [-> | Hpos].
    + exists p. cbn. now rewrite app_nil_r.
    + set (to_read := if (PlatformWin.DWORD_MAX <? remaining)%N
                      then PlatformWin.DWORD_MAX else remaining).
      assert (Hto : (1 <= N.to_nat to_read <= N.to_nat remaining)%nat).
      { unfold to_read, PlatformWin.DWORD_MAX.
        destruct (N.ltb_spec 4294967295 remaining); lia. }
      destruct (Nat.leb_spec (N.to_nat remaining) 0) as [Hz | _]; [lia|].
      destruct p as [|[bs | ] rest]; cbn [PlatformWin.ReadFile win_stream].
      * exists []. destruct (N.to_nat remaining); [lia|]. cbn.
        rewrite app_nil_r. split; [reflexivity | lia].
      * destruct bs as [|b bs].
        { exists rest. destruct (N.to_nat to_read); cbn [firstn skipn length];
            rewrite N.eqb_refl; destruct (N.to_nat remaining); try lia;
            cbn; rewrite app_nil_r; (split; [reflexivity | lia]). }
        set (data := b :: bs).
        set (got := firstn (N.to_nat to_read) data).
        set (p' := match skipn (N.to_nat to_read) data with
                   | [] => rest
                   | more => PlatformWin.Transfer more :: rest
                   end).
        assert (Hsplit : data = got ++ skipn (N.to_nat to_read) data)
          by (symmetry; apply firstn_skipn).
        assert (Hgot : length got = Nat.min (N.to_nat to_read) (length data))
          by apply length_firstn.
        assert (Hstream : win_stream p'
                          = skipn (N.to_nat to_read) data ++ win_stream rest)
          by apply win_stream_after_transfer.
        assert (Hgot1 : (1 <= length got)%nat)
          by (rewrite Hgot; unfold data; cbn [length]; lia).
        destruct (N.eqb_spec (N.of_nat (length got)) 0) as [Hz | _]; [lia|].
        destruct (IH p' (remaining - N.of_nat (length got))%N (buf ++ got)
                    ltac:(lia)) as (q & Hq & Hrest).
        exists q. rewrite Hq.
        replace (data ++ win_stream rest) with (got ++ win_stream p')
          by (rewrite Hstream, app_assoc, <- Hsplit; reflexivity).
        rewrite length_app.
        replace (N.to_nat (remaining - N.of_nat (length got)))
          with (N.to_nat remaining - length got)%nat in * by lia.
        split.
        -- destruct (Nat.leb_spec (N.to_nat remaining - length got)
                       (length (win_stream p')));
             destruct (Nat.leb_spec (N.to_nat remaining)
                         (length got + length (win_stream p')));
             try lia.
           ++ rewrite firstn_app, <- app_assoc.
              rewrite (firstn_all2 (n := N.to_nat remaining) got) by lia.
              reflexivity.
           ++ now rewrite <- app_assoc.
        -- intros Hle. rewrite Hrest by lia.
           rewrite skipn_app.
           rewrite (skipn_all2 (n := N.to_nat remaining) got) by lia.
           reflexivity.
      * exists rest. destruct (N.to_nat remaining); [lia|]. cbn.
        rewrite app_nil_r. split; [reflexivity | lia].
Qed.

(** C5 -- [cb_pipe_read] always returns, and it returns [CB_OK] only after
    storing exactly [size] bytes: the first [size] bytes the pipe delivers,
    the bytes after them staying in the pipe.  When the pipe is closed or a
    read fails before [size] bytes arrived it returns [CB_ERR_PIPE], having
    stored only the short prefix.  Both on Unix (where an interrupted
    [read] is retried) and on Windows. *)
Theorem pipe_read_exact :
  (forall (p : PlatformUnix.pipe_t) (size : nat),
     exists err data p',
       PlatformUnix.cb_pipe_read p size = Some (err, data, p')
       /\ (err = CB_OK \/ err = CB_ERR_PIPE)
       /\ (err = CB_OK ->
             length data = size
             /\ data = firstn size (unix_stream p)
             /\ unix_stream p' = skipn size (unix_stream p))
       /\ ((length (unix_stream p) < size)%nat ->
             err = CB_ERR_PIPE /\ data = unix_stream p))
  /\ (forall (p : PlatformWin.pipe_t) (size : N),
        exists err data p',
          PlatformWin.cb_pipe_read p size = Some (err, data, p')
          /\ (err = CB_OK \/ err = CB_ERR_PIPE)
          /\ (err = CB_OK ->
                length data = N.to_nat size
                /\ data = firstn (N.to_nat size) (win_stream p)
                /\ win_stream p' = skipn (N.to_nat size) (win_stream p))
          /\ ((length (win_stream p) < N.to_nat size)%nat ->
                err = CB_ERR_PIPE /\ data = win_stream p)).
Proof.
  split.
  - intros p size. unfold PlatformUnix.cb_pipe_read.
    destruct (unix_pipe_read_loop_spec (length p + size) p size []
                (Nat.le_refl _)) as (p' & E & Hrest).
    destruct (Nat.leb_spec size (length (unix_stream p))) as [Hle | Hgt].
    + exists CB_OK, (firstn size (unix_stream p)), p'.
      split; [exact E|]. split; [now left|]. split.
      * intros _. split; [apply firstn_length_le; exact Hle|].
        split; [reflexivity | now apply Hrest].
      * lia.
    + exists CB_ERR_PIPE, (unix_stream p), p'.
      split; [exact E|]. split; [now right|]. split.
      * discriminate.
      * intros _. split; reflexivity.
  - intros p size. unfold PlatformWin.cb_pipe_read.
    destruct (win_pipe_read_loop_spec (N.to_nat size) p size []
                (Nat.le_refl _)) as (p' & E & Hrest).
    destruct (Nat.leb_spec (N.to_nat size) (length (win_stream p)))
      as [Hle | Hgt].
    + exists CB_OK, (firstn (N.to_nat size) (win_stream p)), p'.
      split; [exact E|]. split; [now left|]. split.
      * intros _. split; [apply firstn_length_le; exact Hle|].
        split; [reflexivity | now apply Hrest].
      * lia.
    + exists CB_ERR_PIPE, (win_stream p), p'.
      split; [exact E|]. split; [now right|]. split.
      * discriminate.
      * intros _. split; reflexivity.
Qed.

Lemma pipe_read_exact_witness :
  (exists err data p',
     PlatformUnix.cb_pipe_read PipeSpec.broken_unix_pipe 3
     = Some (err, data, p')
     /\ err = CB_ERR_PIPE /\ data = [Byte.x01; Byte.x02])
  /\ (exists err data p',
        PlatformWin.cb_pipe_read PipeSpec.broken_win_pipe 3
        = Some (err, data, p')
        /\ err = CB_ERR_PIPE /\ data = [Byte.x01; Byte.x02]).
Proof.
  split.
  - destruct (proj1 pipe_read_exact PipeSpec.broken_unix_pipe 3%nat)
      as (err & data & p' & E & _ & _ & Hshort).
    destruct Hshort as [He Hd]; [cbn; lia|].
    exists err, data, p'. split; [exact E|]. split; [exact He | exact Hd].
  - destruct (proj2 pipe_read_exact PipeSpec.broken_win_pipe 3%N)
      as (err & data & p' & E & _ & _ & Hshort).
    destruct Hshort as [He Hd]; [cbn; lia|].
    exists err, data, p'. split; [exact E|]. split; [exact He | exact Hd].
Defined.

End PipeFacts.

(** ** The coordinators: argument checks *)

Module ArgumentFacts.
Import Platform Stats.

(** C10 -- A NULL dataset, configuration or report pointer makes each of
    [cb_bench_single_run], [cb_bench_process_run] (both platforms) and
    [cb_bench_thread_run] return [CB_ERR_ARGS] with the report left as it
    was and no platform call made; a NULL [times] or [stats_out] makes
    [cb_stats_compute] return [CB_ERR_ARGS] with the statistics left as
    they were. *)
Theorem null_arguments_rejected :
  (forall w dataset config report,
     dataset = None \/ config = None \/ report = None ->
     BenchSingle.cb_bench_single_run w dataset config report
     = (CB_ERR_ARGS, report))
  /\ (forall w dataset config report,
        dataset = None \/ config = None \/ report = None ->
        BenchProcessUnix.cb_bench_process_run w dataset config report
        = (CB_ERR_ARGS, report, []))
  /\ (forall w dataset config report,
        dataset = None \/ config = None \/ report = None ->
        BenchProcessWin.cb_bench_process_run w dataset config report
        = (CB_ERR_ARGS, report, []))
  /\ (forall w dataset config report,
        dataset = None \/ config = None \/ report = None ->
        BenchThread.cb_bench_thread_run w dataset config report
        = (CB_ERR_ARGS, report, []))
  /\ (forall times count stats_out,
        times = None \/ stats_out = None ->
        cb_stats_compute times count stats_out = (CB_ERR_ARGS, stats_out)).
Proof.
  repeat split.
  - intros w [d|] [c|] [r|] H; try reflexivity.
    destruct H as [H | [H | H]]; discriminate.
  - intros w [d|] [c|] [r|] H; try reflexivity.
    destruct H as [H | [H | H]]; discriminate.
  - intros w [d|] [c|] [r|] H; try reflexivity.
    destruct H as [H | [H | H]]; discriminate.
  - intros w [d|] [c|] [r|] H; try reflexivity.
    destruct H as [H | [H | H]]; discriminate.
  - intros [ts|] count [st|] H; try reflexivity.
    destruct H as [H | H]; discriminate.
Qed.

Lemma null_arguments_rejected_witness :
  BenchSingle.cb_bench_single_run Samples.calm_world None
    (Some Samples.sample_config) (Some Samples.blank_report)
  = (CB_ERR_ARGS, Some Samples.blank_report)
  /\ BenchProcessUnix.cb_bench_process_run Samples.calm_world
       (Some Samples.sample_dataset) None (Some Samples.blank_report)
     = (CB_ERR_ARGS, Some Samples.blank_report, [])
  /\ BenchProcessWin.cb_bench_process_run Samples.calm_world
       None None (Some Samples.blank_report)
     = (CB_ERR_ARGS, Some Samples.blank_report, [])
  /\ BenchThread.cb_bench_thread_run Samples.calm_world
       (Some Samples.sample_dataset) (Some Samples.sample_config) None
     = (CB_ERR_ARGS, None, [])
  /\ cb_stats_compute None 3 (Some (mk_stats 1 2 3 4 5))
     = (CB_ERR_ARGS, Some (mk_stats 1 2 3 4 5)).
Proof.
  destruct null_arguments_rejected as (H1 & H2 & H3 & H4 & H5).
  split; [apply H1; now left|].
  split; [apply H2; right; now left|].
  split; [apply H3; now left|].
  split; [apply H4; right; now right|].
  apply H5; now left.
Defined.

End ArgumentFacts.

(** ** The coordinators: the reported sums *)

Module SumFacts.
Import Platform Worker Partition SumSpec AccumulatorSpec Stats.
Import WorkerFacts PartitionFacts AccumulatorFacts.

Lemma is_err_false (e : cb_error_t) : is_err e = false <-> e = CB_OK.
Proof. destruct e; cbn; split; intros H; congruence. Qed.

Lemma is_err_true (e : cb_error_t) : is_err e = true <-> e <> CB_OK.
Proof. destruct e; cbn; split; intros H; congruence. Qed.

Lemma stats_ok_count times count out st :
  cb_stats_compute times count out = (CB_OK, st) -> 1 <= count.
Proof.
  unfold cb_stats_compute. destruct times, out; try discriminate.
  destruct (Z.ltb_spec count 1); [discriminate | lia].
Qed.

(** The whole-array sum is the wrapped total of any chain of slices that
    covers the array. *)
Lemma chain_total dataset len l :
  chained 0 l -> chain_end 0 l = len ->
  wrap_long (slices_total dataset l) = array_sum dataset 0 len.
Proof.
  intros Hc He. rewrite array_sum_range.
  rewrite (slices_total_chain dataset l 0 Hc), He, Z.sub_0_r. reflexivity.
Qed.

Lemma add_slices_any_order dataset len l l' :
  chained 0 l -> chain_end 0 l = len -> Permutation l l' ->
  add_slices dataset l' 0 = array_sum dataset 0 len.
Proof.
  intros Hc He Hp.
  rewrite <- (add_slices_wrapped dataset l' 0) by reflexivity.
  rewrite add_slices_total, Z.add_0_l.
  rewrite <- (slices_total_perm dataset l l' Hp). now apply chain_total.
Qed.

(** *** Baseline *)

Lemma single_loop_later w d c : forall todo iter times vs,
  (0 < iter)%nat ->
  snd (BenchSingle.single_loop w d c todo iter times vs) = vs.
Proof.
  induction todo as [|todo IH]; intros iter times vs Hi; cbn [BenchSingle.single_loop].
  - reflexivity.
  - rewrite IH by lia. destruct iter; [lia | reflexivity].
Qed.

Lemma single_loop_first w d c todo times vs :
  snd (BenchSingle.single_loop w d c (S todo) 0 times vs)
  = array_sum d 0 (array_length c).
Proof.
  cbn [BenchSingle.single_loop]. rewrite single_loop_later by lia. reflexivity.
Qed.

Lemma single_run_sum w d c r s :
  BenchSingle.cb_bench_single_run w (Some d) (Some c) (Some r) = (CB_OK, Some s) ->
  report_sum s = array_sum d 0 (array_length c).
Proof.
  unfold BenchSingle.cb_bench_single_run.
  destruct (alloc_ok w); cbn [negb]; [|discriminate].
  destruct (BenchSingle.single_loop w d c (Z.to_nat (iterations c)) 0 [] 0)
    as [times vs] eqn:El.
  destruct (cb_stats_compute (Some times) (iterations c) (Some (stats r)))
    as [err st] eqn:Es.
  intros H. injection H as -> <-. cbn [report_sum].
  apply stats_ok_count in Es.
  destruct (Z.to_nat (iterations c)) as [|todo] eqn:En; [lia|].
  change vs with (snd (times, vs)). rewrite <- El. apply single_loop_first.
Qed.

(** *** Threads *)

Lemma insert_at_perm {A : Type} (x : A) : forall pos l,
  Permutation (BenchThread.insert_at pos x l) (x :: l).
Proof.
  induction pos as [|pos IH]; intros l; destruct l as [|y l];
    cbn [BenchThread.insert_at]; try apply Permutation_refl.
  eapply perm_trans; [apply perm_skip, IH | apply perm_swap].
Qed.

Lemma lock_order_perm {A : Type} rank : forall (l acc : list A) i,
  Permutation (BenchThread.lock_order rank i l acc) (l ++ acc).
Proof.
  induction l as [|x l IH]; intros acc i; cbn [BenchThread.lock_order app].
  - apply Permutation_refl.
  - eapply perm_trans; [apply IH|].
    eapply perm_trans; [apply Permutation_app_head, insert_at_perm|].
    apply Permutation_sym, Permutation_middle.
Qed.

Lemma thread_results_total w d iter : forall params i,
  wrap_long (partials_total (BenchThread.thread_results w d iter params i))
  = wrap_long (slices_total d params).
Proof.
  induction params as [|s params IH]; intros i;
    cbn [BenchThread.thread_results partials_total slices_total].
  - reflexivity.
  - unfold thread_compute at 1. cbn [partial_sum].
    rewrite sum_loop_zero, wrap_long_add_l.
    rewrite <- wrap_long_add_r, IH, wrap_long_add_r. reflexivity.
Qed.

Lemma thread_iteration_sum w d c n iter err shared evs :
  0 <= array_length c -> 1 <= n ->
  BenchThread.thread_iteration w d c n iter = (err, shared, evs) ->
  is_err err = false ->
  shared_sum shared = array_sum d 0 (array_length c).
Proof.
  intros Ha Hn. unfold BenchThread.thread_iteration.
  destruct (BenchThread.create_loop w iter (Z.to_nat n) 0) as [e1 evs1].
  destruct (is_err e1) eqn:E1.
  - intros H. injection H as <- _ _. congruence.
  - destruct (BenchThread.join_loop w iter (Z.to_nat n) 0 e1) as [e2 evs2].
    intros H _. injection H as _ <- _.
    rewrite accumulate_sum.
    rewrite (partials_total_perm _ _ (lock_order_perm _ _ _ _)), app_nil_r.
    rewrite thread_results_total.
    apply chain_total; [apply partition_chained | apply partition_chain_end]; lia.
Qed.

Lemma thread_iterations_later w d c n : forall todo iter times vs tr times' vs' tr',
  (0 < iter)%nat ->
  BenchThread.thread_iterations w d c n todo iter times vs tr
  = (CB_OK, times', vs', tr') ->
  vs' = vs.
Proof.
  induction todo as [|todo IH]; intros iter times vs tr times' vs' tr' Hi;
    cbn [BenchThread.thread_iterations].
  - intros H. now injection H as _ <- _.
  - destruct (BenchThread.thread_iteration w d c n iter) as [[err sh] evs].
    destruct (is_err err) eqn:E.
    + intros H. injection H as -> _ _ _. discriminate.
    + intros H. apply IH in H; [|lia]. destruct iter; [lia | exact H].
Qed.

Lemma thread_run_sum w d c r s tr :
  0 <= array_length c -> 1 <= num_threads c ->
  BenchThread.cb_bench_thread_run w (Some d) (Some c) (Some r) = (CB_OK, Some s, tr) ->
  report_sum s = array_sum d 0 (array_length c).
Proof.
  intros Ha Hn. unfold BenchThread.cb_bench_thread_run.
  destruct (alloc_ok w); cbn [negb]; [|discriminate].
  destruct (is_err (mutex_init_res w)) eqn:Em.
  { intros H. injection H as H _ _. rewrite H in Em. discriminate. }
  destruct (BenchThread.thread_iterations w d c (num_threads c)
              (Z.to_nat (iterations c)) 0 [] 0 [])
    as [[[err times] vs] tr0] eqn:El.
  destruct (is_err err) eqn:Ee.
  { intros H. injection H as H _ _. rewrite H in Ee. discriminate. }
  apply is_err_false in Ee. subst err.
  destruct (cb_stats_compute (Some times) (iterations c) (Some (stats r)))
    as [err st] eqn:Es.
  intros H. injection H as -> <- _. cbn [report_sum].
  apply stats_ok_count in Es.
  destruct (Z.to_nat (iterations c)) as [|todo] eqn:En; [lia|].
  cbn [BenchThread.thread_iterations] in El.
  destruct (BenchThread.thread_iteration w d c (num_threads c) 0)
    as [[e0 sh] evs] eqn:Ei.
  destruct (is_err e0) eqn:E0.
  { injection El as -> _ _ _. discriminate. }
  apply thread_iterations_later in El; [|lia]. cbn [Nat.eqb] in El. subst vs.
  exact (thread_iteration_sum w d c (num_threads c) 0%nat e0 sh evs Ha Hn Ei E0).
Qed.

(** *** Processes, Unix *)

Lemma unix_spawn_loop_ok w iter b r : forall todo i off e spawned work evs,
  BenchProcessUnix.spawn_loop w iter b r todo i off = (e, spawned, work, evs) ->
  is_err e = false ->
  work = distribute b r todo (Z.of_nat i) off /\ spawned = (i + todo)%nat.
Proof.
  induction todo as [|todo IH]; intros i off e spawned work evs;
    cbn [BenchProcessUnix.spawn_loop distribute].
  - intros H _. injection H as _ <- <- _. split; [reflexivity | lia].
  - destruct (is_err (pipe_create_res w iter i)) eqn:E1.
    { intros H He. injection H as <- _ _ _. congruence. }
    destruct (is_err (process_spawn_res w iter i)) eqn:E2.
    { intros H He. injection H as <- _ _ _. congruence. }
    destruct (BenchProcessUnix.spawn_loop w iter b r todo (S i)
                (off + chunk_len b r (Z.of_nat i)))
      as [[[e' sp'] work'] evs'] eqn:El.
    intros H He. injection H as <- <- <- _.
    destruct (IH _ _ _ _ _ _ El He) as [-> ->].
    split; [|lia]. repeat f_equal. lia.
Qed.

Lemma unix_read_loop_ok w iter d : forall work i acc e total evs,
  BenchProcessUnix.read_loop w iter d work i acc = (e, total, evs) ->
  is_err e = false ->
  total = add_slices d work acc.
Proof.
  induction work as [|s work IH]; intros i acc e total evs;
    cbn [BenchProcessUnix.read_loop].
  - intros H _. now injection H as _ <- _.
  - destruct (is_err (pipe_read_res w iter i)) eqn:E1.
    { intros H He. injection H as <- _ _. congruence. }
    destruct (BenchProcessUnix.read_loop w iter d work (S i) _)
      as [[e' total'] evs'] eqn:El.
    intros H He. injection H as <- <- _.
    rewrite (IH _ _ _ _ _ El He). reflexivity.
Qed.

Lemma unix_iteration_sum w d c n iter err iter_sum evs :
  0 <= array_length c -> 1 <= n ->
  BenchProcessUnix.process_iteration w d c n iter = (err, iter_sum, evs) ->
  is_err err = false ->
  iter_sum = array_sum d 0 (array_length c).
Proof.
  intros Ha Hn. unfold BenchProcessUnix.process_iteration.
  destruct (BenchProcessUnix.spawn_loop w iter _ _ (Z.to_nat n) 0 0)
    as [[[e1 spawned] work] evs1] eqn:Es.
  destruct (is_err e1) eqn:E1.
  { intros H He. injection H as <- _ _. congruence. }
  destruct (BenchProcessUnix.read_loop w iter d work 0 0)
    as [[e2 total] evs2] eqn:Er.
  destruct (is_err e2) eqn:E2.
  { intros H He. injection H as <- _ _. congruence. }
  destruct (BenchProcessUnix.wait_loop w iter spawned 0 e2) as [e3 evs3].
  intros H _. injection H as _ <- _.
  destruct (unix_spawn_loop_ok _ _ _ _ _ _ _ _ _ _ _ Es E1) as [-> _].
  rewrite (unix_read_loop_ok _ _ _ _ _ _ _ _ _ Er E2).
  apply (add_slices_any_order d (array_length c) (partition (array_length c) n));
    [apply partition_chained | apply partition_chain_end | apply Permutation_refl];
    lia.
Qed.

Lemma unix_iterations_later w d c n :
  forall todo iter times vs tr times' vs' tr',
  (0 < iter)%nat ->
  BenchProcessUnix.process_iterations w d c n todo iter times vs tr
  = (CB_OK, times', vs', tr') ->
  vs' = vs.
Proof.
  induction todo as [|todo IH]; intros iter times vs tr times' vs' tr' Hi;
    cbn [BenchProcessUnix.process_iterations].
  - intros H. now injection H as _ <- _.
  - destruct (BenchProcessUnix.process_iteration w d c n iter) as [[err sh] evs].
    destruct (is_err err) eqn:E.
    + intros H. injection H as -> _ _ _. discriminate.
    + intros H. apply IH in H; [|lia]. destruct iter; [lia | exact H].
Qed.

Lemma unix_run_sum w d c r s tr :
  0 <= array_length c -> 1 <= num_processes c ->
  BenchProcessUnix.cb_bench_process_run w (Some d) (Some c) (Some r)
  = (CB_OK, Some s, tr) ->
  report_sum s = array_sum d 0 (array_length c).
Proof.
  intros Ha Hn. unfold BenchProcessUnix.cb_bench_process_run.
  destruct (alloc_ok w); cbn [negb]; [|discriminate].
  destruct (BenchProcessUnix.process_iterations w d c (num_processes c)
              (Z.to_nat (iterations c)) 0 [] 0 [])
    as [[[err times] vs] tr0] eqn:El.
  destruct (is_err err) eqn:Ee.
  { intros H. injection H as H _ _. rewrite H in Ee. discriminate. }
  apply is_err_false in Ee. subst err.
  destruct (cb_stats_compute (Some times) (iterations c) (Some (stats r)))
    as [err st] eqn:Es.
  intros H. injection H as -> <- _. cbn [report_sum].
  apply stats_ok_count in Es.
  destruct (Z.to_nat (iterations c)) as [|todo] eqn:En; [lia|].
  cbn [BenchProcessUnix.process_iterations] in El.
  destruct (BenchProcessUnix.process_iteration w d c (num_processes c) 0)
    as [[e0 total] evs] eqn:Ei.
  destruct (is_err e0) eqn:E0.
  { injection El as -> _ _ _. discriminate. }
  apply unix_iterations_later in El; [|lia]. cbn [Nat.eqb] in El. subst vs.
  exact (unix_iteration_sum w d c (num_processes c) 0%nat e0 total evs Ha Hn Ei E0).
Qed.

(** *** Processes, Windows *)

Lemma win_spawn_loop_ok w iter b r : forall todo i off e spawned work evs,
  BenchProcessWin.spawn_loop w iter b r todo i off = (e, spawned, work, evs) ->
  is_err e = false ->
  work = distribute b r todo (Z.of_nat i) off /\ spawned = (i + todo)%nat.
Proof.
  induction todo as [|todo IH]; intros i off e spawned work evs;
    cbn [BenchProcessWin.spawn_loop distribute].
  - intros H _. injection H as _ <- <- _. split; [reflexivity | lia].
  - destruct (is_err (process_spawn_res w iter i)) eqn:E2.
    { intros H He. injection H as <- _ _ _. congruence. }
    destruct (BenchProcessWin.spawn_loop w iter b r todo (S i)
                (off + chunk_len b r (Z.of_nat i)))
      as [[[e' sp'] work'] evs'] eqn:El.
    intros H He. injection H as <- <- <- _.
    destruct (IH _ _ _ _ _ _ El He) as [-> ->].
    split; [|lia]. repeat f_equal. lia.
Qed.

Lemma win_wait_loop_ok w iter : forall todo i err e evs,
  BenchProcessWin.wait_loop w iter todo i err = (e, evs) ->
  is_err e = false ->
  is_err err = false
  /\ forall j, (i <= j < i + todo)%nat ->
       is_err (fst (process_wait_res w iter j)) = false
       /\ snd (process_wait_res w iter j) = 0.
Proof.
  induction todo as [|todo IH]; intros i err e evs;
    cbn [BenchProcessWin.wait_loop].
  - intros H He. injection H as <- _. split; [exact He | intros; lia].
  - destruct (BenchProcessWin.wait_loop w iter todo (S i) _) as [e' evs'] eqn:El.
    intros H He. injection H as <- _.
    destruct (IH _ _ _ _ El He) as [Herr' Hrest].
    destruct (is_err (fst (process_wait_res w iter i))) eqn:Ew.
    { destruct (is_err err) eqn:Eerr; congruence. }
    destruct (Z.eqb_spec (snd (process_wait_res w iter i)) 0) as [Hz | Hnz];
      cbn [negb] in Herr'.
    + split; [exact Herr'|]. intros j Hj.
      destruct (Nat.eq_dec j i) as [-> | Hne]; [now split | apply Hrest; lia].
    + destruct (is_err err) eqn:Eerr; [congruence | discriminate].
Qed.

Lemma shm_result_inj a i j :
  SharedMemWin.shm_result a i = SharedMemWin.shm_result a j -> i = j.
Proof. unfold SharedMemWin.shm_result, SharedMemWin.SIZEOF_RESULT. lia. Qed.

Lemma clear_slots_dataset len : forall todo i m,
  SharedMemWin.seg_dataset (BenchProcessWin.clear_slots m len todo i)
  = SharedMemWin.seg_dataset m.
Proof.
  induction todo as [|todo IH]; intros i m; cbn [BenchProcessWin.clear_slots].
  - reflexivity.
  - now rewrite IH.
Qed.

(** What the segment holds once workers [i0 .. i0 + todo - 1] have run on
    the arguments built for them: each slot its worker's result, everything
    else what it held before. *)
Lemma win_workers_run_slots w iter len (sl : nat -> slice) : forall todo i0 m,
  (forall j, (i0 <= j < i0 + todo)%nat ->
     exists wa,
       worker_store w iter j = Some wa
       /\ Input.worker_id wa = Z.of_nat j
       /\ Input.array_size wa = len
       /\ Input.wa_start wa = sl_start (sl j)
       /\ Input.wa_length wa = sl_length (sl j)) ->
  let m' := BenchProcessWin.workers_run w iter m todo i0 in
  SharedMemWin.seg_dataset m' = SharedMemWin.seg_dataset m
  /\ forall k : nat,
       SharedMemWin.seg_result m' (SharedMemWin.shm_result len (Z.of_nat k))
       = if ((i0 <=? k) && (k <? i0 + todo))%nat
         then cb_array_sum (fst (worker_clock w iter k))
                (snd (worker_clock w iter k)) (SharedMemWin.seg_dataset m)
                (sl_start (sl k)) (sl_length (sl k))
         else SharedMemWin.seg_result m
                (SharedMemWin.shm_result len (Z.of_nat k)).
Proof.
  induction todo as [|todo IH]; intros i0 m Hall;
    cbn [BenchProcessWin.workers_run].
  - cbn zeta. split; [reflexivity|]. intros k.
    destruct (Nat.leb_spec i0 k); destruct (Nat.ltb_spec k (i0 + 0));
      cbn [andb]; try lia; reflexivity.
  - destruct (Hall i0 ltac:(lia)) as (wa & -> & Hid & Hsz & Hst & Hln).
    unfold SharedMemWin.cb_bench_process_worker_main.
    cbn [is_err cb_error_code Z.eqb negb snd].
    rewrite Hid, Hsz, Hst, Hln.
    match goal with
    | |- context [BenchProcessWin.workers_run w iter ?m1 todo (S i0)] =>
      destruct (IH (S i0) m1) as [Hd Hs];
        [intros j Hj; apply Hall; lia|]
    end.
    cbn zeta in *. cbn [SharedMemWin.seg_dataset SharedMemWin.store_result] in Hd.
    split; [exact Hd|]. intros k. rewrite Hs.
    cbn [SharedMemWin.seg_dataset SharedMemWin.seg_result
           SharedMemWin.store_result].
    destruct (Z.eqb_spec (SharedMemWin.shm_result len (Z.of_nat k))
                (SharedMemWin.shm_result len (Z.of_nat i0))) as [E | E].
    + apply shm_result_inj, Nat2Z.inj in E. subst k.
      destruct (Nat.leb_spec (S i0) i0); [lia|].
      destruct (Nat.leb_spec i0 i0); [|lia].
      destruct (Nat.ltb_spec i0 (i0 + S todo)); [|lia].
      reflexivity.
    + assert (Hne : k <> i0) by (intros ->; contradiction).
      destruct (Nat.leb_spec (S i0) k); destruct (Nat.ltb_spec k (S i0 + todo));
        destruct (Nat.leb_spec i0 k); destruct (Nat.ltb_spec k (i0 + S todo));
        cbn [andb]; try lia; reflexivity.
Qed.

Lemma win_slots_loop_ok m len d : forall work i acc,
  (forall k s, nth_error work k = Some s ->
     sum (SharedMemWin.seg_result m
            (SharedMemWin.shm_result len (Z.of_nat (i + k))))
     = array_sum d (sl_start s) (sl_length s)) ->
  BenchProcessWin.slots_loop m len (length work) i acc = add_slices d work acc.
Proof.
  induction work as [|s work IH]; intros i acc Hall;
    cbn [BenchProcessWin.slots_loop length].
  - reflexivity.
  - rewrite IH.
    + pose proof (Hall 0%nat s eq_refl) as H0. rewrite Nat.add_0_r in H0.
      rewrite H0. reflexivity.
    + intros k s' Hk. replace (S i + k)%nat with (i + S k)%nat by lia.
      now apply Hall.
Qed.

Lemma win_iteration_sum w m d c n iter err iter_sum evs m' :
  0 <= array_length c -> 1 <= n ->
  SharedMemWin.seg_dataset m = d ->
  WorkerSpec.workers_stored w (array_length c) n iter ->
  BenchProcessWin.process_iteration w m c n iter = (err, iter_sum, evs, m') ->
  is_err err = false ->
  iter_sum = array_sum d 0 (array_length c).
Proof.
  intros Ha Hn Hd Hst. unfold BenchProcessWin.process_iteration.
  destruct (BenchProcessWin.spawn_loop w iter _ _ (Z.to_nat n) 0 0)
    as [[[e1 spawned] work] evs1] eqn:Es.
  destruct (is_err e1) eqn:E1.
  { intros H He. injection H as <- _ _ _. congruence. }
  destruct (BenchProcessWin.wait_loop w iter spawned 0 e1) as [e2 evs2] eqn:Ew.
  destruct (is_err e2) eqn:E2.
  { intros H He. injection H as <- _ _ _. congruence. }
  intros H _. injection H as _ <- _ _.
  destruct (win_spawn_loop_ok _ _ _ _ _ _ _ _ _ _ _ Es E1) as [Hw Hs].
  cbn [Nat.add] in Hs. subst spawned.
  set (P := partition (array_length c) n).
  set (m0 := BenchProcessWin.clear_slots m (array_length c) (Z.to_nat n) 0).
  destruct (win_workers_run_slots w iter (array_length c)
              (fun j => nth j P (mk_slice 0 0)) (Z.to_nat n) 0 m0)
    as [_ Hslots].
  { intros j Hj.
    assert (Hlt : (j < length P)%nat)
      by (unfold P, partition; rewrite distribute_length; lia).
    destruct (Hst j (nth j P (mk_slice 0 0)))
      as (wa & Ews & H1 & H2 & H3 & H4).
    - now apply nth_error_nth'.
    - exists wa. auto. }
  cbn zeta in Hslots.
  assert (Hlen : Z.to_nat n = length P)
    by (unfold P, partition; now rewrite distribute_length).
  rewrite Hlen in Hslots |- *.
  rewrite (win_slots_loop_ok _ _ d P).
  - apply (add_slices_any_order d (array_length c) P);
      [apply partition_chained | apply partition_chain_end | apply Permutation_refl];
      lia.
  - intros k s Hk. cbn [Nat.add]. rewrite Hslots.
    assert (Hlt : (k < length P)%nat) by (apply nth_error_Some; congruence).
    destruct (Nat.ltb_spec k (0 + length P)); [|lia]. cbn [Nat.leb andb].
    rewrite cb_array_sum_clock_free.
    unfold m0. rewrite clear_slots_dataset, Hd.
    now rewrite (nth_error_nth _ _ _ Hk).
Qed.

Lemma win_iterations_later w c n :
  forall todo iter m times vs tr times' vs' tr',
  (0 < iter)%nat ->
  BenchProcessWin.process_iterations w m c n todo iter times vs tr
  = (CB_OK, times', vs', tr') ->
  vs' = vs.
Proof.
  induction todo as [|todo IH]; intros iter m times vs tr times' vs' tr' Hi;
    cbn [BenchProcessWin.process_iterations].
  - intros H. now injection H as _ <- _.
  - destruct (BenchProcessWin.process_iteration w m c n iter)
      as [[[err sh] evs] m1].
    destruct (is_err err) eqn:E.
    + intros H. injection H as -> _ _ _. discriminate.
    + intros H. apply IH in H; [|lia]. destruct iter; [lia | exact H].
Qed.

(** The Windows coordinator reports the sum of the array when the workers
    of the first iteration stored their results; later iterations are only
    compared with the first. *)
Lemma win_run_sum w d c r s tr :
  0 <= array_length c -> 1 <= num_processes c ->
  WorkerSpec.workers_stored w (array_length c) (num_processes c) 0 ->
  BenchProcessWin.cb_bench_process_run w (Some d) (Some c) (Some r)
  = (CB_OK, Some s, tr) ->
  report_sum s = array_sum d 0 (array_length c).
Proof.
  intros Ha Hn Hst. unfold BenchProcessWin.cb_bench_process_run.
  destruct (is_err (exe_path_res w)) eqn:Ex.
  { intros H. injection H as H _ _. rewrite H in Ex. discriminate. }
  destruct (alloc_ok w); cbn [negb]; [|discriminate].
  destruct (is_err (shared_mem_create_res w)) eqn:Em.
  { intros H. injection H as H _ _. rewrite H in Em. discriminate. }
  cbn zeta.
  destruct (BenchProcessWin.process_iterations w _ c (num_processes c)
              (Z.to_nat (iterations c)) 0 [] 0 [])
    as [[[err times] vs] tr0] eqn:El.
  destruct (is_err err) eqn:Ee.
  { intros H. injection H as H _ _. rewrite H in Ee. discriminate. }
  apply is_err_false in Ee. subst err.
  destruct (cb_stats_compute (Some times) (iterations c) (Some (stats r)))
    as [err st] eqn:Es.
  intros H. injection H as -> <- _. cbn [report_sum].
  apply stats_ok_count in Es.
  destruct (Z.to_nat (iterations c)) as [|todo] eqn:En; [lia|].
  cbn [BenchProcessWin.process_iterations] in El.
  destruct (BenchProcessWin.process_iteration w _ c (num_processes c) 0)
    as [[[e0 total] evs] m1] eqn:Ei.
  destruct (is_err e0) eqn:E0.
  { injection El as -> _ _ _. discriminate. }
  apply win_iterations_later in El; [|lia]. cbn [Nat.eqb] in El. subst vs.
  apply (fun Hd => win_iteration_sum w _ d c _ _ _ _ _ _ Ha Hn Hd Hst Ei E0).
  reflexivity.
Qed.

(** The sample workers store what the coordinator asks of them. *)
Lemma workers_for_stored w len n it :
  worker_store w = Samples.workers_for len n ->
  WorkerSpec.workers_stored w len n it.
Proof.
  intros Hw i s Hi. rewrite Hw. unfold Samples.workers_for. rewrite Hi.
  cbn [option_map]. eexists. split; [reflexivity|]. repeat split.
Qed.

(** X28 -- Kernel correctness and cross-mode equality, where the workers
    deliver.  For every dataset and configuration (array length not
    negative, at least one process and one thread), adding the
    [cb_array_sum] partial sums of any partition of [[0, array_length)]
    into contiguous slices, in any order, gives the [cb_array_sum] of the
    whole array; and whenever the baseline, the process-mode and the
    thread-mode coordinators succeed, in whatever worlds, the sums they
    report are this same number: on Unix as it is, on Windows where the
    workers of the first iteration stored their results. *)
Theorem modes_agree (d : list Z) (c : cb_config_t) :
  0 <= array_length c -> 1 <= num_processes c -> 1 <= num_threads c ->
  (forall l order,
     chained 0 l -> chain_end 0 l = array_length c -> Permutation l order ->
     add_slices d order 0 = array_sum d 0 (array_length c))
  /\ (forall w1 w2 w3 w4 r1 r2 r3 r4 s1 s2 s3 s4 t2 t3 t4,
        BenchSingle.cb_bench_single_run w1 (Some d) (Some c) (Some r1)
        = (CB_OK, Some s1) ->
        BenchProcessUnix.cb_bench_process_run w2 (Some d) (Some c) (Some r2)
        = (CB_OK, Some s2, t2) ->
        WorkerSpec.workers_stored w3 (array_length c) (num_processes c) 0 ->
        BenchProcessWin.cb_bench_process_run w3 (Some d) (Some c) (Some r3)
        = (CB_OK, Some s3, t3) ->
        BenchThread.cb_bench_thread_run w4 (Some d) (Some c) (Some r4)
        = (CB_OK, Some s4, t4) ->
        report_sum s1 = array_sum d 0 (array_length c)
        /\ report_sum s2 = report_sum s1
        /\ report_sum s3 = report_sum s1
        /\ report_sum s4 = report_sum s1).
Proof.
  intros Ha Hp Ht. split.
  - intros l order Hc He Hperm. eapply add_slices_any_order; eauto.
  - intros w1 w2 w3 w4 r1 r2 r3 r4 s1 s2 s3 s4 t2 t3 t4 H1 H2 Hst H3 H4.
    apply single_run_sum in H1.
    apply unix_run_sum in H2; [|assumption..].
    apply win_run_sum in H3; [|assumption..].
    apply thread_run_sum in H4; [|assumption..].
    repeat split; congruence.
Qed.

Lemma modes_agree_witness :
  exists s1 s2 s3 s4 t2 t3 t4,
    BenchSingle.cb_bench_single_run Samples.calm_world
      (Some Samples.sample_dataset) (Some Samples.sample_config)
      (Some Samples.blank_report) = (CB_OK, Some s1)
    /\ BenchProcessUnix.cb_bench_process_run Samples.calm_world
         (Some Samples.sample_dataset) (Some Samples.sample_config)
         (Some Samples.blank_report) = (CB_OK, Some s2, t2)
    /\ BenchProcessWin.cb_bench_process_run Samples.calm_world
         (Some Samples.sample_dataset) (Some Samples.sample_config)
         (Some Samples.blank_report) = (CB_OK, Some s3, t3)
    /\ BenchThread.cb_bench_thread_run Samples.calm_world
         (Some Samples.sample_dataset) (Some Samples.sample_config)
         (Some Samples.blank_report) = (CB_OK, Some s4, t4)
    /\ report_sum s1 = array_sum Samples.sample_dataset 0 11
    /\ report_sum s2 = report_sum s1
    /\ report_sum s3 = report_sum s1
    /\ report_sum s4 = report_sum s1.
Proof.
  do 7 eexists.
  split; [lazy; reflexivity|].
  split; [lazy; reflexivity|].
  split; [lazy; reflexivity|].
  split; [lazy; reflexivity|].
  eapply (proj2 (modes_agree Samples.sample_dataset Samples.sample_config
                  ltac:(cbn; lia) ltac:(cbn; lia) ltac:(cbn; lia))
           Samples.calm_world Samples.calm_world Samples.calm_world
           Samples.calm_world Samples.blank_report Samples.blank_report
           Samples.blank_report Samples.blank_report);
    try (lazy; reflexivity).
  now apply workers_for_stored.
Defined.

End SumFacts.

(** ** The process coordinators: teardown after a failure *)

Module TeardownFacts.
Import Platform Partition Stats TeardownSpec SumFacts.

(** *** Unix *)

Section UnixIteration.
Variable w : world.
Variable it : nat.
Variables b r : Z.

Lemma unix_spawn_clean : forall todo i off,
  (forall j, (i <= j < i + todo)%nat ->
     pipe_create_res w it j = CB_OK /\ process_spawn_res w it j = CB_OK) ->
  exists work evs,
    BenchProcessUnix.spawn_loop w it b r todo i off
    = (CB_OK, (i + todo)%nat, work, evs)
    /\ length work = todo
    /\ (forall j, (i <= j < i + todo)%nat -> In (ProcessSpawn j CB_OK) evs).
Proof.
  induction todo as [|todo IH]; intros i off Hok;
    cbn [BenchProcessUnix.spawn_loop].
  - exists [], []. rewrite Nat.add_0_r. repeat split. intros; lia.
  - destruct (Hok i ltac:(lia)) as [-> ->]. cbn [is_err cb_error_code Z.eqb negb].
    destruct (IH (S i) (off + chunk_len b r (Z.of_nat i))) as (work & evs & E & Hl & Hin).
    { intros j Hj. apply Hok. lia. }
    rewrite E. replace (i + S todo)%nat with (S i + todo)%nat by lia.
    eexists _, _. split; [reflexivity|].
    split; [cbn [length]; now rewrite Hl|].
    intros j Hj. destruct (Nat.eq_dec j i) as [-> | Hne].
    + right. now left.
    + right. right. right. apply Hin. lia.
Qed.

Lemma unix_spawn_loop_fails e : forall todo i off k,
  (i <= k < i + todo)%nat ->
  (forall j, (i <= j < k)%nat ->
     pipe_create_res w it j = CB_OK /\ process_spawn_res w it j = CB_OK) ->
  pipe_create_res w it k = e
  \/ (pipe_create_res w it k = CB_OK /\ process_spawn_res w it k = e) ->
  e <> CB_OK ->
  exists work evs,
    BenchProcessUnix.spawn_loop w it b r todo i off = (e, k, work, evs)
    /\ (forall j, (i <= j < k)%nat -> In (ProcessSpawn j CB_OK) evs).
Proof.
  induction todo as [|todo IH]; intros i off k Hk Hok Hfail He; [lia|].
  cbn [BenchProcessUnix.spawn_loop].
  apply is_err_true in He.
  destruct (Nat.eq_dec i k) as [-> | Hne].
  - destruct Hfail as [Hc | [Hc Hs]].
    + rewrite Hc, He. eexists _, _. split; [reflexivity | intros; lia].
    + rewrite Hc. cbn [is_err cb_error_code Z.eqb negb]. rewrite Hs, He.
      eexists _, _. split; [reflexivity | intros; lia].
  - destruct (Hok i ltac:(lia)) as [-> ->]. cbn [is_err cb_error_code Z.eqb negb].
    destruct (IH (S i) (off + chunk_len b r (Z.of_nat i)) k) as (work & evs & E & Hin).
    { lia. }
    { intros j Hj. apply Hok. lia. }
    { exact Hfail. }
    { now apply is_err_true. }
    rewrite E. eexists _, _. split; [reflexivity|].
    intros j Hj. destruct (Nat.eq_dec j i) as [-> | Hne'].
    + right. now left.
    + right. right. right. apply Hin. lia.
Qed.

Lemma unix_read_clean d : forall work i acc,
  (forall j, (i <= j < i + length work)%nat -> pipe_read_res w it j = CB_OK) ->
  exists total evs,
    BenchProcessUnix.read_loop w it d work i acc = (CB_OK, total, evs).
Proof.
  induction work as [|s work IH]; intros i acc Hok;
    cbn [BenchProcessUnix.read_loop].
  - eexists _, _. reflexivity.
  - rewrite (Hok i ltac:(cbn [length]; lia)).
    cbn [is_err cb_error_code Z.eqb negb].
    edestruct (IH (S i)) as (total & evs & E).
    { intros j Hj. apply Hok. cbn [length]. lia. }
    rewrite E. eexists _, _. reflexivity.
Qed.

Lemma unix_read_fails d e : forall work i acc k,
  (i <= k < i + length work)%nat ->
  (forall j, (i <= j < k)%nat -> pipe_read_res w it j = CB_OK) ->
  pipe_read_res w it k = e -> e <> CB_OK ->
  exists total evs,
    BenchProcessUnix.read_loop w it d work i acc = (e, total, evs).
Proof.
  induction work as [|s work IH]; intros i acc k Hk Hok Hfail He;
    [cbn [length] in Hk; lia|].
  cbn [BenchProcessUnix.read_loop]. cbn [length] in Hk.
  destruct (Nat.eq_dec i k) as [-> | Hne].
  - rewrite Hfail. apply is_err_true in He. rewrite He.
    eexists _, _. reflexivity.
  - rewrite (Hok i ltac:(lia)). cbn [is_err cb_error_code Z.eqb negb].
    match goal with
    | |- context [BenchProcessUnix.read_loop _ _ _ _ _ ?a] =>
      destruct (IH (S i) a k) as (total & evs & E);
        [lia | intros j Hj; apply Hok; lia | exact Hfail | exact He |]
    end.
    rewrite E. eexists _, _. reflexivity.
Qed.

Lemma unix_wait_clean : forall todo i,
  (forall j, (i <= j < i + todo)%nat -> fst (process_wait_res w it j) = CB_OK) ->
  exists evs, BenchProcessUnix.wait_loop w it todo i CB_OK = (CB_OK, evs).
Proof.
  induction todo as [|todo IH]; intros i Hok; cbn [BenchProcessUnix.wait_loop].
  - eexists. reflexivity.
  - rewrite (Hok i ltac:(lia)). cbn [is_err cb_error_code Z.eqb negb].
    destruct (IH (S i)) as (evs & E). { intros j Hj. apply Hok. lia. }
    rewrite E. eexists. reflexivity.
Qed.

End UnixIteration.

Lemma in_at_iteration it ev evs :
  In ev evs -> In (it, ev) (at_iteration it evs).
Proof. intros H. unfold at_iteration. now apply (in_map (fun e => (it, e))). Qed.

Lemma at_iteration_index it it' ev evs :
  In (it', ev) (at_iteration it evs) -> it' = it.
Proof.
  unfold at_iteration. intros H. apply in_map_iff in H.
  destruct H as (x & Hx & _). now injection Hx as <- _.
Qed.

Lemma at_iteration_app it l1 l2 :
  at_iteration it (l1 ++ l2) = at_iteration it l1 ++ at_iteration it l2.
Proof. apply map_app. Qed.

Lemma unix_iteration_clean w d c nz it :
  unix_clean w (Z.to_nat nz) it ->
  exists total evs,
    BenchProcessUnix.process_iteration w d c nz it = (CB_OK, total, evs).
Proof.
  intros Hc. unfold BenchProcessUnix.process_iteration.
  destruct (unix_spawn_clean w it (Z.quot (array_length c) nz)
              (Z.rem (array_length c) nz) (Z.to_nat nz) 0 0)
    as (work & evs1 & -> & Hl & _).
  { intros j Hj. destruct (Hc j ltac:(lia)) as (H1 & H2 & _). now split. }
  cbn [is_err cb_error_code Z.eqb negb].
  destruct (unix_read_clean w it d work 0 0) as (total & evs2 & ->).
  { intros j Hj. destruct (Hc j ltac:(lia)) as (_ & _ & H3 & _). exact H3. }
  cbn [is_err cb_error_code Z.eqb negb Nat.add].
  destruct (unix_wait_clean w it (Z.to_nat nz) 0) as (evs3 & ->).
  { intros j Hj. destruct (Hc j ltac:(lia)) as (_ & _ & _ & H4). exact H4. }
  eexists _, _. reflexivity.
Qed.

Lemma unix_iteration_fails w d c nz it k f e :
  unix_fails w (Z.to_nat nz) it k f e ->
  exists total evs,
    BenchProcessUnix.process_iteration w d c nz it
    = (e, total, evs ++ kill_and_reap (spawned_at f (Z.to_nat nz) k))
    /\ (forall j, (j < spawned_at f (Z.to_nat nz) k)%nat ->
          In (ProcessSpawn j CB_OK) evs).
Proof.
  intros (Hk & He & Hf). unfold BenchProcessUnix.process_iteration.
  pose proof (proj2 (is_err_true e) He) as Herr.
  destruct f; cbn [spawned_at].
  - destruct Hf as (Hok & Hc).
    destruct (unix_spawn_loop_fails w it (Z.quot (array_length c) nz)
                (Z.rem (array_length c) nz) e (Z.to_nat nz) 0 0 k)
      as (work & evs1 & -> & Hin); [lia | | now left | exact He |].
    { intros j Hj. apply Hok. lia. }
    rewrite Herr. eexists _, evs1. split; [reflexivity|].
    intros j Hj. apply Hin. lia.
  - destruct Hf as (Hok & Hc & Hs).
    destruct (unix_spawn_loop_fails w it (Z.quot (array_length c) nz)
                (Z.rem (array_length c) nz) e (Z.to_nat nz) 0 0 k)
      as (work & evs1 & -> & Hin); [lia | | now right | exact He |].
    { intros j Hj. apply Hok. lia. }
    rewrite Herr. eexists _, evs1. split; [reflexivity|].
    intros j Hj. apply Hin. lia.
  - destruct Hf as (Hok & Hr & Hrk).
    destruct (unix_spawn_clean w it (Z.quot (array_length c) nz)
                (Z.rem (array_length c) nz) (Z.to_nat nz) 0 0)
      as (work & evs1 & -> & Hl & Hin).
    { intros j Hj. apply Hok. lia. }
    cbn [is_err cb_error_code Z.eqb negb].
    destruct (unix_read_fails w it d e work 0 0 k)
      as (total & evs2 & ->); [lia | | exact Hrk | exact He |].
    { intros j Hj. apply Hr. lia. }
    rewrite Herr. cbn [Nat.add]. exists total, (evs1 ++ evs2).
    split; [now rewrite <- app_assoc|].
    intros j Hj. apply in_or_app. left. apply Hin. lia.
Qed.

Lemma unix_iterations_fail w d c nz it e total evs :
  BenchProcessUnix.process_iteration w d c nz it = (e, total, evs) ->
  is_err e = true ->
  forall todo iter times vs tr,
    (iter <= it < iter + todo)%nat ->
    (forall it', (iter <= it' < it)%nat -> unix_clean w (Z.to_nat nz) it') ->
    exists times' vs' mid,
      BenchProcessUnix.process_iterations w d c nz todo iter times vs tr
      = (e, times', vs', tr ++ mid ++ at_iteration it evs)
      /\ (forall it' ev, In (it', ev) mid -> (it' < it)%nat).
Proof.
  intros Hit Herr.
  induction todo as [|todo IH]; intros iter times vs tr Hrange Hclean; [lia|].
  cbn [BenchProcessUnix.process_iterations].
  destruct (Nat.eq_dec iter it) as [-> | Hne].
  - rewrite Hit, Herr. exists times, vs, []. split; [reflexivity|].
    intros it' ev [].
  - destruct (unix_iteration_clean w d c nz iter) as (total0 & evs0 & ->).
    { apply Hclean. lia. }
    cbn [is_err cb_error_code Z.eqb negb].
    match goal with
    | |- context [BenchProcessUnix.process_iterations _ _ _ _ _ _ ?t ?v ?r] =>
      destruct (IH (S iter) t v r) as (times' & vs' & mid & -> & Hmid);
        [lia | intros it' Hit'; apply Hclean; lia |]
    end.
    exists times', vs', (at_iteration iter evs0 ++ mid).
    split; [now rewrite <- !app_assoc|].
    intros it' ev Hin. apply in_app_or in Hin. destruct Hin as [Hin | Hin].
    + apply at_iteration_index in Hin. lia.
    + eapply Hmid; eauto.
Qed.

(** *** Windows *)

Section WinIteration.
Variable w : world.
Variable it : nat.
Variables b r : Z.

Lemma win_spawn_clean : forall todo i off,
  (forall j, (i <= j < i + todo)%nat -> process_spawn_res w it j = CB_OK) ->
  exists work evs,
    BenchProcessWin.spawn_loop w it b r todo i off
    = (CB_OK, (i + todo)%nat, work, evs)
    /\ (forall j, (i <= j < i + todo)%nat -> In (ProcessSpawn j CB_OK) evs).
Proof.
  induction todo as [|todo IH]; intros i off Hok;
    cbn [BenchProcessWin.spawn_loop].
  - exists [], []. rewrite Nat.add_0_r. repeat split. intros; lia.
  - rewrite (Hok i ltac:(lia)). cbn [is_err cb_error_code Z.eqb negb].
    destruct (IH (S i) (off + chunk_len b r (Z.of_nat i))) as (work & evs & E & Hin).
    { intros j Hj. apply Hok. lia. }
    rewrite E. replace (i + S todo)%nat with (S i + todo)%nat by lia.
    eexists _, _. split; [reflexivity|].
    intros j Hj. destruct (Nat.eq_dec j i) as [-> | Hne].
    + now left.
    + right. apply Hin. lia.
Qed.

Lemma win_spawn_loop_fails e : forall todo i off k,
  (i <= k < i + todo)%nat ->
  (forall j, (i <= j < k)%nat -> process_spawn_res w it j = CB_OK) ->
  process_spawn_res w it k = e ->
  e <> CB_OK ->
  exists work evs,
    BenchProcessWin.spawn_loop w it b r todo i off = (e, k, work, evs)
    /\ (forall j, (i <= j < k)%nat -> In (ProcessSpawn j CB_OK) evs).
Proof.
  induction todo as [|todo IH]; intros i off k Hk Hok Hfail He; [lia|].
  cbn [BenchProcessWin.spawn_loop].
  destruct (Nat.eq_dec i k) as [-> | Hne].
  - rewrite Hfail. apply is_err_true in He. rewrite He.
    eexists _, _. split; [reflexivity | intros; lia].
  - rewrite (Hok i ltac:(lia)). cbn [is_err cb_error_code Z.eqb negb].
    destruct (IH (S i) (off + chunk_len b r (Z.of_nat i)) k) as (work & evs & E & Hin);
      [lia | intros j Hj; apply Hok; lia | exact Hfail | exact He |].
    rewrite E. eexists _, _. split; [reflexivity|].
    intros j Hj. destruct (Nat.eq_dec j i) as [-> | Hne'].
    + now left.
    + right. apply Hin. lia.
Qed.

Lemma win_wait_clean : forall todo i,
  (forall j, (i <= j < i + todo)%nat -> process_wait_res w it j = (CB_OK, 0)) ->
  exists evs, BenchProcessWin.wait_loop w it todo i CB_OK = (CB_OK, evs).
Proof.
  induction todo as [|todo IH]; intros i Hok; cbn [BenchProcessWin.wait_loop].
  - eexists. reflexivity.
  - rewrite (Hok i ltac:(lia)).
    cbn [fst snd is_err cb_error_code Z.eqb negb].
    destruct (IH (S i)) as (evs & E). { intros j Hj. apply Hok. lia. }
    rewrite E. eexists. reflexivity.
Qed.

End WinIteration.

Lemma win_iteration_clean w m c nz it :
  win_clean w (Z.to_nat nz) it ->
  exists total evs m',
    BenchProcessWin.process_iteration w m c nz it = (CB_OK, total, evs, m').
Proof.
  intros Hc. unfold BenchProcessWin.process_iteration.
  destruct (win_spawn_clean w it (Z.quot (array_length c) nz)
              (Z.rem (array_length c) nz) (Z.to_nat nz) 0 0)
    as (work & evs1 & -> & _).
  { intros j Hj. now destruct (Hc j ltac:(lia)). }
  cbn [is_err cb_error_code Z.eqb negb Nat.add].
  destruct (win_wait_clean w it (Z.to_nat nz) 0) as (evs2 & ->).
  { intros j Hj. now destruct (Hc j ltac:(lia)). }
  cbn [is_err cb_error_code Z.eqb negb].
  eexists _, _, _. reflexivity.
Qed.

Lemma win_iteration_fails w m c nz it k e :
  win_spawn_fails w (Z.to_nat nz) it k e ->
  exists total evs m',
    BenchProcessWin.process_iteration w m c nz it
    = (e, total, evs ++ kill_and_reap k, m')
    /\ (forall j, (j < k)%nat -> In (ProcessSpawn j CB_OK) evs).
Proof.
  intros (Hk & He & Hok & Hs). unfold BenchProcessWin.process_iteration.
  pose proof (proj2 (is_err_true e) He) as Herr.
  destruct (win_spawn_loop_fails w it (Z.quot (array_length c) nz)
              (Z.rem (array_length c) nz) e (Z.to_nat nz) 0 0 k)
    as (work & evs1 & -> & Hin); [lia | | exact Hs | exact He |].
  { intros j Hj. apply Hok. lia. }
  rewrite Herr. eexists _, evs1, _. split; [reflexivity|].
  intros j Hj. apply Hin. lia.
Qed.

(** The calls of an iteration do not depend on what the segment holds. *)
Lemma win_iteration_calls_any_segment w m1 m2 c nz it :
  fst (fst (fst (BenchProcessWin.process_iteration w m1 c nz it)))
  = fst (fst (fst (BenchProcessWin.process_iteration w m2 c nz it)))
  /\ snd (fst (BenchProcessWin.process_iteration w m1 c nz it))
     = snd (fst (BenchProcessWin.process_iteration w m2 c nz it)).
Proof.
  unfold BenchProcessWin.process_iteration.
  destruct (BenchProcessWin.spawn_loop w it _ _ (Z.to_nat nz) 0 0)
    as [[[e1 spawned] work] evs1].
  destruct (is_err e1); [split; reflexivity|].
  destruct (BenchProcessWin.wait_loop w it spawned 0 e1) as [e2 evs2].
  destruct (is_err e2); split; reflexivity.
Qed.

Lemma win_iterations_fail w c nz it e evs :
  (forall m, exists total m',
     BenchProcessWin.process_iteration w m c nz it = (e, total, evs, m')) ->
  is_err e = true ->
  forall todo iter m times vs tr,
    (iter <= it < iter + todo)%nat ->
    (forall it', (iter <= it' < it)%nat -> win_clean w (Z.to_nat nz) it') ->
    exists times' vs' mid,
      BenchProcessWin.process_iterations w m c nz todo iter times vs tr
      = (e, times', vs', tr ++ mid ++ at_iteration it evs)
      /\ (forall it' ev, In (it', ev) mid -> (it' < it)%nat).
Proof.
  intros Hit Herr.
  induction todo as [|todo IH]; intros iter m times vs tr Hrange Hclean; [lia|].
  cbn [BenchProcessWin.process_iterations].
  destruct (Nat.eq_dec iter it) as [-> | Hne].
  - destruct (Hit m) as (total & m' & ->).
    rewrite Herr. exists times, vs, []. split; [reflexivity|].
    intros it' ev [].
  - destruct (win_iteration_clean w m c nz iter) as (total0 & evs0 & m0 & ->).
    { apply Hclean. lia. }
    cbn [is_err cb_error_code Z.eqb negb].
    match goal with
    | |- context [BenchProcessWin.process_iterations _ ?m' _ _ _ _ ?t ?v ?r] =>
      destruct (IH (S iter) m' t v r) as (times' & vs' & mid & -> & Hmid);
        [lia | intros it' Hit'; apply Hclean; lia |]
    end.
    exists times', vs', (at_iteration iter evs0 ++ mid).
    split; [now rewrite <- !app_assoc|].
    intros it' ev Hin. apply in_app_or in Hin. destruct Hin as [Hin | Hin].
    + apply at_iteration_index in Hin. lia.
    + eapply Hmid; eauto.
Qed.

(** *** Closing a pipe end *)

(** What [cb_pipe_close_write] and [cb_pipe_close_read] return reaches
    nothing in the Unix coordinator. *)
Lemma unix_spawn_loop_closes w cw cr it b r : forall todo i off,
  BenchProcessUnix.spawn_loop (Samples.with_closes w cw cr) it b r todo i off
  = BenchProcessUnix.spawn_loop w it b r todo i off.
Proof.
  induction todo as [|todo IH]; intros i off; cbn [BenchProcessUnix.spawn_loop].
  - reflexivity.
  - cbn [Samples.with_closes pipe_create_res process_spawn_res].
    destruct (is_err (pipe_create_res w it i)); [reflexivity|].
    destruct (is_err (process_spawn_res w it i)); [reflexivity|].
    now rewrite IH.
Qed.

Lemma unix_read_loop_closes w cw cr it d : forall work i acc,
  BenchProcessUnix.read_loop (Samples.with_closes w cw cr) it d work i acc
  = BenchProcessUnix.read_loop w it d work i acc.
Proof.
  induction work as [|s work IH]; intros i acc; cbn [BenchProcessUnix.read_loop].
  - reflexivity.
  - cbn [Samples.with_closes pipe_read_res worker_clock].
    destruct (is_err (pipe_read_res w it i)); [reflexivity|].
    now rewrite IH.
Qed.

Lemma unix_wait_loop_closes w cw cr it : forall todo i err,
  BenchProcessUnix.wait_loop (Samples.with_closes w cw cr) it todo i err
  = BenchProcessUnix.wait_loop w it todo i err.
Proof.
  induction todo as [|todo IH]; intros i err; cbn [BenchProcessUnix.wait_loop].
  - reflexivity.
  - cbn [Samples.with_closes process_wait_res]. now rewrite IH.
Qed.

Lemma unix_iteration_closes w cw cr d c nz it :
  BenchProcessUnix.process_iteration (Samples.with_closes w cw cr) d c nz it
  = BenchProcessUnix.process_iteration w d c nz it.
Proof.
  unfold BenchProcessUnix.process_iteration.
  rewrite unix_spawn_loop_closes.
  destruct (BenchProcessUnix.spawn_loop w it _ _ (Z.to_nat nz) 0 0)
    as [[[e1 spawned] work] evs1].
  destruct (is_err e1); [reflexivity|].
  rewrite unix_read_loop_closes.
  destruct (BenchProcessUnix.read_loop w it d work 0 0) as [[e2 total] evs2].
  destruct (is_err e2); [reflexivity|].
  now rewrite unix_wait_loop_closes.
Qed.

Lemma unix_iterations_closes w cw cr d c nz : forall todo iter times vs tr,
  BenchProcessUnix.process_iterations (Samples.with_closes w cw cr) d c nz
    todo iter times vs tr
  = BenchProcessUnix.process_iterations w d c nz todo iter times vs tr.
Proof.
  induction todo as [|todo IH]; intros iter times vs tr;
    cbn [BenchProcessUnix.process_iterations].
  - reflexivity.
  - rewrite unix_iteration_closes.
    destruct (BenchProcessUnix.process_iteration w d c nz iter)
      as [[err total] evs].
    destruct (is_err err); [reflexivity|].
    cbn [Samples.with_closes coord_clock]. apply IH.
Qed.

Lemma unix_run_closes w cw cr d c r :
  BenchProcessUnix.cb_bench_process_run (Samples.with_closes w cw cr) d c r
  = BenchProcessUnix.cb_bench_process_run w d c r.
Proof.
  unfold BenchProcessUnix.cb_bench_process_run.
  destruct d as [d|]; [|reflexivity]. destruct c as [c|]; [|reflexivity].
  destruct r as [r|]; [|reflexivity].
  cbn [Samples.with_closes alloc_ok].
  destruct (negb (alloc_ok w)); [reflexivity|].
  now rewrite unix_iterations_closes.
Qed.

(** C4 (as stated) fails for the closing of a pipe end, which is a pipe
    operation too: the coordinator calls [cb_pipe_close_write] and
    [cb_pipe_close_read] as statements.  When the close of worker 1's write
    end fails in iteration 0, no error is returned, no worker is killed and
    the next iteration runs. *)
Lemma teardown_close_counterexample :
  ~ (forall w d c r it k e,
       alloc_ok w = true ->
       (it < Z.to_nat (iterations c))%nat ->
       (forall it', (it' < it)%nat ->
          unix_clean w (Z.to_nat (num_processes c)) it') ->
       unix_close_fails w (Z.to_nat (num_processes c)) it k e ->
       exists tr pre,
         BenchProcessUnix.cb_bench_process_run w (Some d) (Some c) (Some r)
         = (e, Some r, tr)
         /\ tr = pre ++ at_iteration it (kill_and_reap k)
         /\ (forall it' ev, In (it', ev) tr -> (it' <= it)%nat)).
Proof.
  intros H.
  destruct (H CoordinatorSpec.close_fails_world Samples.sample_dataset
              Samples.sample_config Samples.blank_report 0%nat 1%nat CB_ERR_PIPE)
    as (tr & pre & E & _).
  - reflexivity.
  - cbn. lia.
  - intros it' Hit'. lia.
  - split; [cbn; lia|]. split; [discriminate|].
    split; [|reflexivity]. intros i Hi. repeat split.
  - unfold CoordinatorSpec.close_fails_world in E.
    rewrite unix_run_closes in E. vm_compute in E. discriminate.
Qed.

(** What the run does instead: it succeeds, through both iterations, and
    the only calls on a worker are the ordinary ones. *)
Example teardown_close_ignored :
  fst (fst (BenchProcessUnix.cb_bench_process_run
              CoordinatorSpec.close_fails_world (Some Samples.sample_dataset)
              (Some Samples.sample_config) (Some Samples.blank_report)))
  = CB_OK
  /\ snd (BenchProcessUnix.cb_bench_process_run
            CoordinatorSpec.close_fails_world (Some Samples.sample_dataset)
            (Some Samples.sample_config) (Some Samples.blank_report))
     = TraceSpec.repeated (TraceSpec.unix_iteration_calls 3) 2.
Proof. split; vm_compute; reflexivity. Qed.

(** C4 (amended) -- Partial-failure teardown.  In the process coordinator,
    when in iteration [it] (all earlier iterations having run without a
    failing call) the pipe creation or the spawn of worker [k] fails, or the
    read of worker [k]'s pipe fails, every worker already spawned in that
    iteration (workers [0 .. k-1], all [n] for a failed read) is killed and
    waited on as the last thing the run does, the failing call's error is
    returned, the report is untouched, and no call of a later iteration is
    made.  On Windows the same holds for a failing spawn, and a failing
    shared-memory creation returns its error before any worker exists.
    What the closing of a pipe end returns is not looked at: whatever
    [cb_pipe_close_write] and [cb_pipe_close_read] answer, the run is the
    same. *)
Theorem teardown_after_failure :
  (forall w d c r it k f e,
     alloc_ok w = true ->
     (it < Z.to_nat (iterations c))%nat ->
     (forall it', (it' < it)%nat ->
        unix_clean w (Z.to_nat (num_processes c)) it') ->
     unix_fails w (Z.to_nat (num_processes c)) it k f e ->
     exists tr pre,
       BenchProcessUnix.cb_bench_process_run w (Some d) (Some c) (Some r)
       = (e, Some r, tr)
       /\ tr = pre ++ at_iteration it
                 (kill_and_reap (spawned_at f (Z.to_nat (num_processes c)) k))
       /\ (forall j, (j < spawned_at f (Z.to_nat (num_processes c)) k)%nat ->
             In (it, ProcessSpawn j CB_OK) pre)
       /\ (forall it' ev, In (it', ev) tr -> (it' <= it)%nat))
  /\ (forall w d c r it k e,
        exe_path_res w = CB_OK -> alloc_ok w = true ->
        shared_mem_create_res w = CB_OK ->
        (it < Z.to_nat (iterations c))%nat ->
        (forall it', (it' < it)%nat ->
           win_clean w (Z.to_nat (num_processes c)) it') ->
        win_spawn_fails w (Z.to_nat (num_processes c)) it k e ->
        exists tr pre,
          BenchProcessWin.cb_bench_process_run w (Some d) (Some c) (Some r)
          = (e, Some r, tr)
          /\ tr = pre ++ at_iteration it (kill_and_reap k)
          /\ (forall j, (j < k)%nat -> In (it, ProcessSpawn j CB_OK) pre)
          /\ (forall it' ev, In (it', ev) tr -> (it' <= it)%nat))
  /\ (forall w d c r,
        exe_path_res w = CB_OK -> alloc_ok w = true ->
        shared_mem_create_res w <> CB_OK ->
        BenchProcessWin.cb_bench_process_run w (Some d) (Some c) (Some r)
        = (shared_mem_create_res w, Some r, []))
  /\ (forall w close_write close_read d c r,
        BenchProcessUnix.cb_bench_process_run
          (Samples.with_closes w close_write close_read) d c r
        = BenchProcessUnix.cb_bench_process_run w d c r).
Proof.
  split; [|split; [|split]]; [| | |exact unix_run_closes].
  - intros w d c r it k f e Halloc Hit Hclean Hfail.
    destruct (unix_iteration_fails w d c (num_processes c) it k f e Hfail)
      as (total & evs & Eit & Hspawned).
    pose proof (proj2 (is_err_true e) (proj1 (proj2 Hfail))) as Herr.
    destruct (unix_iterations_fail w d c (num_processes c) it e total _ Eit Herr
                (Z.to_nat (iterations c)) 0%nat [] 0 [])
      as (times' & vs' & mid & Erun & Hmid); [lia | intros; apply Hclean; lia |].
    unfold BenchProcessUnix.cb_bench_process_run.
    rewrite Halloc. cbn [negb]. rewrite Erun, Herr. cbn [app].
    eexists _, (mid ++ at_iteration it evs).
    split; [reflexivity|]. split; [|split].
    + now rewrite at_iteration_app, <- app_assoc.
    + intros j Hj. apply in_or_app. right. apply in_at_iteration. now apply Hspawned.
    + intros it' ev Hin. apply in_app_or in Hin. destruct Hin as [Hin | Hin].
      * apply Hmid in Hin. lia.
      * apply at_iteration_index in Hin. lia.
  - intros w d c r it k e Hexe Halloc Hshm Hit Hclean Hfail.
    pose proof (proj2 (is_err_true e) (proj1 (proj2 Hfail))) as Herr.
    destruct (win_iteration_fails w
                (SharedMemWin.mk_segment d
                   (fun _ => {| sum := 0; elapsed_sec := 0%float |}))
                c (num_processes c) it k e Hfail)
      as (total0 & evs & m0 & Eit0 & Hspawned).
    assert (Eit : forall m, exists total m',
              BenchProcessWin.process_iteration w m c (num_processes c) it
              = (e, total, evs ++ kill_and_reap k, m')).
    { intros m.
      destruct (win_iteration_calls_any_segment w m
                  (SharedMemWin.mk_segment d
                     (fun _ => {| sum := 0; elapsed_sec := 0%float |}))
                  c (num_processes c) it) as [He Hevs].
      rewrite Eit0 in He, Hevs. cbn [fst snd] in He, Hevs.
      destruct (BenchProcessWin.process_iteration w m c (num_processes c) it)
        as [[[e' total'] evs'] m'].
      cbn [fst snd] in He, Hevs. subst e' evs'. eexists _, _. reflexivity. }
    destruct (win_iterations_fail w c (num_processes c) it e _ Eit Herr
                (Z.to_nat (iterations c)) 0%nat
                (SharedMemWin.mk_segment d
                   (fun _ => {| sum := 0; elapsed_sec := 0%float |}))
                [] 0 [])
      as (times' & vs' & mid & Erun & Hmid); [lia | intros; apply Hclean; lia |].
    unfold BenchProcessWin.cb_bench_process_run.
    rewrite Hexe, Halloc, Hshm. cbn [negb is_err cb_error_code Z.eqb]. cbn zeta.
    rewrite Erun, Herr. cbn [app].
    eexists _, (mid ++ at_iteration it evs).
    split; [reflexivity|]. split; [|split].
    + now rewrite at_iteration_app, <- app_assoc.
    + intros j Hj. apply in_or_app. right. apply in_at_iteration. now apply Hspawned.
    + intros it' ev Hin. apply in_app_or in Hin. destruct Hin as [Hin | Hin].
      * apply Hmid in Hin. lia.
      * apply at_iteration_index in Hin. lia.
  - intros w d c r Hexe Halloc Hshm.
    unfold BenchProcessWin.cb_bench_process_run.
    rewrite Hexe, Halloc. cbn [negb is_err cb_error_code Z.eqb].
    apply is_err_true in Hshm. now rewrite Hshm.
Qed.

Lemma teardown_after_failure_witness :
  exists tr pre,
    BenchProcessUnix.cb_bench_process_run Samples.spawn_fails_world
      (Some Samples.sample_dataset) (Some Samples.sample_config)
      (Some Samples.blank_report)
    = (CB_ERR_FORK, Some Samples.blank_report, tr)
    /\ tr = pre ++ at_iteration 1 (kill_and_reap 2)
    /\ (forall j, (j < 2)%nat -> In (1%nat, ProcessSpawn j CB_OK) pre)
    /\ (forall it' ev, In (it', ev) tr -> (it' <= 1)%nat).
Proof.
  apply (proj1 teardown_after_failure Samples.spawn_fails_world
           Samples.sample_dataset Samples.sample_config Samples.blank_report
           1%nat 2%nat SpawnFails CB_ERR_FORK).
  - reflexivity.
  - cbn. lia.
  - intros it' Hit' i Hi. assert (it' = 0%nat) by lia. subst it'.
    repeat split.
  - split; [cbn; lia|]. split; [discriminate|].
    split; [|split; reflexivity].
    intros i Hi. destruct i as [|[|i]]; [split; reflexivity.. | lia].
Defined.

End TeardownFacts.

(** ** Dataset generation *)

Module DatasetFacts.
Import Dataset.

Section WithRand.
Variable prng : Type.
Variable srand : Z -> prng.
Variable rand : prng -> Z * prng.
Hypothesis rand_nonneg : forall st, 0 <= fst (rand st).

Lemma populate_range v ps : forall todo st i,
  let data := fst (fst (populate prng rand v ps st todo i)) in
  length data = todo /\ Forall (fun x => 1 <= x <= 100) data.
Proof.
  induction todo as [|todo IH]; intros st i; cbn [populate].
  - split; [reflexivity | constructor].
  - pose proof (rand_nonneg st) as Hx.
    destruct (rand st) as [x st'] eqn:Er. cbn [fst] in Hx.
    specialize (IH st' (i + 1)).
    destruct (populate prng rand v ps st' todo (i + 1)) as [[data marks] st''].
    cbn [fst] in *. destruct IH as [Hl Hr]. split.
    + cbn [length]. now rewrite Hl.
    + constructor; [|exact Hr].
      pose proof (Z.rem_bound_pos x 100 Hx ltac:(lia)). lia.
Qed.

Lemma populate_data_only v1 v2 ps1 ps2 : forall todo st i1 i2,
  fst (fst (populate prng rand v1 ps1 st todo i1))
  = fst (fst (populate prng rand v2 ps2 st todo i2)).
Proof.
  induction todo as [|todo IH]; intros st i1 i2; cbn [populate].
  - reflexivity.
  - destruct (rand st) as [x st'].
    specialize (IH st' (i1 + 1) (i2 + 1)).
    destruct (populate prng rand v1 ps1 st' todo (i1 + 1)) as [[d1 m1] s1].
    destruct (populate prng rand v2 ps2 st' todo (i2 + 1)) as [[d2 m2] s2].
    cbn [fst] in *. now rewrite IH.
Qed.

Lemma dataset_create_fixed_seed (c : cb_config_t) e out v :
  seed c <> 0 -> malloc_ok e = true ->
  exists marks,
    cb_dataset_create prng srand rand e (Some c) (Some out) v
    = (CB_OK, Some c,
       Some (Some (fst (fst (populate prng rand false 1 (srand (seed c))
                               (Z.to_nat (array_length c)) 0)))),
       marks).
Proof.
  intros Hs Hm. unfold cb_dataset_create.
  destruct (Z.eqb_spec (seed c) 0) as [E | _]; [contradiction|].
  rewrite Hm. cbn [negb].
  set (ps := if Z.quot (array_length c) 10 =? 0 then 1
             else Z.quot (array_length c) 10).
  rewrite (populate_data_only false v 1 ps _ _ 0 0).
  destruct (populate prng rand v ps (srand (seed c))
              (Z.to_nat (array_length c)) 0) as [[data marks] st].
  exists marks. reflexivity.
Qed.

End WithRand.

(** C8 -- With a nonzero configured seed, two runs of [cb_dataset_create]
    (whatever the time of day, the verbose flag and the previous content of
    the output pointer, and for any C library generator whose [rand] is
    never negative) succeed with the same dataset, of [array_length]
    elements that all lie in [[1, 100]], and leave the configuration, its
    seed included, as it was. *)
Theorem dataset_reproducible (prng : Type) (srand : Z -> prng)
  (rand : prng -> Z * prng) (c : cb_config_t) :
  (forall st, 0 <= fst (rand st)) ->
  seed c <> 0 ->
  forall e1 e2 out1 out2 v1 v2,
    malloc_ok e1 = true -> malloc_ok e2 = true ->
    exists data marks1 marks2,
      cb_dataset_create prng srand rand e1 (Some c) (Some out1) v1
      = (CB_OK, Some c, Some (Some data), marks1)
      /\ cb_dataset_create prng srand rand e2 (Some c) (Some out2) v2
         = (CB_OK, Some c, Some (Some data), marks2)
      /\ length data = Z.to_nat (array_length c)
      /\ Forall (fun x => 1 <= x <= 100) data.
Proof.
  intros Hrand Hs e1 e2 out1 out2 v1 v2 Hm1 Hm2.
  destruct (dataset_create_fixed_seed prng srand rand c e1 out1 v1 Hs Hm1)
    as (m1 & E1).
  destruct (dataset_create_fixed_seed prng srand rand c e2 out2 v2 Hs Hm2)
    as (m2 & E2).
  eexists _, m1, m2. split; [exact E1|]. split; [exact E2|].
  apply (populate_range prng rand Hrand).
Qed.

Lemma iso_rand_nonneg (st : Z) : 0 <= fst (iso_rand st).
Proof.
  unfold iso_rand. cbn [fst]. apply Z.mod_pos_bound. lia.
Qed.

Lemma dataset_reproducible_witness :
  exists data marks1 marks2,
    cb_dataset_create Z iso_srand iso_rand DatasetSamples.morning
      (Some DatasetSamples.config_314159) (Some None) false
    = (CB_OK, Some DatasetSamples.config_314159, Some (Some data), marks1)
    /\ cb_dataset_create Z iso_srand iso_rand DatasetSamples.evening
         (Some DatasetSamples.config_314159) (Some (Some [7])) true
       = (CB_OK, Some DatasetSamples.config_314159, Some (Some data), marks2)
    /\ length data = Z.to_nat (array_length DatasetSamples.config_314159)
    /\ Forall (fun x => 1 <= x <= 100) data.
Proof.
  apply (dataset_reproducible Z iso_srand iso_rand DatasetSamples.config_314159
           iso_rand_nonneg).
  - discriminate.
  - reflexivity.
  - reflexivity.
Defined.

End DatasetFacts.

(** ** The input layer *)

Module InputFacts.
Import Input.

Section WithLibc.
Variable strtol : String.string -> strto_result.
Variable strtoul : String.string -> strto_result.
Variable atoi : String.string -> Z.

Lemma read_long_range lo hi : forall stdin v rest,
  read_long strtol stdin lo hi = (CB_OK, Some v, rest) -> lo <= v <= hi.
Proof.
  induction stdin as [|line stdin IH]; intros v rest; cbn [read_long].
  - discriminate.
  - destruct (st_end (strtol (strip_newline line)) =? 0)%nat; [apply IH|].
    destruct (st_end (strtol (strip_newline line))
              <? String.length (strip_newline line))%nat; [apply IH|].
    destruct (st_erange (strtol (strip_newline line))); [apply IH|].
    destruct (Z.ltb_spec (st_val (strtol (strip_newline line))) lo) as [Hlo | Hlo];
      cbn [orb]; [apply IH|].
    destruct (Z.ltb_spec hi (st_val (strtol (strip_newline line)))) as [Hhi | Hhi];
      [apply IH|].
    intros H. injection H as <- _. lia.
Qed.

Lemma read_long_ok_value lo hi stdin rest :
  read_long strtol stdin lo hi <> (CB_OK, None, rest).
Proof.
  revert rest. induction stdin as [|line stdin IH]; intros rest; cbn [read_long].
  - discriminate.
  - destruct (st_end (strtol (strip_newline line)) =? 0)%nat; [apply IH|].
    destruct (st_end (strtol (strip_newline line))
              <? String.length (strip_newline line))%nat; [apply IH|].
    destruct (st_erange (strtol (strip_newline line))); [apply IH|].
    destruct ((st_val (strtol (strip_newline line)) <? lo)
              || (hi <? st_val (strtol (strip_newline line)))); [apply IH|].
    discriminate.
Qed.

Lemma read_ulong_ok_value lo hi stdin rest :
  read_ulong strtoul stdin lo hi <> (CB_OK, None, rest).
Proof.
  revert rest. induction stdin as [|line stdin IH]; intros rest; cbn [read_ulong].
  - discriminate.
  - destruct (Ascii.eqb (first_char (strip_newline line)) "-"%char); [apply IH|].
    destruct (st_end (strtoul (strip_newline line)) =? 0)%nat; [apply IH|].
    destruct (st_end (strtoul (strip_newline line))
              <? String.length (strip_newline line))%nat; [apply IH|].
    destruct (st_erange (strtoul (strip_newline line))); [apply IH|].
    destruct ((st_val (strtoul (strip_newline line)) <? lo)
              || (hi <? st_val (strtoul (strip_newline line)))); [apply IH|].
    discriminate.
Qed.

Ltac read_step E :=
  match goal with
  | |- context [read_long strtol ?i ?lo ?hi] =>
    let e := fresh "e" in
    destruct (read_long strtol i lo hi) as [[e [?|]] ?] eqn:E;
    [ destruct e; try (intros ?; discriminate)
    | destruct e; try (intros ?; discriminate);
      exfalso; eapply read_long_ok_value; eassumption ]
  | |- context [read_ulong strtoul ?i ?lo ?hi] =>
    let e := fresh "e" in
    destruct (read_ulong strtoul i lo hi) as [[e [?|]] ?] eqn:E;
    [ destruct e; try (intros ?; discriminate)
    | destruct e; try (intros ?; discriminate);
      exfalso; eapply read_ulong_ok_value; eassumption ]
  end.

Lemma interactive_iterations (c0 c : cb_config_t) stdin rest :
  cb_input_interactive strtol strtoul (Some c0) stdin = (CB_OK, Some c, rest) ->
  1 <= iterations c <= 100.
Proof.
  unfold cb_input_interactive.
  set (first := if verbose c0 then (CB_OK, c0, stdin)
                else match read_yes_no stdin with
                     | (CB_OK, Some v, rest0) => (CB_OK, set_verbose c0 v, rest0)
                     | (err, _, rest0) => (err, c0, rest0)
                     end).
  destruct first as [[err c1] in1].
  destruct (is_err err) eqn:Eerr.
  { intros H. injection H as -> _ _. discriminate. }
  read_step E2. read_step E3. read_step E4. read_step E5. read_step E6.
  intros H. injection H as <- _. cbn [set_iterations iterations].
  eapply read_long_range; eauto.
Qed.

End WithLibc.

Lemma dataset_create_keeps_iterations (prng : Type) (srand : Z -> prng)
  (rand : prng -> Z * prng) e c out v err c' data marks :
  Dataset.cb_dataset_create prng srand rand e (Some c) out v
  = (err, Some c', data, marks) ->
  iterations c' = iterations c.
Proof.
  unfold Dataset.cb_dataset_create. destruct out as [o|].
  - destruct (seed c =? 0); destruct (negb (Dataset.malloc_ok e));
      try match goal with
          | |- context [Dataset.populate ?a ?b ?c ?d ?e ?f ?g] =>
            destruct (Dataset.populate a b c d e f g) as [[? ?] ?]
          end;
      intros H; injection H as _ <- _ _; reflexivity.
  - intros H. injection H as _ <- _ _. reflexivity.
Qed.

(** C9 -- Every configuration that leaves the input layer ([cb_parse_args]
    on the command line followed by [cb_input_interactive] on standard
    input, for any behaviour of the C library's conversions) has an
    [iterations] value between 1 and 100, and [cb_dataset_create], the
    only later writer of the configuration, keeps that value. *)
Theorem iterations_in_range
  (strtol strtoul : String.string -> strto_result) (atoi : String.string -> Z)
  (argv : list String.string) (stdin : stdin_t) (c : cb_config_t) :
  input_layer strtol strtoul atoi argv stdin = Some c ->
  1 <= iterations c <= 100
  /\ forall (prng : Type) (srand : Z -> prng) (rand : prng -> Z * prng)
            e out v err c' data marks,
       Dataset.cb_dataset_create prng srand rand e (Some c) out v
       = (err, Some c', data, marks) ->
       1 <= iterations c' <= 100.
Proof.
  unfold input_layer.
  destruct (cb_parse_args strtol atoi argv _) as [[] [st|]]; try discriminate.
  destruct (ps_is_worker st); [discriminate|].
  destruct (cb_input_interactive strtol strtoul (Some (ps_config st)) stdin)
    as [[[] [c'|]] rest] eqn:E; try discriminate.
  intros H. injection H as <-.
  assert (Hr : 1 <= iterations c' <= 100)
    by (eapply interactive_iterations; eauto).
  split; [exact Hr|].
  intros prng srand rand e out v err c'' data marks Hd.
  now rewrite (dataset_create_keeps_iterations _ _ _ _ _ _ _ _ _ _ _ Hd).
Qed.

Lemma iterations_in_range_witness :
  Input.input_layer Libc.strtol Libc.strtoul Libc.atoi
    Libc.sample_argv Libc.sample_stdin
  = Some (mk_config 1000000 4 8 314159 20 false)
  /\ 1 <= iterations (mk_config 1000000 4 8 314159 20 false) <= 100.
Proof.
  split; [reflexivity|].
  apply (iterations_in_range Libc.strtol Libc.strtoul Libc.atoi
           Libc.sample_argv Libc.sample_stdin).
  reflexivity.
Defined.

(** The command line alone accepts up to 1000 iterations; it is the
    interactive prompt that enforces the bound. *)
Example parse_args_accepts_500 :
  option_map (fun st => iterations (ps_config st))
    (snd (cb_parse_args Libc.strtol Libc.atoi Libc.sample_argv
            (Some (mk_parse_state (mk_config 0 0 0 0 0 false) false
                     (mk_worker_args 0 String.EmptyString 0 0 0 0)))))
  = Some 500.
Proof. reflexivity. Qed.

End InputFacts.

(** ** The coordinators: further failure paths and the success path *)

Module CoordinatorFacts.
Import Platform Worker Partition Stats SumSpec TeardownSpec CoordinatorSpec.
Import PartitionFacts SumFacts TeardownFacts.

(** *** Threads *)

Lemma create_loop_clean w it : forall todo i,
  (forall j, (i <= j < i + todo)%nat -> thread_create_res w it j = CB_OK) ->
  BenchThread.create_loop w it todo i
  = (CB_OK, map (fun j => ThreadCreate j CB_OK) (seq i todo)).
Proof.
  induction todo as [|todo IH]; intros i Hok; cbn [BenchThread.create_loop seq map].
  - reflexivity.
  - rewrite (Hok i ltac:(lia)). cbn [is_err cb_error_code Z.eqb negb].
    rewrite IH by (intros j Hj; apply Hok; lia). reflexivity.
Qed.

Lemma create_loop_fails w it e : forall todo i k,
  (i <= k < i + todo)%nat ->
  (forall j, (i <= j < k)%nat -> thread_create_res w it j = CB_OK) ->
  thread_create_res w it k = e -> e <> CB_OK ->
  BenchThread.create_loop w it todo i
  = (e, map (fun j => ThreadCreate j CB_OK) (seq i (k - i))
        ++ ThreadCreate k e :: map ThreadJoin (seq 0 k)).
Proof.
  induction todo as [|todo IH]; intros i k Hk Hok Hfail He; [lia|].
  cbn [BenchThread.create_loop].
  destruct (Nat.eq_dec i k) as [-> | Hne].
  - rewrite Hfail. apply is_err_true in He. rewrite He.
    rewrite Nat.sub_diag. reflexivity.
  - rewrite (Hok i ltac:(lia)). cbn [is_err cb_error_code Z.eqb negb].
    rewrite (IH (S i) k) by (try lia; auto; intros j Hj; apply Hok; lia).
    replace (k - i)%nat with (S (k - S i)) by lia. reflexivity.
Qed.

(** The join loop joins every thread once, in order, and returns the error
    it was entered with, or else the first join error. *)
Lemma join_loop_events w it : forall todo i err,
  snd (BenchThread.join_loop w it todo i err) = map ThreadJoin (seq i todo).
Proof.
  induction todo as [|todo IH]; intros i err; cbn [BenchThread.join_loop seq map].
  - reflexivity.
  - match goal with
    | |- context [BenchThread.join_loop w it todo (S i) ?x] =>
      pose proof (IH (S i) x) as IH';
      destruct (BenchThread.join_loop w it todo (S i) x) as [e evs]
    end.
    cbn [snd] in *. now rewrite IH'.
Qed.

Lemma join_loop_keeps w it : forall todo i err,
  is_err err = true -> fst (BenchThread.join_loop w it todo i err) = err.
Proof.
  induction todo as [|todo IH]; intros i err He; cbn [BenchThread.join_loop].
  - reflexivity.
  - specialize (IH (S i)). rewrite He in *. cbn [negb] in *.
    rewrite andb_false_r in *.
    destruct (BenchThread.join_loop w it todo (S i) err) as [e evs] eqn:E.
    cbn [fst]. specialize (IH err He). now rewrite E in IH.
Qed.

Lemma join_loop_clean w it : forall todo i,
  (forall j, (i <= j < i + todo)%nat -> thread_join_res w it j = CB_OK) ->
  fst (BenchThread.join_loop w it todo i CB_OK) = CB_OK.
Proof.
  induction todo as [|todo IH]; intros i Hok; cbn [BenchThread.join_loop].
  - reflexivity.
  - rewrite (Hok i ltac:(lia)). cbn [is_err cb_error_code Z.eqb negb andb].
    specialize (IH (S i)).
    destruct (BenchThread.join_loop w it todo (S i) CB_OK) as [e evs].
    cbn [fst] in *. apply IH. intros j Hj. apply Hok. lia.
Qed.

Lemma join_loop_first_error w it e : forall todo i k,
  (i <= k < i + todo)%nat ->
  (forall j, (i <= j < k)%nat -> thread_join_res w it j = CB_OK) ->
  thread_join_res w it k = e -> e <> CB_OK ->
  fst (BenchThread.join_loop w it todo i CB_OK) = e.
Proof.
  induction todo as [|todo IH]; intros i k Hk Hok Hfail He; [lia|].
  cbn [BenchThread.join_loop].
  destruct (Nat.eq_dec i k) as [-> | Hne].
  - rewrite Hfail. apply is_err_true in He. rewrite He.
    cbn [is_err cb_error_code Z.eqb negb andb].
    pose proof (join_loop_keeps w it todo (S k) e He) as Hk'.
    destruct (BenchThread.join_loop w it todo (S k) e) as [e' evs].
    exact Hk'.
  - rewrite (Hok i ltac:(lia)). cbn [is_err cb_error_code Z.eqb negb andb].
    specialize (IH (S i) k).
    destruct (BenchThread.join_loop w it todo (S i) CB_OK) as [e' evs].
    cbn [fst] in *. apply IH; auto; try lia. intros j Hj. apply Hok. lia.
Qed.

Lemma thread_iteration_clean w d c nz it :
  thread_clean w (Z.to_nat nz) it ->
  exists shared evs,
    BenchThread.thread_iteration w d c nz it = (CB_OK, shared, evs).
Proof.
  intros Hc. unfold BenchThread.thread_iteration.
  rewrite create_loop_clean by (intros j Hj; apply Hc; lia).
  cbn [is_err cb_error_code Z.eqb negb].
  pose proof (join_loop_clean w it (Z.to_nat nz) 0) as Hj.
  destruct (BenchThread.join_loop w it (Z.to_nat nz) 0 CB_OK) as [e evs].
  cbn [fst] in Hj. rewrite Hj by (intros j Hj'; apply Hc; lia).
  eexists _, _. reflexivity.
Qed.

Lemma thread_iteration_create_fails w d c nz it k e :
  thread_create_fails w (Z.to_nat nz) it k e ->
  exists evs,
    BenchThread.thread_iteration w d c nz it
    = (e, shared_init, evs ++ ThreadCreate k e :: map ThreadJoin (seq 0 k))
    /\ (forall j, (j < k)%nat -> In (ThreadCreate j CB_OK) evs).
Proof.
  intros (Hk & He & Hok & Hf). unfold BenchThread.thread_iteration.
  rewrite (create_loop_fails w it e (Z.to_nat nz) 0 k)
    by (try lia; auto; intros j Hj; apply Hok; lia).
  apply is_err_true in He. rewrite He. eexists. split; [reflexivity|].
  intros j Hj. rewrite Nat.sub_0_r.
  apply (in_map (fun j => ThreadCreate j CB_OK)), in_seq. lia.
Qed.

Lemma thread_iteration_join_fails w d c nz it k e :
  thread_join_fails w (Z.to_nat nz) it k e ->
  exists shared evs,
    BenchThread.thread_iteration w d c nz it
    = (e, shared, evs ++ map ThreadJoin (seq 0 (Z.to_nat nz)))
    /\ (forall j, (j < Z.to_nat nz)%nat -> In (ThreadCreate j CB_OK) evs).
Proof.
  intros (Hk & He & Hc & Hok & Hf). unfold BenchThread.thread_iteration.
  rewrite create_loop_clean by (intros j Hj; apply Hc; lia).
  cbn [is_err cb_error_code Z.eqb negb].
  pose proof (join_loop_first_error w it e (Z.to_nat nz) 0 k) as Hj.
  pose proof (join_loop_events w it (Z.to_nat nz) 0 CB_OK) as Hev.
  destruct (BenchThread.join_loop w it (Z.to_nat nz) 0 CB_OK) as [e' evs].
  cbn [fst snd] in Hj, Hev.
  rewrite Hj by (try lia; auto; intros j Hj'; apply Hok; lia).
  subst evs. eexists _, _. split; [reflexivity|].
  intros j Hj'. apply (in_map (fun j => ThreadCreate j CB_OK)), in_seq. lia.
Qed.

Lemma thread_iterations_fail w d c nz it e shared evs :
  BenchThread.thread_iteration w d c nz it = (e, shared, evs) ->
  is_err e = true ->
  forall todo iter times vs tr,
    (iter <= it < iter + todo)%nat ->
    (forall it', (iter <= it' < it)%nat -> thread_clean w (Z.to_nat nz) it') ->
    exists times' vs' mid,
      BenchThread.thread_iterations w d c nz todo iter times vs tr
      = (e, times', vs', tr ++ mid ++ at_iteration it evs)
      /\ (forall it' ev, In (it', ev) mid -> (it' < it)%nat).
Proof.
  intros Hit Herr.
  induction todo as [|todo IH]; intros iter times vs tr Hrange Hclean; [lia|].
  cbn [BenchThread.thread_iterations].
  destruct (Nat.eq_dec iter it) as [-> | Hne].
  - rewrite Hit, Herr. exists times, vs, []. split; [reflexivity|].
    intros it' ev [].
  - destruct (thread_iteration_clean w d c nz iter) as (sh0 & evs0 & ->).
    { apply Hclean. lia. }
    cbn [is_err cb_error_code Z.eqb negb].
    match goal with
    | |- context [BenchThread.thread_iterations _ _ _ _ _ _ ?t ?v ?r] =>
      destruct (IH (S iter) t v r) as (times' & vs' & mid & -> & Hmid);
        [lia | intros it' Hit'; apply Hclean; lia |]
    end.
    exists times', vs', (at_iteration iter evs0 ++ mid).
    split; [now rewrite <- !app_assoc|].
    intros it' ev Hin. apply in_app_or in Hin. destruct Hin as [Hin | Hin].
    + apply at_iteration_index in Hin. lia.
    + eapply Hmid; eauto.
Qed.

Lemma thread_run_fails w d c r it e shared evs :
  alloc_ok w = true -> mutex_init_res w = CB_OK ->
  (it < Z.to_nat (iterations c))%nat ->
  (forall it', (it' < it)%nat ->
     thread_clean w (Z.to_nat (num_threads c)) it') ->
  BenchThread.thread_iteration w d c (num_threads c) it = (e, shared, evs) ->
  is_err e = true ->
  exists pre,
    BenchThread.cb_bench_thread_run w (Some d) (Some c) (Some r)
    = (e, Some r, pre ++ at_iteration it evs)
    /\ (forall it' ev, In (it', ev) pre -> (it' < it)%nat).
Proof.
  intros Halloc Hmutex Hit Hclean Eit Herr.
  destruct (thread_iterations_fail w d c (num_threads c) it e shared evs Eit Herr
              (Z.to_nat (iterations c)) 0%nat [] 0 [])
    as (times' & vs' & mid & Erun & Hmid); [lia | intros; apply Hclean; lia |].
  unfold BenchThread.cb_bench_thread_run.
  rewrite Halloc, Hmutex. cbn [negb is_err cb_error_code Z.eqb].
  rewrite Erun, Herr. cbn [app]. exists mid. split; [reflexivity | exact Hmid].
Qed.

(** X1 -- When the creation of thread [k] fails in iteration [it] of the
    thread coordinator, the threads [0 .. k-1] created in that iteration
    are joined, in order, as the last thing the run does; the creation
    error is returned, the report is untouched and no later iteration
    starts. *)
Theorem thread_create_failure_joins w d c r it k e :
  alloc_ok w = true -> mutex_init_res w = CB_OK ->
  (it < Z.to_nat (iterations c))%nat ->
  (forall it', (it' < it)%nat ->
     thread_clean w (Z.to_nat (num_threads c)) it') ->
  thread_create_fails w (Z.to_nat (num_threads c)) it k e ->
  exists tr pre,
    BenchThread.cb_bench_thread_run w (Some d) (Some c) (Some r)
    = (e, Some r, tr)
    /\ tr = pre ++ at_iteration it (ThreadCreate k e :: map ThreadJoin (seq 0 k))
    /\ (forall j, (j < k)%nat -> In (it, ThreadCreate j CB_OK) pre)
    /\ (forall it' ev, In (it', ev) tr -> (it' <= it)%nat).
Proof.
  intros Halloc Hmutex Hit Hclean Hfail.
  destruct (thread_iteration_create_fails w d c (num_threads c) it k e Hfail)
    as (evs & Eit & Hin).
  pose proof (proj2 (is_err_true e) (proj1 (proj2 Hfail))) as Herr.
  destruct (thread_run_fails w d c r it e _ _ Halloc Hmutex Hit Hclean Eit Herr)
    as (pre & Erun & Hpre).
  eexists _, (pre ++ at_iteration it evs). split; [exact Erun|].
  split; [now rewrite at_iteration_app, app_assoc|]. split.
  - intros j Hj. apply in_or_app. right. now apply in_at_iteration, Hin.
  - intros it' ev H. apply in_app_or in H. destruct H as [H | H].
    + apply Hpre in H. lia.
    + apply at_iteration_index in H. lia.
Qed.

Lemma thread_create_failure_joins_witness :
  exists tr pre,
    BenchThread.cb_bench_thread_run
      (world_with (fails_at 1 2 CB_ERR_THREAD) all_ok waits_ok)
      (Some Samples.sample_dataset) (Some Samples.sample_config)
      (Some Samples.blank_report)
    = (CB_ERR_THREAD, Some Samples.blank_report, tr)
    /\ tr = pre ++ at_iteration 1
               (ThreadCreate 2 CB_ERR_THREAD :: map ThreadJoin (seq 0 2))
    /\ (forall j, (j < 2)%nat -> In (1%nat, ThreadCreate j CB_OK) pre)
    /\ (forall it' ev, In (it', ev) tr -> (it' <= 1)%nat).
Proof.
  apply (thread_create_failure_joins
           (world_with (fails_at 1 2 CB_ERR_THREAD) all_ok waits_ok)
           Samples.sample_dataset Samples.sample_config Samples.blank_report
           1%nat 2%nat CB_ERR_THREAD).
  - reflexivity.
  - reflexivity.
  - cbn. lia.
  - intros it' Hit' i Hi. assert (it' = 0%nat) by lia. subst it'.
    split; reflexivity.
  - split; [cbn; lia|]. split; [discriminate|]. split; [|reflexivity].
    intros i Hi. destruct i as [|[|i]]; [reflexivity.. | lia].
Defined.

(** X2 -- When a join fails in iteration [it] of the thread coordinator,
    the join loop still joins every one of the [n] threads, in order; the
    run then returns the first join error, leaves the report untouched and
    starts no later iteration. *)
Theorem thread_join_failure_joins_all w d c r it k e :
  alloc_ok w = true -> mutex_init_res w = CB_OK ->
  (it < Z.to_nat (iterations c))%nat ->
  (forall it', (it' < it)%nat ->
     thread_clean w (Z.to_nat (num_threads c)) it') ->
  thread_join_fails w (Z.to_nat (num_threads c)) it k e ->
  exists tr pre,
    BenchThread.cb_bench_thread_run w (Some d) (Some c) (Some r)
    = (e, Some r, tr)
    /\ tr = pre ++ at_iteration it
                     (map ThreadJoin (seq 0 (Z.to_nat (num_threads c))))
    /\ (forall j, (j < Z.to_nat (num_threads c))%nat ->
          In (it, ThreadCreate j CB_OK) pre)
    /\ (forall it' ev, In (it', ev) tr -> (it' <= it)%nat).
Proof.
  intros Halloc Hmutex Hit Hclean Hfail.
  destruct (thread_iteration_join_fails w d c (num_threads c) it k e Hfail)
    as (sh & evs & Eit & Hin).
  pose proof (proj2 (is_err_true e) (proj1 (proj2 Hfail))) as Herr.
  destruct (thread_run_fails w d c r it e _ _ Halloc Hmutex Hit Hclean Eit Herr)
    as (pre & Erun & Hpre).
  eexists _, (pre ++ at_iteration it evs). split; [exact Erun|].
  split; [now rewrite at_iteration_app, app_assoc|]. split.
  - intros j Hj. apply in_or_app. right. now apply in_at_iteration, Hin.
  - intros it' ev H. apply in_app_or in H. destruct H as [H | H].
    + apply Hpre in H. lia.
    + apply at_iteration_index in H. lia.
Qed.

Lemma thread_join_failure_joins_all_witness :
  exists tr pre,
    BenchThread.cb_bench_thread_run
      (world_with all_ok (fails_at 0 1 CB_ERR_THREAD) waits_ok)
      (Some Samples.sample_dataset) (Some Samples.sample_config)
      (Some Samples.blank_report)
    = (CB_ERR_THREAD, Some Samples.blank_report, tr)
    /\ tr = pre ++ at_iteration 0 (map ThreadJoin (seq 0 4))
    /\ (forall j, (j < 4)%nat -> In (0%nat, ThreadCreate j CB_OK) pre)
    /\ (forall it' ev, In (it', ev) tr -> (it' <= 0)%nat).
Proof.
  apply (thread_join_failure_joins_all
           (world_with all_ok (fails_at 0 1 CB_ERR_THREAD) waits_ok)
           Samples.sample_dataset Samples.sample_config Samples.blank_report
           0%nat 1%nat CB_ERR_THREAD).
  - reflexivity.
  - reflexivity.
  - cbn. lia.
  - intros it' Hit'. lia.
  - split; [cbn; lia|]. split; [discriminate|].
    split; [intros; reflexivity|]. split; [|reflexivity].
    intros i Hi. destruct i as [|i]; [reflexivity | lia].
Defined.

(** *** Exact traces *)

Import TraceSpec.

Lemma unix_spawn_loop_exact w it b r : forall todo i off,
  (forall j, (i <= j < i + todo)%nat ->
     pipe_create_res w it j = CB_OK /\ process_spawn_res w it j = CB_OK) ->
  BenchProcessUnix.spawn_loop w it b r todo i off
  = (CB_OK, (i + todo)%nat, distribute b r todo (Z.of_nat i) off,
     flat_map (fun j => [PipeCreate j CB_OK; ProcessSpawn j CB_OK; PipeCloseWrite j])
       (seq i todo)).
Proof.
  induction todo as [|todo IH]; intros i off Hok;
    cbn [BenchProcessUnix.spawn_loop distribute seq flat_map].
  - now rewrite Nat.add_0_r.
  - destruct (Hok i ltac:(lia)) as [-> ->]. cbn [is_err cb_error_code Z.eqb negb].
    rewrite IH by (intros j Hj; apply Hok; lia). cbn [app].
    replace (Z.of_nat (S i)) with (Z.of_nat i + 1) by lia.
    replace (S i + todo)%nat with (i + S todo)%nat by lia.
    reflexivity.
Qed.

Lemma unix_read_loop_exact w it d : forall work i acc,
  (forall j, (i <= j < i + length work)%nat -> pipe_read_res w it j = CB_OK) ->
  BenchProcessUnix.read_loop w it d work i acc
  = (CB_OK, add_slices d work acc,
     flat_map (fun j => [PipeRead j CB_OK; PipeCloseRead j]) (seq i (length work))).
Proof.
  induction work as [|s work IH]; intros i acc Hok;
    cbn [BenchProcessUnix.read_loop length seq flat_map].
  - reflexivity.
  - rewrite (Hok i ltac:(cbn [length]; lia)).
    cbn [is_err cb_error_code Z.eqb negb].
    rewrite IH by (intros j Hj; apply Hok; cbn [length]; lia). reflexivity.
Qed.

Lemma unix_wait_loop_events w it : forall todo i err,
  snd (BenchProcessUnix.wait_loop w it todo i err) = map ProcessWait (seq i todo).
Proof.
  induction todo as [|todo IH]; intros i err;
    cbn [BenchProcessUnix.wait_loop seq map].
  - reflexivity.
  - match goal with
    | |- context [BenchProcessUnix.wait_loop w it todo (S i) ?x] =>
      pose proof (IH (S i) x) as IH';
      destruct (BenchProcessUnix.wait_loop w it todo (S i) x) as [e evs]
    end.
    cbn [snd] in *. now rewrite IH'.
Qed.

Lemma unix_wait_loop_keeps w it : forall todo i err,
  is_err err = true -> fst (BenchProcessUnix.wait_loop w it todo i err) = err.
Proof.
  induction todo as [|todo IH]; intros i err He; cbn [BenchProcessUnix.wait_loop].
  - reflexivity.
  - rewrite He.
    replace (if is_err (fst (process_wait_res w it i)) then err else err)
      with err by (destruct (is_err (fst (process_wait_res w it i))); reflexivity).
    pose proof (IH (S i) err He) as IH'.
    destruct (BenchProcessUnix.wait_loop w it todo (S i) err) as [e evs].
    exact IH'.
Qed.

Lemma unix_wait_loop_ok w it : forall todo i,
  (forall j, (i <= j < i + todo)%nat -> fst (process_wait_res w it j) = CB_OK) ->
  fst (BenchProcessUnix.wait_loop w it todo i CB_OK) = CB_OK.
Proof.
  induction todo as [|todo IH]; intros i Hok; cbn [BenchProcessUnix.wait_loop].
  - reflexivity.
  - rewrite (Hok i ltac:(lia)). cbn [is_err cb_error_code Z.eqb negb].
    pose proof (IH (S i)) as IH'.
    destruct (BenchProcessUnix.wait_loop w it todo (S i) CB_OK) as [e evs].
    apply IH'. intros j Hj. apply Hok. lia.
Qed.

Lemma unix_wait_loop_first_error w it e : forall todo i k,
  (i <= k < i + todo)%nat ->
  (forall j, (i <= j < k)%nat -> fst (process_wait_res w it j) = CB_OK) ->
  fst (process_wait_res w it k) = e -> e <> CB_OK ->
  fst (BenchProcessUnix.wait_loop w it todo i CB_OK) = e.
Proof.
  induction todo as [|todo IH]; intros i k Hk Hok Hfail He; [lia|].
  cbn [BenchProcessUnix.wait_loop].
  destruct (Nat.eq_dec i k) as [-> | Hne].
  - rewrite Hfail. apply is_err_true in He. rewrite He.
    cbn [is_err cb_error_code Z.eqb negb].
    pose proof (unix_wait_loop_keeps w it todo (S k) e He) as Hk'.
    destruct (BenchProcessUnix.wait_loop w it todo (S k) e) as [e' evs].
    exact Hk'.
  - rewrite (Hok i ltac:(lia)). cbn [is_err cb_error_code Z.eqb negb].
    pose proof (IH (S i) k) as IH'.
    destruct (BenchProcessUnix.wait_loop w it todo (S i) CB_OK) as [e' evs].
    apply IH'; auto; try lia. intros j Hj. apply Hok. lia.
Qed.

(** An iteration whose pipes, spawns and reads succeed makes the ordinary
    calls, whatever the waits return. *)
Lemma unix_iteration_exact w d c nz it :
  (forall i, (i < Z.to_nat nz)%nat ->
     pipe_create_res w it i = CB_OK
     /\ process_spawn_res w it i = CB_OK
     /\ pipe_read_res w it i = CB_OK) ->
  BenchProcessUnix.process_iteration w d c nz it
  = (fst (BenchProcessUnix.wait_loop w it (Z.to_nat nz) 0 CB_OK),
     add_slices d (partition (array_length c) nz) 0,
     unix_iteration_calls (Z.to_nat nz)).
Proof.
  intros Hok. unfold BenchProcessUnix.process_iteration.
  rewrite unix_spawn_loop_exact
    by (intros j Hj; destruct (Hok j ltac:(lia)) as (H1 & H2 & _); now split).
  cbn [is_err cb_error_code Z.eqb negb Nat.add].
  rewrite unix_read_loop_exact
    by (intros j Hj; rewrite distribute_length in Hj;
        destruct (Hok j ltac:(lia)) as (_ & _ & H3); exact H3).
  cbn [is_err cb_error_code Z.eqb negb].
  pose proof (unix_wait_loop_events w it (Z.to_nat nz) 0 CB_OK) as Hev.
  destruct (BenchProcessUnix.wait_loop w it (Z.to_nat nz) 0 CB_OK) as [e3 evs3].
  cbn [fst snd] in *. subst evs3. rewrite distribute_length.
  reflexivity.
Qed.

Lemma repeated_snoc calls its :
  repeated calls (S its) = repeated calls its ++ at_iteration its calls.
Proof.
  unfold repeated. rewrite seq_S, flat_map_app. cbn [Nat.add flat_map].
  now rewrite app_nil_r.
Qed.

Lemma repeated_index calls its it ev :
  In (it, ev) (repeated calls its) -> (it < its)%nat /\ In ev calls.
Proof.
  unfold repeated. intros H. apply in_flat_map in H.
  destruct H as (j & Hj & Hin). apply in_seq in Hj.
  unfold at_iteration in Hin. apply in_map_iff in Hin.
  destruct Hin as (x & Hx & Hin). injection Hx as <- <-. split; [lia | exact Hin].
Qed.

Lemma unix_iterations_all_ok w d c nz (calls : list event) :
  forall todo iter times vs tr,
    (forall it', (iter <= it' < iter + todo)%nat ->
       exists s, BenchProcessUnix.process_iteration w d c nz it' = (CB_OK, s, calls)) ->
    exists times' vs',
      BenchProcessUnix.process_iterations w d c nz todo iter times vs tr
      = (CB_OK, times', vs',
         tr ++ flat_map (fun it' => at_iteration it' calls) (seq iter todo))
      /\ length times' = (length times + todo)%nat.
Proof.
  induction todo as [|todo IH]; intros iter times vs tr Hall;
    cbn [BenchProcessUnix.process_iterations seq flat_map].
  - exists times, vs. rewrite app_nil_r. split; [reflexivity | lia].
  - destruct (Hall iter ltac:(lia)) as (s0 & ->).
    cbn [is_err cb_error_code Z.eqb negb].
    match goal with
    | |- context [BenchProcessUnix.process_iterations _ _ _ _ _ _ ?t ?v ?r] =>
      destruct (IH (S iter) t v r) as (times' & vs' & -> & Hlen);
        [intros; apply Hall; lia|]
    end.
    exists times', vs'. split; [now rewrite <- app_assoc|].
    rewrite Hlen, length_app. cbn [length]. lia.
Qed.

Lemma unix_iterations_stop w d c nz (calls : list event) it e s :
  BenchProcessUnix.process_iteration w d c nz it = (e, s, calls) ->
  is_err e = true ->
  forall todo iter times vs tr,
    (iter <= it < iter + todo)%nat ->
    (forall it', (iter <= it' < it)%nat ->
       exists s', BenchProcessUnix.process_iteration w d c nz it' = (CB_OK, s', calls)) ->
    exists times' vs',
      BenchProcessUnix.process_iterations w d c nz todo iter times vs tr
      = (e, times', vs',
         tr ++ flat_map (fun it' => at_iteration it' calls)
                 (seq iter (S (it - iter)))).
Proof.
  intros Eit Herr.
  induction todo as [|todo IH]; intros iter times vs tr Hrange Hall; [lia|].
  cbn [BenchProcessUnix.process_iterations].
  destruct (Nat.eq_dec iter it) as [-> | Hne].
  - rewrite Eit, Herr, Nat.sub_diag. cbn [seq flat_map]. rewrite app_nil_r.
    eexists _, _. reflexivity.
  - destruct (Hall iter ltac:(lia)) as (s0 & ->).
    cbn [is_err cb_error_code Z.eqb negb].
    match goal with
    | |- context [BenchProcessUnix.process_iterations _ _ _ _ _ _ ?t ?v ?r] =>
      destruct (IH (S iter) t v r) as (times' & vs' & ->);
        [lia | intros; apply Hall; lia |]
    end.
    exists times', vs'.
    replace (S (it - iter)) with (S (S (it - S iter))) by lia.
    cbn [seq flat_map]. now rewrite <- app_assoc.
Qed.

Lemma unix_iteration_calls_no_kill n ev :
  In ev (unix_iteration_calls n) -> is_kill ev = false.
Proof.
  unfold unix_iteration_calls. intros H.
  apply in_app_or in H. destruct H as [H | H].
  - apply in_flat_map in H. destruct H as (j & _ & [<- | [<- | [<- | []]]]);
      reflexivity.
  - apply in_app_or in H. destruct H as [H | H].
    + apply in_flat_map in H. destruct H as (j & _ & [<- | [<- | []]]);
        reflexivity.
    + apply in_map_iff in H. destruct H as (j & <- & _). reflexivity.
Qed.

Lemma unix_clean_iteration w d c nz it :
  unix_clean w (Z.to_nat nz) it ->
  BenchProcessUnix.process_iteration w d c nz it
  = (CB_OK, add_slices d (partition (array_length c) nz) 0,
     unix_iteration_calls (Z.to_nat nz)).
Proof.
  intros Hc. rewrite unix_iteration_exact.
  - rewrite unix_wait_loop_ok; [reflexivity|].
    intros j Hj. now destruct (Hc j ltac:(lia)) as (_ & _ & _ & H4).
  - intros i Hi. destruct (Hc i Hi) as (H1 & H2 & H3 & _). auto.
Qed.

(** X3 -- When a wait fails in iteration [it] of the Unix process
    coordinator (all workers spawned and read), the reaping loop still
    waits for every one of the [n] workers: the run makes exactly the
    calls of [it + 1] ordinary iterations, kills no worker, returns the
    first wait error and leaves the report untouched. *)
Theorem unix_wait_failure_reaps_all w d c r it k e :
  alloc_ok w = true ->
  (it < Z.to_nat (iterations c))%nat ->
  (forall it', (it' < it)%nat ->
     unix_clean w (Z.to_nat (num_processes c)) it') ->
  unix_wait_fails w (Z.to_nat (num_processes c)) it k e ->
  BenchProcessUnix.cb_bench_process_run w (Some d) (Some c) (Some r)
  = (e, Some r,
     repeated (unix_iteration_calls (Z.to_nat (num_processes c))) (S it))
  /\ forall it' ev,
       In (it', ev)
         (repeated (unix_iteration_calls (Z.to_nat (num_processes c))) (S it)) ->
       is_kill ev = false.
Proof.
  intros Halloc Hit Hclean (Hk & He & Hok & Hw & Hf). split.
  - pose proof (proj2 (is_err_true e) He) as Herr.
    assert (Eit : BenchProcessUnix.process_iteration w d c (num_processes c) it
                  = (e, add_slices d (partition (array_length c) (num_processes c)) 0,
                     unix_iteration_calls (Z.to_nat (num_processes c)))).
    { rewrite unix_iteration_exact by exact Hok.
      rewrite (unix_wait_loop_first_error w it e _ 0 k); auto; try lia.
      intros j Hj. apply Hw. lia. }
    destruct (unix_iterations_stop w d c (num_processes c) _ it e _ Eit Herr
                (Z.to_nat (iterations c)) 0%nat [] 0 [])
      as (times' & vs' & Erun); [lia | |].
    { intros it' Hit'. eexists. apply unix_clean_iteration. apply Hclean. lia. }
    unfold BenchProcessUnix.cb_bench_process_run.
    rewrite Halloc. cbn [negb]. rewrite Erun, Herr. cbn [app].
    now rewrite Nat.sub_0_r.
  - intros it' ev H. apply repeated_index in H.
    eapply unix_iteration_calls_no_kill, H.
Qed.

Lemma unix_wait_failure_reaps_all_witness :
  BenchProcessUnix.cb_bench_process_run
    (world_with all_ok all_ok (wait_at 1 0 (CB_ERR_PLATFORM, 0)))
    (Some Samples.sample_dataset) (Some Samples.sample_config)
    (Some Samples.blank_report)
  = (CB_ERR_PLATFORM, Some Samples.blank_report,
     repeated (unix_iteration_calls 3) 2)
  /\ forall it' ev,
       In (it', ev) (repeated (unix_iteration_calls 3) 2) -> is_kill ev = false.
Proof.
  apply (unix_wait_failure_reaps_all
           (world_with all_ok all_ok (wait_at 1 0 (CB_ERR_PLATFORM, 0)))
           Samples.sample_dataset Samples.sample_config Samples.blank_report
           1%nat 0%nat CB_ERR_PLATFORM).
  - reflexivity.
  - cbn. lia.
  - intros it' Hit' i Hi. assert (it' = 0%nat) by lia. subst it'.
    repeat split.
  - split; [cbn; lia|]. split; [discriminate|].
    split; [intros; repeat split|]. split; [intros; lia | reflexivity].
Defined.

(** X4 -- When no platform call fails, the Unix process coordinator
    returns [CB_OK]; its report carries the label "process", the sum of the
    whole array, the configured number of processes and statistics over
    [iterations] samples; and it makes exactly the calls of [iterations]
    ordinary iterations: each worker is spawned, read and waited for once
    per iteration and none is killed. *)
Theorem unix_run_succeeds w d c r :
  alloc_ok w = true ->
  (forall it, (it < Z.to_nat (iterations c))%nat ->
     unix_clean w (Z.to_nat (num_processes c)) it) ->
  1 <= iterations c -> 0 <= array_length c -> 1 <= num_processes c ->
  exists st,
    BenchProcessUnix.cb_bench_process_run w (Some d) (Some c) (Some r)
    = (CB_OK,
       Some {| label := "process"%string;
               report_sum := array_sum d 0 (array_length c);
               parallelism := num_processes c;
               stats := st |},
       repeated (unix_iteration_calls (Z.to_nat (num_processes c)))
         (Z.to_nat (iterations c)))
    /\ stats_iterations st = iterations c.
Proof.
  intros Halloc Hclean Hits Hlen Hn.
  destruct (unix_iterations_all_ok w d c (num_processes c)
              (unix_iteration_calls (Z.to_nat (num_processes c)))
              (Z.to_nat (iterations c)) 0%nat [] 0 [])
    as (times & vs & Erun & _).
  { intros it' Hit'. eexists. apply unix_clean_iteration. apply Hclean. lia. }
  destruct (StatsFacts.cb_stats_compute_ok times (iterations c) (stats r) Hits)
    as (st & Est & _ & _ & _ & Hcount & _).
  assert (E : BenchProcessUnix.cb_bench_process_run w (Some d) (Some c) (Some r)
              = (CB_OK,
                 Some {| label := "process"%string; report_sum := vs;
                         parallelism := num_processes c; stats := st |},
                 repeated (unix_iteration_calls (Z.to_nat (num_processes c)))
                   (Z.to_nat (iterations c)))).
  { unfold BenchProcessUnix.cb_bench_process_run.
    rewrite Halloc. cbn [negb]. rewrite Erun.
    cbn [is_err cb_error_code Z.eqb negb]. rewrite Est. reflexivity. }
  pose proof (unix_run_sum _ _ _ _ _ _ Hlen Hn E) as Hsum.
  cbn [report_sum] in Hsum. subst vs.
  exists st. split; [exact E | exact Hcount].
Qed.

Lemma calm_world_unix_clean it :
  unix_clean Samples.calm_world 3 it.
Proof. intros i Hi. repeat split. Qed.

Lemma unix_run_succeeds_witness :
  exists st,
    BenchProcessUnix.cb_bench_process_run Samples.calm_world
      (Some Samples.sample_dataset) (Some Samples.sample_config)
      (Some Samples.blank_report)
    = (CB_OK,
       Some {| label := "process"%string;
               report_sum := array_sum Samples.sample_dataset 0 11;
               parallelism := 3;
               stats := st |},
       repeated (unix_iteration_calls 3) 2)
    /\ stats_iterations st = 2.
Proof.
  apply (unix_run_succeeds Samples.calm_world Samples.sample_dataset
           Samples.sample_config Samples.blank_report).
  - reflexivity.
  - intros it Hit. apply calm_world_unix_clean.
  - cbn. lia.
  - cbn. lia.
  - cbn. lia.
Defined.

(** *** Processes, Windows *)

Lemma win_spawn_loop_exact w it b r : forall todo i off,
  (forall j, (i <= j < i + todo)%nat -> process_spawn_res w it j = CB_OK) ->
  BenchProcessWin.spawn_loop w it b r todo i off
  = (CB_OK, (i + todo)%nat, distribute b r todo (Z.of_nat i) off,
     map (fun j => ProcessSpawn j CB_OK) (seq i todo)).
Proof.
  induction todo as [|todo IH]; intros i off Hok;
    cbn [BenchProcessWin.spawn_loop distribute seq map].
  - now rewrite Nat.add_0_r.
  - rewrite (Hok i ltac:(lia)). cbn [is_err cb_error_code Z.eqb negb].
    rewrite IH by (intros j Hj; apply Hok; lia).
    replace (Z.of_nat (S i)) with (Z.of_nat i + 1) by lia.
    replace (S i + todo)%nat with (i + S todo)%nat by lia.
    reflexivity.
Qed.

Lemma win_wait_loop_events w it : forall todo i err,
  snd (BenchProcessWin.wait_loop w it todo i err) = map ProcessWait (seq i todo).
Proof.
  induction todo as [|todo IH]; intros i err;
    cbn [BenchProcessWin.wait_loop seq map].
  - reflexivity.
  - match goal with
    | |- context [BenchProcessWin.wait_loop w it todo (S i) ?x] =>
      pose proof (IH (S i) x) as IH';
      destruct (BenchProcessWin.wait_loop w it todo (S i) x) as [e evs]
    end.
    cbn [snd] in *. now rewrite IH'.
Qed.

Lemma win_wait_loop_keeps w it : forall todo i err,
  is_err err = true -> fst (BenchProcessWin.wait_loop w it todo i err) = err.
Proof.
  induction todo as [|todo IH]; intros i err He; cbn [BenchProcessWin.wait_loop].
  - reflexivity.
  - rewrite He.
    match goal with
    | |- context [BenchProcessWin.wait_loop w it todo (S i) ?x] =>
      replace x with err
        by (destruct (is_err (fst (process_wait_res w it i)));
            [reflexivity
            | destruct (negb (snd (process_wait_res w it i) =? 0)); reflexivity])
    end.
    pose proof (IH (S i) err He) as IH'.
    destruct (BenchProcessWin.wait_loop w it todo (S i) err) as [e evs].
    exact IH'.
Qed.

Lemma win_wait_loop_all_zero w it : forall todo i,
  (forall j, (i <= j < i + todo)%nat -> process_wait_res w it j = (CB_OK, 0)) ->
  fst (BenchProcessWin.wait_loop w it todo i CB_OK) = CB_OK.
Proof.
  induction todo as [|todo IH]; intros i Hok; cbn [BenchProcessWin.wait_loop].
  - reflexivity.
  - rewrite (Hok i ltac:(lia)).
    cbn [fst snd is_err cb_error_code Z.eqb negb].
    pose proof (IH (S i)) as IH'.
    destruct (BenchProcessWin.wait_loop w it todo (S i) CB_OK) as [e evs].
    apply IH'. intros j Hj. apply Hok. lia.
Qed.

Lemma win_wait_loop_bad_status w it : forall todo i k,
  (i <= k < i + todo)%nat ->
  (forall j, (i <= j < k)%nat -> process_wait_res w it j = (CB_OK, 0)) ->
  fst (process_wait_res w it k) = CB_OK ->
  snd (process_wait_res w it k) <> 0 ->
  fst (BenchProcessWin.wait_loop w it todo i CB_OK) = CB_ERR_PLATFORM.
Proof.
  induction todo as [|todo IH]; intros i k Hk Hok Hw Hs; [lia|].
  cbn [BenchProcessWin.wait_loop].
  destruct (Nat.eq_dec i k) as [-> | Hne].
  - rewrite Hw. cbn [is_err cb_error_code Z.eqb negb].
    destruct (Z.eqb_spec (snd (process_wait_res w it k)) 0) as [E | _];
      [contradiction|]. cbn [negb].
    pose proof (win_wait_loop_keeps w it todo (S k) CB_ERR_PLATFORM eq_refl) as Hk'.
    destruct (BenchProcessWin.wait_loop w it todo (S k) CB_ERR_PLATFORM) as [e' evs].
    exact Hk'.
  - rewrite (Hok i ltac:(lia)).
    cbn [fst snd is_err cb_error_code Z.eqb negb].
    pose proof (IH (S i) k) as IH'.
    destruct (BenchProcessWin.wait_loop w it todo (S i) CB_OK) as [e' evs].
    apply IH'; auto; try lia. intros j Hj. apply Hok. lia.
Qed.

(** An iteration whose spawns succeed makes the ordinary calls, whatever
    the waits return. *)
Lemma win_iteration_calls_exact w m c nz it :
  (forall i, (i < Z.to_nat nz)%nat -> process_spawn_res w it i = CB_OK) ->
  exists s m',
    BenchProcessWin.process_iteration w m c nz it
    = (fst (BenchProcessWin.wait_loop w it (Z.to_nat nz) 0 CB_OK), s,
       win_iteration_calls (Z.to_nat nz), m').
Proof.
  intros Hok. unfold BenchProcessWin.process_iteration.
  rewrite win_spawn_loop_exact by (intros j Hj; apply Hok; lia).
  cbn [is_err cb_error_code Z.eqb negb Nat.add].
  pose proof (win_wait_loop_events w it (Z.to_nat nz) 0 CB_OK) as Hev.
  destruct (BenchProcessWin.wait_loop w it (Z.to_nat nz) 0 CB_OK) as [e2 evs2].
  cbn [fst snd] in *. subst evs2.
  destruct (is_err e2); eexists _, _; reflexivity.
Qed.

Lemma win_clean_iteration w m c nz it :
  win_clean w (Z.to_nat nz) it ->
  exists s m',
    BenchProcessWin.process_iteration w m c nz it
    = (CB_OK, s, win_iteration_calls (Z.to_nat nz), m').
Proof.
  intros Hc.
  destruct (win_iteration_calls_exact w m c nz it) as (s & m' & E).
  { intros i Hi. now destruct (Hc i Hi). }
  rewrite win_wait_loop_all_zero in E.
  - now exists s, m'.
  - intros j Hj. now destruct (Hc j ltac:(lia)).
Qed.

Lemma win_iterations_all_ok w c nz (calls : list event) :
  forall todo iter m times vs tr,
    (forall it' m0, (iter <= it' < iter + todo)%nat ->
       exists s m1,
         BenchProcessWin.process_iteration w m0 c nz it' = (CB_OK, s, calls, m1)) ->
    exists times' vs',
      BenchProcessWin.process_iterations w m c nz todo iter times vs tr
      = (CB_OK, times', vs',
         tr ++ flat_map (fun it' => at_iteration it' calls) (seq iter todo))
      /\ length times' = (length times + todo)%nat.
Proof.
  induction todo as [|todo IH]; intros iter m times vs tr Hall;
    cbn [BenchProcessWin.process_iterations seq flat_map].
  - exists times, vs. rewrite app_nil_r. split; [reflexivity | lia].
  - destruct (Hall iter m ltac:(lia)) as (s0 & m1 & ->).
    cbn [is_err cb_error_code Z.eqb negb].
    match goal with
    | |- context [BenchProcessWin.process_iterations _ ?m' _ _ _ _ ?t ?v ?r] =>
      destruct (IH (S iter) m' t v r) as (times' & vs' & -> & Hlen);
        [intros; apply Hall; lia|]
    end.
    exists times', vs'. split; [now rewrite <- app_assoc|].
    rewrite Hlen, length_app. cbn [length]. lia.
Qed.

Lemma win_iterations_stop w c nz (calls : list event) it e :
  (forall m, exists s m',
     BenchProcessWin.process_iteration w m c nz it = (e, s, calls, m')) ->
  is_err e = true ->
  forall todo iter m times vs tr,
    (iter <= it < iter + todo)%nat ->
    (forall it' m0, (iter <= it' < it)%nat ->
       exists s' m1,
         BenchProcessWin.process_iteration w m0 c nz it' = (CB_OK, s', calls, m1)) ->
    exists times' vs',
      BenchProcessWin.process_iterations w m c nz todo iter times vs tr
      = (e, times', vs',
         tr ++ flat_map (fun it' => at_iteration it' calls)
                 (seq iter (S (it - iter)))).
Proof.
  intros Eit Herr.
  induction todo as [|todo IH]; intros iter m times vs tr Hrange Hall; [lia|].
  cbn [BenchProcessWin.process_iterations].
  destruct (Nat.eq_dec iter it) as [-> | Hne].
  - destruct (Eit m) as (s & m' & ->).
    rewrite Herr, Nat.sub_diag. cbn [seq flat_map]. rewrite app_nil_r.
    eexists _, _. reflexivity.
  - destruct (Hall iter m ltac:(lia)) as (s0 & m1 & ->).
    cbn [is_err cb_error_code Z.eqb negb].
    match goal with
    | |- context [BenchProcessWin.process_iterations _ ?m' _ _ _ _ ?t ?v ?r] =>
      destruct (IH (S iter) m' t v r) as (times' & vs' & ->);
        [lia | intros; apply Hall; lia |]
    end.
    exists times', vs'.
    replace (S (it - iter)) with (S (S (it - S iter))) by lia.
    cbn [seq flat_map]. now rewrite <- app_assoc.
Qed.

Lemma win_iteration_calls_no_kill n ev :
  In ev (win_iteration_calls n) -> is_kill ev = false.
Proof.
  unfold win_iteration_calls. intros H.
  apply in_app_or in H. destruct H as [H | H];
    apply in_map_iff in H; destruct H as (j & <- & _); reflexivity.
Qed.

(** X5 -- When a worker of the Windows process coordinator exits with a
    non-zero status in iteration [it] (every spawn and wait call itself
    succeeding), the run returns [CB_ERR_PLATFORM] and leaves the report
    untouched; the reaping loop has still waited for every one of the [n]
    workers, and no worker is killed. *)
Theorem win_bad_exit_status w d c r it k :
  exe_path_res w = CB_OK -> alloc_ok w = true ->
  shared_mem_create_res w = CB_OK ->
  (it < Z.to_nat (iterations c))%nat ->
  (forall it', (it' < it)%nat ->
     win_clean w (Z.to_nat (num_processes c)) it') ->
  win_bad_status w (Z.to_nat (num_processes c)) it k ->
  BenchProcessWin.cb_bench_process_run w (Some d) (Some c) (Some r)
  = (CB_ERR_PLATFORM, Some r,
     repeated (win_iteration_calls (Z.to_nat (num_processes c))) (S it))
  /\ forall it' ev,
       In (it', ev)
         (repeated (win_iteration_calls (Z.to_nat (num_processes c))) (S it)) ->
       is_kill ev = false.
Proof.
  intros Hexe Halloc Hshm Hit Hclean (Hk & Hsp & Hw & Hwk & Hst). split.
  - assert (Eit : forall m, exists s m',
              BenchProcessWin.process_iteration w m c (num_processes c) it
              = (CB_ERR_PLATFORM, s,
                 win_iteration_calls (Z.to_nat (num_processes c)), m')).
    { intros m.
      destruct (win_iteration_calls_exact w m c (num_processes c) it Hsp)
        as (s & m' & E).
      rewrite (win_wait_loop_bad_status w it _ 0 k) in E; auto; try lia;
        [|intros j Hj; apply Hw; lia].
      now exists s, m'. }
    destruct (win_iterations_stop w c (num_processes c) _ it _ Eit eq_refl
                (Z.to_nat (iterations c)) 0%nat
                (SharedMemWin.mk_segment d
                   (fun _ => {| sum := 0; elapsed_sec := 0%float |}))
                [] 0 [])
      as (times' & vs' & Erun); [lia | |].
    { intros it' m0 Hit'. apply win_clean_iteration. apply Hclean. lia. }
    unfold BenchProcessWin.cb_bench_process_run.
    rewrite Hexe, Halloc, Hshm. cbn [is_err cb_error_code Z.eqb negb]. cbn zeta.
    rewrite Erun. cbn [is_err cb_error_code Z.eqb negb app].
    now rewrite Nat.sub_0_r.
  - intros it' ev H. apply repeated_index in H.
    eapply win_iteration_calls_no_kill, H.
Qed.

Lemma win_bad_exit_status_witness :
  BenchProcessWin.cb_bench_process_run
    (world_with all_ok all_ok (wait_at 1 2 (CB_OK, 3)))
    (Some Samples.sample_dataset) (Some Samples.sample_config)
    (Some Samples.blank_report)
  = (CB_ERR_PLATFORM, Some Samples.blank_report,
     repeated (win_iteration_calls 3) 2)
  /\ forall it' ev,
       In (it', ev) (repeated (win_iteration_calls 3) 2) -> is_kill ev = false.
Proof.
  apply (win_bad_exit_status
           (world_with all_ok all_ok (wait_at 1 2 (CB_OK, 3)))
           Samples.sample_dataset Samples.sample_config Samples.blank_report
           1%nat 2%nat).
  - reflexivity.
  - reflexivity.
  - reflexivity.
  - cbn. lia.
  - intros it' Hit' i Hi. assert (it' = 0%nat) by lia. subst it'.
    repeat split.
  - split; [cbn; lia|]. split; [intros; reflexivity|].
    split; [|split; [reflexivity | discriminate]].
    intros i Hi.
    destruct i as [|[|i]]; [reflexivity | reflexivity | lia].
Defined.

(** X6 -- When no platform call fails, every worker exits with status 0
    and the workers of the first iteration stored their results (each ran
    [cb_bench_process_worker_main] on the index, array length and slice
    written on its command line), the Windows process coordinator returns
    [CB_OK]; its report carries the label "process", the sum of the whole
    array read back from the result slots of the shared segment, the
    configured number of processes and statistics over [iterations]
    samples; each worker is spawned and waited for once per iteration and
    none is killed.  The exit status alone does not give the sum: a worker
    that leaves [main] before [cb_bench_process_worker_main] exits with
    status 0 as well. *)
Theorem win_run_succeeds w d c r :
  exe_path_res w = CB_OK -> alloc_ok w = true ->
  shared_mem_create_res w = CB_OK ->
  (forall it, (it < Z.to_nat (iterations c))%nat ->
     win_clean w (Z.to_nat (num_processes c)) it) ->
  WorkerSpec.workers_stored w (array_length c) (num_processes c) 0 ->
  1 <= iterations c -> 0 <= array_length c -> 1 <= num_processes c ->
  exists st,
    BenchProcessWin.cb_bench_process_run w (Some d) (Some c) (Some r)
    = (CB_OK,
       Some {| label := "process"%string;
               report_sum := array_sum d 0 (array_length c);
               parallelism := num_processes c;
               stats := st |},
       repeated (win_iteration_calls (Z.to_nat (num_processes c)))
         (Z.to_nat (iterations c)))
    /\ stats_iterations st = iterations c.
Proof.
  intros Hexe Halloc Hshm Hclean Hstored Hits Hlen Hn.
  destruct (win_iterations_all_ok w c (num_processes c)
              (win_iteration_calls (Z.to_nat (num_processes c)))
              (Z.to_nat (iterations c)) 0%nat
              (SharedMemWin.mk_segment d
                 (fun _ => {| sum := 0; elapsed_sec := 0%float |}))
              [] 0 [])
    as (times & vs & Erun & _).
  { intros it' m0 Hit'. apply win_clean_iteration. apply Hclean. lia. }
  destruct (StatsFacts.cb_stats_compute_ok times (iterations c) (stats r) Hits)
    as (st & Est & _ & _ & _ & Hcount & _).
  assert (E : BenchProcessWin.cb_bench_process_run w (Some d) (Some c) (Some r)
              = (CB_OK,
                 Some {| label := "process"%string; report_sum := vs;
                         parallelism := num_processes c; stats := st |},
                 repeated (win_iteration_calls (Z.to_nat (num_processes c)))
                   (Z.to_nat (iterations c)))).
  { unfold BenchProcessWin.cb_bench_process_run.
    rewrite Hexe, Halloc, Hshm. cbn [is_err cb_error_code Z.eqb negb].
    cbn zeta. rewrite Erun. cbn [is_err cb_error_code Z.eqb negb]. rewrite Est.
    reflexivity. }
  pose proof (win_run_sum _ _ _ _ _ _ Hlen Hn Hstored E) as Hsum.
  cbn [report_sum] in Hsum. subst vs.
  exists st. split; [exact E | exact Hcount].
Qed.

Lemma win_run_succeeds_witness :
  exists st,
    BenchProcessWin.cb_bench_process_run Samples.calm_world
      (Some Samples.sample_dataset) (Some Samples.sample_config)
      (Some Samples.blank_report)
    = (CB_OK,
       Some {| label := "process"%string;
               report_sum := array_sum Samples.sample_dataset 0 11;
               parallelism := 3;
               stats := st |},
       repeated (win_iteration_calls 3) 2)
    /\ stats_iterations st = 2.
Proof.
  apply (win_run_succeeds Samples.calm_world Samples.sample_dataset
           Samples.sample_config Samples.blank_report).
  - reflexivity.
  - reflexivity.
  - reflexivity.
  - intros it Hit i Hi. repeat split.
  - now apply workers_for_stored.
  - cbn. lia.
  - cbn. lia.
  - cbn. lia.
Defined.

(** *** Threads, clean runs *)

Lemma thread_iteration_exact w d c nz it :
  thread_clean w (Z.to_nat nz) it ->
  exists shared,
    BenchThread.thread_iteration w d c nz it
    = (CB_OK, shared, thread_iteration_calls (Z.to_nat nz)).
Proof.
  intros Hc. unfold BenchThread.thread_iteration.
  rewrite create_loop_clean by (intros j Hj; apply Hc; lia).
  cbn [is_err cb_error_code Z.eqb negb].
  pose proof (join_loop_clean w it (Z.to_nat nz) 0) as Hj.
  pose proof (join_loop_events w it (Z.to_nat nz) 0 CB_OK) as Hev.
  destruct (BenchThread.join_loop w it (Z.to_nat nz) 0 CB_OK) as [e evs].
  cbn [fst snd] in Hj, Hev. rewrite Hj by (intros j Hj'; apply Hc; lia).
  subst evs. eexists. reflexivity.
Qed.

Lemma thread_iterations_all_ok w d c nz (calls : list event) :
  forall todo iter times vs tr,
    (forall it', (iter <= it' < iter + todo)%nat ->
       exists s, BenchThread.thread_iteration w d c nz it' = (CB_OK, s, calls)) ->
    exists times' vs',
      BenchThread.thread_iterations w d c nz todo iter times vs tr
      = (CB_OK, times', vs',
         tr ++ flat_map (fun it' => at_iteration it' calls) (seq iter todo))
      /\ length times' = (length times + todo)%nat.
Proof.
  induction todo as [|todo IH]; intros iter times vs tr Hall;
    cbn [BenchThread.thread_iterations seq flat_map].
  - exists times, vs. rewrite app_nil_r. split; [reflexivity | lia].
  - destruct (Hall iter ltac:(lia)) as (s0 & ->).
    cbn [is_err cb_error_code Z.eqb negb].
    match goal with
    | |- context [BenchThread.thread_iterations _ _ _ _ _ _ ?t ?v ?r] =>
      destruct (IH (S iter) t v r) as (times' & vs' & -> & Hlen);
        [intros; apply Hall; lia|]
    end.
    exists times', vs'. split; [now rewrite <- app_assoc|].
    rewrite Hlen, length_app. cbn [length]. lia.
Qed.

(** X7 -- When the allocations, the mutex and every thread creation and
    join succeed, the thread coordinator returns [CB_OK]; its report
    carries the label "thread", the sum of the whole array (whatever the
    order in which the threads took the lock), the configured number of
    threads and statistics over [iterations] samples; each thread is
    created once and joined once per iteration, all creations before the
    first join. *)
Theorem thread_run_succeeds w d c r :
  alloc_ok w = true -> mutex_init_res w = CB_OK ->
  (forall it, (it < Z.to_nat (iterations c))%nat ->
     thread_clean w (Z.to_nat (num_threads c)) it) ->
  1 <= iterations c -> 0 <= array_length c -> 1 <= num_threads c ->
  exists st,
    BenchThread.cb_bench_thread_run w (Some d) (Some c) (Some r)
    = (CB_OK,
       Some {| label := "thread"%string;
               report_sum := array_sum d 0 (array_length c);
               parallelism := num_threads c;
               stats := st |},
       repeated (thread_iteration_calls (Z.to_nat (num_threads c)))
         (Z.to_nat (iterations c)))
    /\ stats_iterations st = iterations c.
Proof.
  intros Halloc Hmutex Hclean Hits Hlen Hn.
  destruct (thread_iterations_all_ok w d c (num_threads c)
              (thread_iteration_calls (Z.to_nat (num_threads c)))
              (Z.to_nat (iterations c)) 0%nat [] 0 [])
    as (times & vs & Erun & _).
  { intros it' Hit'. apply thread_iteration_exact. apply Hclean. lia. }
  destruct (StatsFacts.cb_stats_compute_ok times (iterations c) (stats r) Hits)
    as (st & Est & _ & _ & _ & Hcount & _).
  assert (E : BenchThread.cb_bench_thread_run w (Some d) (Some c) (Some r)
              = (CB_OK,
                 Some {| label := "thread"%string; report_sum := vs;
                         parallelism := num_threads c; stats := st |},
                 repeated (thread_iteration_calls (Z.to_nat (num_threads c)))
                   (Z.to_nat (iterations c)))).
  { unfold BenchThread.cb_bench_thread_run.
    rewrite Halloc, Hmutex. cbn [is_err cb_error_code Z.eqb negb].
    rewrite Erun. cbn [is_err cb_error_code Z.eqb negb]. rewrite Est.
    reflexivity. }
  pose proof (thread_run_sum _ _ _ _ _ _ Hlen Hn E) as Hsum.
  cbn [report_sum] in Hsum. subst vs.
  exists st. split; [exact E | exact Hcount].
Qed.

Lemma thread_run_succeeds_witness :
  exists st,
    BenchThread.cb_bench_thread_run Samples.calm_world
      (Some Samples.sample_dataset) (Some Samples.sample_config)
      (Some Samples.blank_report)
    = (CB_OK,
       Some {| label := "thread"%string;
               report_sum := array_sum Samples.sample_dataset 0 11;
               parallelism := 4;
               stats := st |},
       repeated (thread_iteration_calls 4) 2)
    /\ stats_iterations st = 2.
Proof.
  apply (thread_run_succeeds Samples.calm_world Samples.sample_dataset
           Samples.sample_config Samples.blank_report).
  - reflexivity.
  - reflexivity.
  - intros it Hit i Hi. repeat split.
  - cbn. lia.
  - cbn. lia.
  - cbn. lia.
Defined.

End CoordinatorFacts.

(** ** The statistics read the samples they are given, and nothing else *)

Module SampleFacts.
Import Stats.

Section Attained.
Context {T : Type}.
Variable t_zero : T.
Variable t_add : T -> T -> T.
Variable t_ltb : T -> T -> bool.

(** The running minimum and maximum are always one of the samples seen. *)
Lemma first_pass_loop_attained (times : list T) : forall todo i acc bound,
  (i + todo <= bound)%nat ->
  (exists j, (j < bound)%nat /\ p_min acc = times_get t_zero times j) ->
  (exists j, (j < bound)%nat /\ p_max acc = times_get t_zero times j) ->
  let p := first_pass_loop t_zero t_add t_ltb times todo i acc in
  (exists j, (j < bound)%nat /\ p_min p = times_get t_zero times j)
  /\ (exists j, (j < bound)%nat /\ p_max p = times_get t_zero times j).
Proof.
  induction todo as [|todo IH]; intros i acc bound Hb Hmin Hmax;
    cbn [first_pass_loop].
  - split; assumption.
  - apply IH; [lia | |]; cbn [p_min p_max].
    + destruct (t_ltb (times_get t_zero times i) (p_min acc));
        [exists i; split; [lia | reflexivity] | exact Hmin].
    + destruct (t_ltb (p_max acc) (times_get t_zero times i));
        [exists i; split; [lia | reflexivity] | exact Hmax].
Qed.

(** The first pass looks at [times[0 .. count-1]] only. *)
Lemma first_pass_loop_ext (ts ts' : list T) : forall todo i acc,
  (forall j, (j < i + todo)%nat ->
     times_get t_zero ts j = times_get t_zero ts' j) ->
  first_pass_loop t_zero t_add t_ltb ts todo i acc
  = first_pass_loop t_zero t_add t_ltb ts' todo i acc.
Proof.
  induction todo as [|todo IH]; intros i acc Hext; cbn [first_pass_loop].
  - reflexivity.
  - rewrite (Hext i ltac:(lia)). apply IH. intros j Hj. apply Hext. lia.
Qed.

End Attained.

Lemma second_pass_loop_ext (ts ts' : list float) mean : forall todo i v,
  (forall j, (j < i + todo)%nat ->
     times_get 0%float ts j = times_get 0%float ts' j) ->
  second_pass_loop ts mean todo i v = second_pass_loop ts' mean todo i v.
Proof.
  induction todo as [|todo IH]; intros i v Hext; cbn [second_pass_loop].
  - reflexivity.
  - rewrite (Hext i ltac:(lia)). apply IH. intros j Hj. apply Hext. lia.
Qed.

Lemma times_get_firstn (ts : list float) n j :
  (j < n)%nat ->
  times_get 0%float (firstn n ts) j = times_get 0%float ts j.
Proof.
  unfold times_get. revert n j.
  induction ts as [|x ts IH]; intros n j Hj.
  - now rewrite firstn_nil.
  - destruct n as [|n]; [lia|]. destruct j as [|j]; [reflexivity|].
    cbn [firstn nth]. apply IH. lia.
Qed.

(** X8 -- The minimum and the maximum that [cb_stats_compute] reports are
    always two of the first [count] samples themselves, never a value it
    made up, whatever the samples are (NaN and infinities included). *)
Theorem stats_min_max_are_samples (ts : list float) (count : Z)
  (out : cb_bench_stats_t) :
  1 <= count <= Z.of_nat (length ts) ->
  exists st,
    cb_stats_compute (Some ts) count (Some out) = (CB_OK, Some st)
    /\ In (min_sec st) (firstn (Z.to_nat count) ts)
    /\ In (max_sec st) (firstn (Z.to_nat count) ts).
Proof.
  intros [Hlo Hhi].
  destruct (StatsFacts.cb_stats_compute_ok ts count out Hlo)
    as (st & E & Hmin & Hmax & _).
  exists st. split; [exact E|].
  assert (Hin : forall j, (j < Z.to_nat count)%nat ->
                  In (times_get 0%float ts j) (firstn (Z.to_nat count) ts)).
  { intros j Hj. rewrite <- (times_get_firstn ts (Z.to_nat count) j Hj).
    unfold times_get. apply nth_In. rewrite length_firstn. lia. }
  destruct (first_pass_loop_attained 0%float PrimFloat.add PrimFloat.ltb ts
              (Z.to_nat count) 0
              (mk_pass1 0%float (times_get 0%float ts 0) (times_get 0%float ts 0))
              (Z.to_nat count))
    as [(j1 & Hj1 & E1) (j2 & Hj2 & E2)].
  - lia.
  - exists 0%nat. split; [lia | reflexivity].
  - exists 0%nat. split; [lia | reflexivity].
  - unfold first_pass in Hmin, Hmax. rewrite Hmin, Hmax, E1, E2.
    split; apply Hin; assumption.
Qed.

Lemma stats_min_max_are_samples_witness :
  exists st,
    cb_stats_compute (Some [3; 1; 2; 9]%float) 3 (Some (mk_stats 0 0 0 0 0))
    = (CB_OK, Some st)
    /\ In (min_sec st) (firstn 3 [3; 1; 2; 9]%float)
    /\ In (max_sec st) (firstn 3 [3; 1; 2; 9]%float).
Proof.
  apply (stats_min_max_are_samples [3; 1; 2; 9]%float 3 (mk_stats 0 0 0 0 0)).
  cbn. lia.
Defined.

(** X9 -- [cb_stats_compute] reads [times[0 .. count-1]] and nothing after
    them: whatever follows the first [count] samples in memory has no
    influence on any field of the statistics or on the error code. *)
Theorem stats_reads_count_samples (ts after : list float) (count : Z)
  (out : option cb_bench_stats_t) :
  count <= Z.of_nat (length ts) ->
  cb_stats_compute (Some (ts ++ after)) count out
  = cb_stats_compute (Some ts) count out.
Proof.
  intros Hc. unfold cb_stats_compute.
  destruct out as [o|]; [|reflexivity].
  destruct (Z.ltb_spec count 1) as [_ | Hlo]; [reflexivity|].
  assert (Hext : forall j, (j < 0 + Z.to_nat count)%nat ->
            times_get 0%float (ts ++ after) j = times_get 0%float ts j).
  { intros j Hj. unfold times_get. apply app_nth1. lia. }
  unfold first_pass.
  rewrite (first_pass_loop_ext 0%float PrimFloat.add PrimFloat.ltb
             (ts ++ after) ts (Z.to_nat count) 0 _ Hext).
  rewrite (Hext 0%nat ltac:(lia)).
  rewrite (second_pass_loop_ext (ts ++ after) ts _ (Z.to_nat count) 0 _ Hext).
  reflexivity.
Qed.

Lemma stats_reads_count_samples_witness :
  cb_stats_compute (Some ([3; 1; 2] ++ [9; 7])%float) 3
    (Some (mk_stats 0 0 0 0 0))
  = cb_stats_compute (Some [3; 1; 2]%float) 3 (Some (mk_stats 0 0 0 0 0)).
Proof.
  apply (stats_reads_count_samples [3; 1; 2]%float [9; 7]%float 3).
  cbn. lia.
Defined.

End SampleFacts.

(** ** What is written into a pipe is what is read from it *)

Module PipeWriteFacts.
Import PlatformUnix PipeSpec PipeWriteUnix.

Lemma firstn_plus {A} (l : list A) : forall k n,
  firstn (k + n) l = firstn k l ++ firstn n (skipn k l).
Proof.
  induction l as [|x l IH]; intros k n.
  - now rewrite !firstn_nil, skipn_nil, firstn_nil.
  - destruct k as [|k]; [reflexivity|].
    cbn [Nat.add firstn skipn app]. now rewrite IH.
Qed.

(** The write loop ends, and what the pipe has taken is always a prefix of
    the buffer: all of it on success, a proper prefix on failure. *)
Lemma pipe_write_loop_spec : forall script data sent,
  exists script',
    pipe_write_loop script data sent = (CB_OK, sent ++ data, script')
    \/ exists n, (n < length data)%nat
         /\ pipe_write_loop script data sent
            = (CB_ERR_PIPE, sent ++ firstn n data, script').
Proof.
  induction script as [|ev script IH]; intros data sent.
  - exists []. left. destruct data; cbn; [now rewrite app_nil_r | reflexivity].
  - destruct data as [|b data].
    + eexists. left. cbn. now rewrite app_nil_r.
    + cbn [pipe_write_loop]. destruct ev as [k | | ].
      * destruct (IH (skipn k (b :: data)) (sent ++ firstn k (b :: data)))
          as (script' & [E | (n & Hn & E)]); exists script'.
        -- left. rewrite E, <- app_assoc, firstn_skipn. reflexivity.
        -- right. rewrite length_skipn in Hn.
           exists (k + n)%nat. split; [lia|].
           rewrite E, <- app_assoc, firstn_plus. reflexivity.
      * apply IH.
      * exists script. right. exists 0%nat. split; [cbn [length]; lia|].
        cbn [firstn]. now rewrite app_nil_r.
Qed.

(** X10 -- What [cb_pipe_write] puts into a pipe, [cb_pipe_read] takes out
    of it.  If the write returns [CB_OK], every byte of the buffer went into
    the pipe, and a reader asking for as many bytes gets [CB_OK] and exactly
    the buffer, however the kernel splits or interrupts the transfers.  If
    the write fails, only a proper prefix went in, and a reader that finds
    nothing else in the pipe gets [CB_ERR_PIPE]. *)
Theorem pipe_write_then_read script data err sent script' :
  cb_pipe_write script data = (err, sent, script') ->
  (err = CB_OK \/ err = CB_ERR_PIPE)
  /\ (err = CB_OK ->
        sent = data
        /\ forall p, unix_stream p = sent ->
             exists p', cb_pipe_read p (length data) = Some (CB_OK, data, p'))
  /\ (err = CB_ERR_PIPE ->
        (length sent < length data)%nat
        /\ sent = firstn (length sent) data
        /\ forall p, unix_stream p = sent ->
             exists p', cb_pipe_read p (length data) = Some (CB_ERR_PIPE, sent, p')).
Proof.
  unfold cb_pipe_write. intros E.
  assert (Hread : forall p, exists p',
            cb_pipe_read p (length data)
            = (if (length data <=? length (unix_stream p))%nat
               then Some (CB_OK, firstn (length data) (unix_stream p), p')
               else Some (CB_ERR_PIPE, unix_stream p, p'))).
  { intros p. unfold cb_pipe_read.
    destruct (PipeFacts.unix_pipe_read_loop_spec (length p + length data) p
                (length data) [] (Nat.le_refl _)) as (p' & Er & _).
    exists p'. exact Er. }
  destruct (pipe_write_loop_spec script data []) as (s' & [E' | (n & Hn & E')]);
    rewrite E' in E; injection E as <- <- <-; cbn [app].
  - split; [now left|]. split; [|discriminate].
    intros _. split; [reflexivity|]. intros p Hp.
    destruct (Hread p) as (p' & Er). exists p'. rewrite Er, Hp.
    rewrite Nat.leb_refl, firstn_all. reflexivity.
  - assert (Hlen : length (firstn n data) = n) by (rewrite length_firstn; lia).
    split; [now right|]. split; [discriminate|].
    intros _. rewrite Hlen. split; [exact Hn|]. split; [reflexivity|].
    intros p Hp. destruct (Hread p) as (p' & Er). exists p'.
    rewrite Er, Hp, Hlen.
    destruct (Nat.leb_spec (length data) n); [lia | reflexivity].
Qed.

Lemma pipe_write_then_read_witness :
  (CB_OK = CB_OK \/ CB_OK = CB_ERR_PIPE)
  /\ (CB_OK = CB_OK ->
        [Byte.x01; Byte.x02; Byte.x03] = [Byte.x01; Byte.x02; Byte.x03]
        /\ forall p, unix_stream p = [Byte.x01; Byte.x02; Byte.x03] ->
             exists p',
               cb_pipe_read p (length [Byte.x01; Byte.x02; Byte.x03])
               = Some (CB_OK, [Byte.x01; Byte.x02; Byte.x03], p'))
  /\ (CB_OK = CB_ERR_PIPE ->
        (length [Byte.x01; Byte.x02; Byte.x03]
         < length [Byte.x01; Byte.x02; Byte.x03])%nat
        /\ [Byte.x01; Byte.x02; Byte.x03]
           = firstn (length [Byte.x01; Byte.x02; Byte.x03])
               [Byte.x01; Byte.x02; Byte.x03]
        /\ forall p, unix_stream p = [Byte.x01; Byte.x02; Byte.x03] ->
             exists p',
               cb_pipe_read p (length [Byte.x01; Byte.x02; Byte.x03])
               = Some (CB_ERR_PIPE, [Byte.x01; Byte.x02; Byte.x03], p')).
Proof.
  apply (pipe_write_then_read [Accept 2; Eintr; Accept 0; Accept 5]
           [Byte.x01; Byte.x02; Byte.x03] CB_OK
           [Byte.x01; Byte.x02; Byte.x03] []).
  reflexivity.
Defined.

(** A writer that fails after one of three bytes: the reader sees a short
    transfer and reports it. *)
Example pipe_write_fails_short :
  cb_pipe_write [Accept 1; Eintr; Fail] [Byte.x01; Byte.x02; Byte.x03]
  = (CB_ERR_PIPE, [Byte.x01], [])
  /\ cb_pipe_read [Chunk Byte.x01 []] 3 = Some (CB_ERR_PIPE, [Byte.x01], []).
Proof. split; reflexivity. Qed.

(** One close call hands at most one descriptor to [close], and only a
    descriptor that is still open. *)
Lemma close_read_once p ok err p' closed :
  cb_pipe_close_read p ok = (err, p', closed) ->
  (closed = [] /\ p' = p /\ fd_read p < 0 /\ err = CB_OK)
  \/ (closed = [fd_read p] /\ 0 <= fd_read p
      /\ ((ok = true /\ err = CB_OK /\ p' = mk_fds (-1) (fd_write p))
          \/ (ok = false /\ err = CB_ERR_PIPE /\ p' = p))).
Proof.
  unfold cb_pipe_close_read.
  destruct (Z.leb_spec 0 (fd_read p)) as [H | H].
  - destruct ok; intros E; injection E as <- <- <-; right;
      (split; [reflexivity|]); (split; [exact H|]); [left | right]; auto.
  - intros E; injection E as <- <- <-. left. auto.
Qed.

Lemma close_write_once p ok err p' closed :
  cb_pipe_close_write p ok = (err, p', closed) ->
  (closed = [] /\ p' = p /\ fd_write p < 0 /\ err = CB_OK)
  \/ (closed = [fd_write p] /\ 0 <= fd_write p
      /\ ((ok = true /\ err = CB_OK /\ p' = mk_fds (fd_read p) (-1))
          \/ (ok = false /\ err = CB_ERR_PIPE /\ p' = p))).
Proof.
  unfold cb_pipe_close_write.
  destruct (Z.leb_spec 0 (fd_write p)) as [H | H].
  - destruct ok; intros E; injection E as <- <- <-; right;
      (split; [reflexivity|]); (split; [exact H|]); [left | right]; auto.
  - intros E; injection E as <- <- <-. left. auto.
Qed.

(** One close call: the open descriptors stay distinct, none is added, and
    a descriptor whose [close] succeeded is open no more. *)
Lemma close_step (read_end ok : bool) p err p1 c1 :
  (if read_end then cb_pipe_close_read p ok else cb_pipe_close_write p ok)
  = (err, p1, c1) ->
  NoDup (open_fds p) ->
  NoDup (open_fds p1)
  /\ incl (open_fds p1) (open_fds p)
  /\ incl c1 (open_fds p)
  /\ NoDup c1
  /\ (ok = true -> forall fd, In fd c1 -> ~ In fd (open_fds p1)).
Proof.
  intros E Hnd.
  assert (Hcases :
    (c1 = [] /\ p1 = p)
    \/ (ok = false /\ p1 = p /\ exists fd, c1 = [fd] /\ In fd (open_fds p))
    \/ (ok = true /\ 0 <= fd_read p /\ c1 = [fd_read p]
        /\ p1 = mk_fds (-1) (fd_write p))
    \/ (ok = true /\ 0 <= fd_write p /\ c1 = [fd_write p]
        /\ p1 = mk_fds (fd_read p) (-1))).
  { destruct read_end.
    - apply close_read_once in E.
      destruct E as [(-> & -> & _) | (-> & Hop & [(-> & _ & ->) | (-> & _ & ->)])].
      + now left.
      + right; right; left. auto.
      + right; left. split; [reflexivity|]. split; [reflexivity|].
        eexists. split; [reflexivity|]. unfold open_fds.
        destruct (Z.leb_spec 0 (fd_read p)); [now left | lia].
    - apply close_write_once in E.
      destruct E as [(-> & -> & _) | (-> & Hop & [(-> & _ & ->) | (-> & _ & ->)])].
      + now left.
      + right; right; right. auto.
      + right; left. split; [reflexivity|]. split; [reflexivity|].
        eexists. split; [reflexivity|]. unfold open_fds.
        destruct (Z.leb_spec 0 (fd_write p)); [|lia].
        apply in_or_app. right. now left. }
  destruct Hcases
    as [(-> & ->) | [(-> & -> & fd & -> & Hin)
                    | [(-> & Hop & -> & ->) | (-> & Hop & -> & ->)]]].
  - split; [exact Hnd|]. split; [apply incl_refl|]. split; [intros fd []|].
    split; [constructor | intros _ fd []].
  - split; [exact Hnd|]. split; [apply incl_refl|].
    split; [intros x [<- | []]; exact Hin|].
    split; [constructor; [intros [] | constructor] | discriminate].
  - revert Hnd. unfold open_fds. cbn [fd_read fd_write].
    destruct (Z.leb_spec 0 (fd_read p)); [|lia].
    change (0 <=? -1) with false. cbn [app].
    destruct (0 <=? fd_write p); intros Hnd.
    + inversion Hnd as [|x0 l0 Hnot Hnd0]; subst x0 l0. repeat split.
      * constructor; [intros [] | constructor].
      * intros x [<- | []]. right. now left.
      * intros x [<- | []]. now left.
      * constructor; [intros [] | constructor].
      * intros _ x [<- | []]. exact Hnot.
    + repeat split.
      * constructor.
      * intros x [].
      * intros x [<- | []]. now left.
      * constructor; [intros [] | constructor].
      * intros _ x _ [].
  - revert Hnd. unfold open_fds. cbn [fd_read fd_write].
    destruct (Z.leb_spec 0 (fd_write p)); [|lia].
    change (0 <=? -1) with false.
    destruct (0 <=? fd_read p); cbn [app]; intros Hnd.
    + inversion Hnd as [|x0 l0 Hnot Hnd0]; subst x0 l0. repeat split.
      * constructor; [intros [] | constructor].
      * intros x [<- | []]. now left.
      * intros x [<- | []]. right. now left.
      * constructor; [intros [] | constructor].
      * intros _ x [<- | []] [Heq | []]. apply Hnot. left. now symmetry.
    + repeat split.
      * constructor.
      * intros x [].
      * intros x [<- | []]. now left.
      * constructor; [intros [] | constructor].
      * intros _ x _ [].
Qed.

Lemma close_calls_spec : forall calls p p' closed,
  NoDup (open_fds p) ->
  close_calls p calls = (p', closed) ->
  incl closed (open_fds p)
  /\ (Forall (fun c => snd c = true) calls -> NoDup closed).
Proof.
  induction calls as [|[read_end ok] calls IH]; intros p p' closed Hnd;
    cbn [close_calls].
  - intros E. injection E as <- <-. split; [intros fd []|]. intros _. constructor.
  - destruct (if read_end then cb_pipe_close_read p ok
              else cb_pipe_close_write p ok) as [[err p1] c1] eqn:E1.
    destruct (close_calls p1 calls) as [p2 c2] eqn:E2.
    intros E. injection E as <- <-.
    destruct (close_step read_end ok p err p1 c1 E1 Hnd)
      as (Hnd1 & Hsub & Hc1 & Hnd_c1 & Hgone).
    destruct (IH p1 p2 c2 Hnd1 E2) as (Ha & Hb).
    split.
    + intros fd Hfd. apply in_app_or in Hfd. destruct Hfd as [Hfd | Hfd].
      * now apply Hc1.
      * now apply Hsub, Ha.
    + intros Hall. inversion Hall as [|? ? Hok Hrest]. cbn [snd] in Hok. subst.
      apply NoDup_app; [exact Hnd_c1 | now apply Hb |].
      intros fd Hfd1 Hfd2. apply (Hgone eq_refl fd Hfd1). now apply Ha.
Qed.

(** X11 -- No descriptor is closed twice.  In any sequence of
    [cb_pipe_close_read] and [cb_pipe_close_write] calls on one pipe whose
    [close] calls succeed, each descriptor handed to [close] is one of the
    pipe's own open descriptors and is handed over at most once. *)
Theorem pipe_never_closed_twice p calls p' closed :
  NoDup (open_fds p) ->
  Forall (fun c => snd c = true) calls ->
  close_calls p calls = (p', closed) ->
  NoDup closed /\ incl closed (open_fds p).
Proof.
  intros Hnd Hall E.
  destruct (close_calls_spec calls p p' closed Hnd E) as (Ha & Hb).
  split; [now apply Hb | exact Ha].
Qed.

Lemma pipe_never_closed_twice_witness :
  NoDup [3; 4] /\ incl [3; 4] (open_fds (mk_fds 3 4)).
Proof.
  apply (pipe_never_closed_twice (mk_fds 3 4)
           [(true, true); (true, true); (false, true); (true, true);
            (false, true)]
           (mk_fds (-1) (-1)) [3; 4]).
  - constructor; [intros [H | []]; discriminate|].
    constructor; [intros [] | constructor].
  - repeat constructor.
  - reflexivity.
Defined.

End PipeWriteFacts.

(** ** The interactive prompts decide the whole configuration *)

Module InteractiveFacts.
Import Input.

Section WithLibc.
Variable strtol : String.string -> strto_result.
Variable strtoul : String.string -> strto_result.
Variable atoi : String.string -> Z.

(** A numeric prompt ends in one of two ways: a value in range, or the end
    of the input. *)
Lemma read_long_cases lo hi : forall stdin,
  (exists v rest, read_long strtol stdin lo hi = (CB_OK, Some v, rest)
                  /\ lo <= v <= hi)
  \/ read_long strtol stdin lo hi = (CB_ERR_INPUT, None, []).
Proof.
  induction stdin as [|line stdin IH]; cbn [read_long].
  - now right.
  - destruct (st_end (strtol (strip_newline line)) =? 0)%nat; [apply IH|].
    destruct (st_end (strtol (strip_newline line))
              <? String.length (strip_newline line))%nat; [apply IH|].
    destruct (st_erange (strtol (strip_newline line))); [apply IH|].
    destruct (Z.ltb_spec (st_val (strtol (strip_newline line))) lo) as [Hlo | Hlo];
      cbn [orb]; [apply IH|].
    destruct (Z.ltb_spec hi (st_val (strtol (strip_newline line)))) as [Hhi | Hhi];
      [apply IH|].
    left. eexists _, _. split; [reflexivity | lia].
Qed.

Lemma read_ulong_cases lo hi : forall stdin,
  (exists v rest, read_ulong strtoul stdin lo hi = (CB_OK, Some v, rest)
                  /\ lo <= v <= hi)
  \/ read_ulong strtoul stdin lo hi = (CB_ERR_INPUT, None, []).
Proof.
  induction stdin as [|line stdin IH]; cbn [read_ulong].
  - now right.
  - destruct (Ascii.eqb (first_char (strip_newline line)) "-"%char); [apply IH|].
    destruct (st_end (strtoul (strip_newline line)) =? 0)%nat; [apply IH|].
    destruct (st_end (strtoul (strip_newline line))
              <? String.length (strip_newline line))%nat; [apply IH|].
    destruct (st_erange (strtoul (strip_newline line))); [apply IH|].
    destruct (Z.ltb_spec (st_val (strtoul (strip_newline line))) lo) as [Hlo | Hlo];
      cbn [orb]; [apply IH|].
    destruct (Z.ltb_spec hi (st_val (strtoul (strip_newline line)))) as [Hhi | Hhi];
      [apply IH|].
    left. eexists _, _. split; [reflexivity | lia].
Qed.

Lemma read_yes_no_cases : forall stdin,
  (exists v rest, read_yes_no stdin = (CB_OK, Some v, rest))
  \/ read_yes_no stdin = (CB_ERR_INPUT, None, []).
Proof.
  induction stdin as [|line stdin IH]; cbn [read_yes_no].
  - now right.
  - destruct (Ascii.eqb (first_char line) "y"%char
              || Ascii.eqb (first_char line) "Y"%char);
      [left; eexists _, _; reflexivity|].
    destruct (Ascii.eqb (first_char line) "n"%char
              || Ascii.eqb (first_char line) "N"%char);
      [left; eexists _, _; reflexivity|].
    apply IH.
Qed.

Ltac prompt_step :=
  match goal with
  | |- context [read_long strtol ?i ?lo ?hi] =>
    let v := fresh "v" in let rest := fresh "rest" in
    let E := fresh "E" in let Hr := fresh "Hr" in
    destruct (read_long_cases lo hi i) as [(v & rest & E & Hr) | E];
    rewrite E
  | |- context [read_ulong strtoul ?i ?lo ?hi] =>
    let v := fresh "v" in let rest := fresh "rest" in
    let E := fresh "E" in let Hr := fresh "Hr" in
    destruct (read_ulong_cases lo hi i) as [(v & rest & E & Hr) | E];
    rewrite E
  | |- context [read_yes_no ?i] =>
    let v := fresh "v" in let rest := fresh "rest" in
    let E := fresh "E" in
    destruct (read_yes_no_cases i) as [(v & rest & E) | E];
    rewrite E
  end; cbn [is_err cb_error_code Z.eqb negb].

(** Every way through [cb_input_interactive]: either all prompts were
    answered, and the configuration is made of the answers and of nothing
    else but the incoming verbose flag; or the input ended. *)
Lemma interactive_cases (c0 : cb_config_t) (stdin : stdin_t) :
  (exists len np nt s it v rest,
     cb_input_interactive strtol strtoul (Some c0) stdin
     = (CB_OK, Some (mk_config len np nt s it v), rest)
     /\ (forall c0', verbose c0' = verbose c0 ->
           cb_input_interactive strtol strtoul (Some c0') stdin
           = (CB_OK, Some (mk_config len np nt s it v), rest))
     /\ CB_MIN_ARRAY_LEN <= len <= INT_MAX
     /\ CB_MIN_WORKERS <= np <= CB_MAX_WORKERS
     /\ CB_MIN_WORKERS <= nt <= CB_MAX_WORKERS
     /\ 0 <= s <= UINT_MAX
     /\ 1 <= it <= 100
     /\ (verbose c0 = true -> v = true))
  \/ (exists c,
        cb_input_interactive strtol strtoul (Some c0) stdin
        = (CB_ERR_INPUT, Some c, [])).
Proof.
  unfold cb_input_interactive.
  destruct (verbose c0) eqn:Ev.
  - cbn [is_err cb_error_code Z.eqb negb].
    prompt_step; [|right; eexists; reflexivity].
    prompt_step; [|right; eexists; reflexivity].
    prompt_step; [|right; eexists; reflexivity].
    prompt_step; [|right; eexists; reflexivity].
    prompt_step; [|right; eexists; reflexivity].
    left. exists v, v0, v1, v2, v3, true, rest3.
    split; [unfold set_iterations, set_seed, set_num_threads, set_num_processes,
              set_array_length; cbn; now rewrite Ev|].
    split.
    { intros c0' Hv. rewrite Hv. cbn [is_err cb_error_code Z.eqb negb].
      rewrite E, E0, E1, E2, E3.
      unfold set_iterations, set_seed, set_num_threads, set_num_processes,
        set_array_length; cbn. now rewrite Hv. }
    repeat (split; [assumption|]). reflexivity.
  - prompt_step; [|right; eexists; reflexivity].
    prompt_step; [|right; eexists; reflexivity].
    prompt_step; [|right; eexists; reflexivity].
    prompt_step; [|right; eexists; reflexivity].
    prompt_step; [|right; eexists; reflexivity].
    prompt_step; [|right; eexists; reflexivity].
    left. exists v0, v1, v2, v3, v4, v, rest4.
    split; [reflexivity|].
    split.
    { intros c0' Hv. rewrite Hv. cbn [is_err cb_error_code Z.eqb negb].
      rewrite E0, E1, E2, E3, E4. reflexivity. }
    repeat (split; [assumption|]). discriminate.
Qed.

End WithLibc.

(** X12 -- Every configuration that [cb_input_interactive] accepts has all
    its fields in range: the array length in [1000, INT_MAX], the numbers
    of processes and threads in [1, 256], the seed in [0, UINT_MAX], the
    iterations in [1, 100].  Hence no mode has more workers than elements,
    which is what the partition of the array relies on. *)
Theorem interactive_fields_in_range
  (strtol strtoul : String.string -> strto_result)
  (c0 c : cb_config_t) (stdin rest : stdin_t) :
  cb_input_interactive strtol strtoul (Some c0) stdin = (CB_OK, Some c, rest) ->
  CB_MIN_ARRAY_LEN <= array_length c <= INT_MAX
  /\ CB_MIN_WORKERS <= num_processes c <= CB_MAX_WORKERS
  /\ CB_MIN_WORKERS <= num_threads c <= CB_MAX_WORKERS
  /\ 0 <= seed c <= UINT_MAX
  /\ 1 <= iterations c <= 100
  /\ num_processes c <= array_length c
  /\ num_threads c <= array_length c
  /\ (verbose c0 = true -> verbose c = true).
Proof.
  intros E.
  destruct (interactive_cases strtol strtoul c0 stdin)
    as [(len & np & nt & s & it & v & rest' & E' & _ & H1 & H2 & H3 & H4 & H5 & H6)
       | (c' & E')];
    rewrite E' in E; [|discriminate].
  injection E as <- <-. cbn [array_length num_processes num_threads seed
                              iterations verbose].
  unfold CB_MIN_ARRAY_LEN, CB_MAX_WORKERS in *.
  repeat (split; [assumption || lia|]). exact H6.
Qed.

Lemma interactive_fields_in_range_witness :
  CB_MIN_ARRAY_LEN <= array_length (mk_config 1000000 4 8 314159 20 false)
    <= INT_MAX
  /\ CB_MIN_WORKERS <= num_processes (mk_config 1000000 4 8 314159 20 false)
     <= CB_MAX_WORKERS
  /\ CB_MIN_WORKERS <= num_threads (mk_config 1000000 4 8 314159 20 false)
     <= CB_MAX_WORKERS
  /\ 0 <= seed (mk_config 1000000 4 8 314159 20 false) <= UINT_MAX
  /\ 1 <= iterations (mk_config 1000000 4 8 314159 20 false) <= 100
  /\ num_processes (mk_config 1000000 4 8 314159 20 false)
     <= array_length (mk_config 1000000 4 8 314159 20 false)
  /\ num_threads (mk_config 1000000 4 8 314159 20 false)
     <= array_length (mk_config 1000000 4 8 314159 20 false)
  /\ (verbose (mk_config 0 0 0 0 500 false) = true ->
      verbose (mk_config 1000000 4 8 314159 20 false) = true).
Proof.
  apply (interactive_fields_in_range Libc.strtol Libc.strtoul
           (mk_config 0 0 0 0 500 false) (mk_config 1000000 4 8 314159 20 false)
           Libc.sample_stdin []).
  reflexivity.
Defined.

(** X13 -- Of the configuration it is given, [cb_input_interactive] uses
    the verbose flag and nothing else: the five numeric fields of an
    accepted configuration are the answers to the prompts.  In particular
    the [--iterations] value of the command line never reaches the
    benchmarks. *)
Theorem interactive_overrides_command_line
  (strtol strtoul : String.string -> strto_result)
  (c0 c0' c : cb_config_t) (stdin rest : stdin_t) :
  verbose c0' = verbose c0 ->
  cb_input_interactive strtol strtoul (Some c0) stdin = (CB_OK, Some c, rest) ->
  cb_input_interactive strtol strtoul (Some c0') stdin = (CB_OK, Some c, rest).
Proof.
  intros Hv E.
  destruct (interactive_cases strtol strtoul c0 stdin)
    as [(len & np & nt & s & it & v & rest' & E' & Hany & _) | (c' & E')];
    rewrite E' in E; [|discriminate].
  injection E as <- <-. now apply Hany.
Qed.

Lemma interactive_overrides_command_line_witness :
  cb_input_interactive Libc.strtol Libc.strtoul
    (Some (mk_config 7 7 7 7 500 false)) Libc.sample_stdin
  = (CB_OK, Some (mk_config 1000000 4 8 314159 20 false), []).
Proof.
  apply (interactive_overrides_command_line Libc.strtol Libc.strtoul
           (mk_config 0 0 0 0 5 false) (mk_config 7 7 7 7 500 false)).
  - reflexivity.
  - reflexivity.
Defined.

(** X14 -- [cb_input_interactive] never gives up on a bad answer: a line
    that does not parse, or a value out of range, is asked again.  The only
    error it returns for a non-NULL configuration is [CB_ERR_INPUT], and
    only once standard input is exhausted. *)
Theorem interactive_fails_only_at_eof
  (strtol strtoul : String.string -> strto_result)
  (c0 : cb_config_t) (stdin : stdin_t) :
  exists c rest,
    (cb_input_interactive strtol strtoul (Some c0) stdin = (CB_OK, Some c, rest)
     \/ (cb_input_interactive strtol strtoul (Some c0) stdin
         = (CB_ERR_INPUT, Some c, rest) /\ rest = [])).
Proof.
  destruct (interactive_cases strtol strtoul c0 stdin)
    as [(len & np & nt & s & it & v & rest' & E' & _) | (c' & E')].
  - eexists _, _. left. exact E'.
  - exists c', []. right. split; [exact E' | reflexivity].
Qed.

End InteractiveFacts.

(** ** The dataset: automatic seeds, failure, what is written back *)

Module SeedFacts.
Import Dataset.

Section WithRand.
Variable prng : Type.
Variable srand : Z -> prng.
Variable rand : prng -> Z * prng.

Lemma populate_length v ps : forall todo st i,
  length (fst (fst (populate prng rand v ps st todo i))) = todo.
Proof.
  induction todo as [|todo IH]; intros st i; cbn [populate].
  - reflexivity.
  - destruct (rand st) as [x st'].
    specialize (IH st' (i + 1)).
    destruct (populate prng rand v ps st' todo (i + 1)) as [[data marks] st''].
    cbn [fst length] in *. now rewrite IH.
Qed.

Lemma populate_silent ps : forall todo st i,
  snd (fst (populate prng rand false ps st todo i)) = O.
Proof.
  induction todo as [|todo IH]; intros st i; cbn [populate].
  - reflexivity.
  - destruct (rand st) as [x st'].
    specialize (IH st' (i + 1)).
    destruct (populate prng rand false ps st' todo (i + 1)) as [[data marks] st''].
    cbn [fst snd andb Nat.add] in *. exact IH.
Qed.

End WithRand.

(** X15 -- A dataset made with an automatic seed can be made again.  When
    the configured seed is 0, [cb_dataset_create] writes the seed it drew
    into the configuration; if that seed is not 0, a later call with the
    configuration it left behind succeeds with the very same dataset, at
    any time of day and with any verbosity, and changes nothing more. *)
Theorem dataset_auto_seed_replay (prng : Type) (srand : Z -> prng)
  (rand : prng -> Z * prng) (c c' : cb_config_t) e e' out out' v v'
  (data : list Z) marks :
  seed c = 0 ->
  cb_dataset_create prng srand rand e (Some c) (Some out) v
  = (CB_OK, Some c', Some (Some data), marks) ->
  seed c' <> 0 ->
  malloc_ok e' = true ->
  exists marks',
    cb_dataset_create prng srand rand e' (Some c') (Some out') v'
    = (CB_OK, Some c', Some (Some data), marks').
Proof.
  intros Hs E Hs' Hm.
  destruct (DatasetFacts.dataset_create_fixed_seed prng srand rand c' e' out' v'
              Hs' Hm) as (marks' & E').
  exists marks'. rewrite E'. do 3 f_equal.
  revert E. unfold cb_dataset_create. rewrite Hs. cbn [Z.eqb].
  destruct (negb (malloc_ok e)); [discriminate|].
  match goal with
  | |- context [populate prng rand v ?ps ?st ?n 0] =>
    pose proof (DatasetFacts.populate_data_only prng rand v false ps 1 n st 0 0)
      as Hd;
    destruct (populate prng rand v ps st n 0) as [[d m] st']
  end.
  cbn [fst] in Hd. intros E. injection E as <- <- _. subst d.
  reflexivity.
Qed.

Lemma dataset_auto_seed_replay_witness :
  exists marks',
    cb_dataset_create Z iso_srand iso_rand DatasetSamples.evening
      (Some (set_seed SeedSamples.auto_config 7723)) (Some (Some [7])) true
    = (CB_OK, Some (set_seed SeedSamples.auto_config 7723),
       Some (Some [17; 33; 85; 17; 5; 66; 89; 17; 95; 3; 91; 40]), marks').
Proof.
  apply (dataset_auto_seed_replay Z iso_srand iso_rand SeedSamples.auto_config
           (set_seed SeedSamples.auto_config 7723)
           DatasetSamples.morning DatasetSamples.evening None (Some [7])
           false true
           [17; 33; 85; 17; 5; 66; 89; 17; 95; 3; 91; 40] 0%nat).
  - reflexivity.
  - vm_compute. reflexivity.
  - discriminate.
  - reflexivity.
Defined.

(** The one automatic seed that cannot be replayed: when the generator's
    first number is 0, the seed written back is 0 again, and the next call
    draws a new one from the clock. *)
Example dataset_auto_seed_zero :
  option_map seed
    (snd (fst (fst (cb_dataset_create Z iso_srand iso_rand SeedSamples.unlucky
                      (Some SeedSamples.auto_config) (Some None) false))))
  = Some 0.
Proof. vm_compute. reflexivity. Qed.

(** Of the configuration, [cb_dataset_create] writes the seed only. *)
Lemma dataset_create_config (prng : Type) (srand : Z -> prng)
  (rand : prng -> Z * prng) (c c' : cb_config_t) e out v err data marks :
  cb_dataset_create prng srand rand e (Some c) out v
  = (err, Some c', data, marks) ->
  c' = set_seed c (seed c').
Proof.
  unfold cb_dataset_create. destruct out as [o|].
  - set (c1 := if seed c =? 0
               then set_seed c (to_unsigned
                                  (fst (rand (srand (to_unsigned (time_now e))))))
               else c).
    assert (H1 : c1 = set_seed c (seed c1)).
    { unfold c1. destruct (seed c =? 0); [reflexivity|]. now destruct c. }
    destruct (negb (malloc_ok e)).
    + intros E. injection E as _ <- _ _. exact H1.
    + match goal with
      | |- context [populate prng rand v ?ps ?st ?n 0] =>
        destruct (populate prng rand v ps st n 0) as [[d m] st']
      end.
      intros E. injection E as _ <- _ _. exact H1.
  - intros E. injection E as _ <- _ _. now destruct c.
Qed.

(** X16 -- What [cb_dataset_create] leaves behind, for non-NULL arguments.
    It returns [CB_OK] or [CB_ERR_ALLOC]; on [CB_OK] the output pointer
    holds an array of exactly [array_length] elements, on failure it holds
    NULL, never a stale pointer.  The configuration keeps every field but
    the seed, and a non-zero seed is kept too.  Without [verbose] no
    progress mark is printed. *)
Theorem dataset_create_outcome (prng : Type) (srand : Z -> prng)
  (rand : prng -> Z * prng) (c : cb_config_t) e out v :
  exists c' marks,
    c' = set_seed c (seed c')
    /\ (seed c <> 0 -> seed c' = seed c)
    /\ (v = false -> marks = O)
    /\ ((malloc_ok e = true
         /\ exists data,
              cb_dataset_create prng srand rand e (Some c) (Some out) v
              = (CB_OK, Some c', Some (Some data), marks)
              /\ length data = Z.to_nat (array_length c))
        \/ (malloc_ok e = false
            /\ cb_dataset_create prng srand rand e (Some c) (Some out) v
               = (CB_ERR_ALLOC, Some c', Some None, marks))).
Proof.
  unfold cb_dataset_create.
  set (c1 := if seed c =? 0
             then set_seed c (to_unsigned
                                (fst (rand (srand (to_unsigned (time_now e))))))
             else c).
  assert (H1 : c1 = set_seed c (seed c1)).
  { unfold c1. destruct (seed c =? 0); [reflexivity|]. now destruct c. }
  assert (H2 : seed c <> 0 -> seed c1 = seed c).
  { unfold c1. destruct (Z.eqb_spec (seed c) 0); [contradiction | reflexivity]. }
  assert (H3 : array_length c1 = array_length c).
  { unfold c1. destruct (seed c =? 0); reflexivity. }
  destruct (malloc_ok e); cbn [negb].
  - match goal with
    | |- context [populate prng rand v ?ps ?st ?n 0] =>
      pose proof (populate_length prng rand v ps n st 0) as Hl;
      pose proof (populate_silent prng rand ps n st 0) as Hq;
      destruct (populate prng rand v ps st n 0) as [[d m] st'] eqn:Ep
    end.
    exists c1, m. split; [exact H1|]. split; [exact H2|]. split.
    + intros ->. rewrite Ep in Hq. exact Hq.
    + left. split; [reflexivity|]. exists d. split; [reflexivity|].
      cbn [fst] in Hl. now rewrite Hl, H3.
  - exists c1, O. split; [exact H1|]. split; [exact H2|].
    split; [reflexivity|]. right. split; reflexivity.
Qed.

(** Out of memory with an automatic seed: the call fails, the output is
    NULL, and the configuration already holds the seed that was drawn. *)
Example dataset_create_out_of_memory :
  cb_dataset_create Z iso_srand iso_rand SeedSamples.out_of_memory
    (Some SeedSamples.auto_config) (Some (Some [7])) true
  = (CB_ERR_ALLOC, Some (set_seed SeedSamples.auto_config 7723),
     Some None, O).
Proof. vm_compute. reflexivity. Qed.

End SeedFacts.

(** ** Error messages *)

Module ErrorFacts.
Import ErrorStr.

(** X17 -- [cb_error_str] gives every error code a message of its own, so a
    message identifies the code; and it answers "unknown error" exactly
    for the integers that are no error code. *)
Theorem error_str_identifies_code :
  (forall e1 e2,
     cb_error_str (cb_error_code e1) = cb_error_str (cb_error_code e2) ->
     e1 = e2)
  /\ (forall code,
        cb_error_str code = "unknown error"%string <-> (code < -12 \/ 0 < code)).
Proof.
  split.
  - intros e1 e2; destruct e1, e2; intros H; try reflexivity;
      vm_compute in H; discriminate.
  - intros code. unfold cb_error_str.
    repeat match goal with
           | |- context [code =? ?k] =>
             destruct (Z.eqb_spec code k);
               [subst code; split; [intros H; discriminate | intros [H | H]; lia]|]
           end.
    split; [intros _; lia | reflexivity].
Qed.

End ErrorFacts.

(** ** The shared segment of the Windows process mode *)

Module SharedMemFacts.
Import Worker Input SharedMemWin.

Lemma to_size_t_small x : 0 <= x < 2 ^ 64 -> to_size_t x = x.
Proof. intros H. unfold to_size_t. now apply Z.mod_small. Qed.

Lemma shm_result_exact a i :
  0 <= a <= INT_MAX -> shm_result a i = a * 4 + i * 16.
Proof.
  intros Ha. unfold shm_result, SIZEOF_INT, SIZEOF_RESULT, INT_MAX in *.
  rewrite (to_size_t_small a) by lia.
  rewrite to_size_t_small by lia. reflexivity.
Qed.

Lemma shm_total_size_exact a n :
  0 <= a <= INT_MAX -> 0 <= n <= INT_MAX -> shm_total_size a n = a * 4 + n * 16.
Proof.
  intros Ha Hn. unfold shm_total_size, SIZEOF_INT, SIZEOF_RESULT, INT_MAX in *.
  rewrite (to_size_t_small a) by lia. rewrite (to_size_t_small n) by lia.
  rewrite (to_size_t_small (a * 4)) by lia.
  rewrite (to_size_t_small (n * 16)) by lia.
  apply to_size_t_small. lia.
Qed.

(** X18 -- The layout of the shared segment.  For an array length and a
    worker count that are non-negative [int]s, zero workers and one worker
    included, the size of the segment is the dataset plus the slots with no
    wrap-around, and every slot -- the last one too -- starts where the
    unwrapped arithmetic puts it, behind the dataset, ends inside the
    segment, overlaps no other slot, and is aligned for a [double] exactly
    when the array length is even. *)
Theorem shm_layout a n :
  0 <= a <= INT_MAX -> 0 <= n <= INT_MAX ->
  shm_total_size a n = a * SIZEOF_INT + n * SIZEOF_RESULT
  /\ forall i, 0 <= i < n ->
       shm_result a i = a * SIZEOF_INT + i * SIZEOF_RESULT
       /\ a * SIZEOF_INT <= shm_result a i
       /\ shm_result a i + SIZEOF_RESULT <= shm_total_size a n
       /\ (shm_result a i mod 8 = 0 <-> Z.even a = true)
       /\ forall j, 0 <= j < n -> j <> i ->
            shm_result a i + SIZEOF_RESULT <= shm_result a j
            \/ shm_result a j + SIZEOF_RESULT <= shm_result a i.
Proof.
  intros Ha Hn.
  rewrite (shm_total_size_exact a n) by lia.
  split; [reflexivity|].
  intros i Hi. rewrite shm_result_exact by lia.
  unfold SIZEOF_INT, SIZEOF_RESULT.
  repeat (split; [lia|]). split.
  - replace (a * 4 + i * 16) with (a * 4 + (i * 2) * 8) by lia.
    rewrite Z.mod_add by lia.
    rewrite (Zeven.Zeven_bool_iff a), Zeven.Zeven_ex_iff.
    split.
    + intros H. exists (a / 2).
      assert (Hm : a mod 2 = 0).
      { replace 8 with (4 * 2) in H by lia.
        rewrite Z.mul_comm, Z.mul_mod_distr_l in H by lia. lia. }
      pose proof (Z.div_mod a 2 ltac:(lia)). lia.
    + intros [k ->]. replace (2 * k * 4) with (k * 8) by lia.
      apply Z.mod_mul. lia.
  - intros j Hj Hne. rewrite shm_result_exact by lia. lia.
Qed.

Lemma shm_layout_witness :
  shm_total_size 1000 1 = 1000 * SIZEOF_INT + 1 * SIZEOF_RESULT
  /\ forall i, 0 <= i < 1 ->
       shm_result 1000 i = 1000 * SIZEOF_INT + i * SIZEOF_RESULT
       /\ 1000 * SIZEOF_INT <= shm_result 1000 i
       /\ shm_result 1000 i + SIZEOF_RESULT <= shm_total_size 1000 1
       /\ (shm_result 1000 i mod 8 = 0 <-> Z.even 1000 = true)
       /\ forall j, 0 <= j < 1 -> j <> i ->
            shm_result 1000 i + SIZEOF_RESULT <= shm_result 1000 j
            \/ shm_result 1000 j + SIZEOF_RESULT <= shm_result 1000 i.
Proof.
  apply (shm_layout 1000 1); unfold INT_MAX; lia.
Defined.

(** Without workers the segment is the dataset. *)
Example shm_no_workers : shm_total_size 1000 0 = 4000.
Proof. reflexivity. Qed.

(** An array of odd length puts every result, and the [double] inside it,
    at an address that is not a multiple of 8. *)
Example shm_slot_misaligned : shm_result 1001 0 mod 8 = 4.
Proof. reflexivity. Qed.

(** X19 -- A worker writes its own result slot and nothing else.  When the
    segment opens, [cb_bench_process_worker_main] exits with status 0,
    stores in the slot of its [worker_id] the [cb_array_sum] of its slice of
    the dataset found in the segment, and leaves the dataset and the slot
    of every other worker as they were.  When the segment does not open it
    exits with status 1 and touches nothing. *)
Theorem worker_fills_own_slot open_res clock m wa :
  0 <= array_size wa <= INT_MAX -> 0 <= worker_id wa ->
  (open_res = CB_OK ->
     exists m',
       cb_bench_process_worker_main open_res clock m wa = (0, m')
       /\ seg_dataset m' = seg_dataset m
       /\ seg_result m' (shm_result (array_size wa) (worker_id wa))
          = cb_array_sum (fst clock) (snd clock) (seg_dataset m)
              (wa_start wa) (wa_length wa)
       /\ forall j, 0 <= j -> j <> worker_id wa ->
            seg_result m' (shm_result (array_size wa) j)
            = seg_result m (shm_result (array_size wa) j))
  /\ (open_res <> CB_OK ->
        cb_bench_process_worker_main open_res clock m wa = (1, m)).
Proof.
  intros Ha Hi. unfold cb_bench_process_worker_main. split.
  - intros ->. cbn [is_err cb_error_code Z.eqb negb].
    eexists. split; [reflexivity|]. cbn [seg_dataset seg_result store_result].
    split; [reflexivity|]. split.
    + now rewrite Z.eqb_refl.
    + intros j Hj Hne. rewrite !shm_result_exact by lia.
      destruct (Z.eqb_spec (array_size wa * 4 + j * 16)
                  (array_size wa * 4 + worker_id wa * 16)); [lia | reflexivity].
  - intros Hne. apply SumFacts.is_err_true in Hne. now rewrite Hne.
Qed.

Lemma worker_fills_own_slot_witness :
  (CB_OK = CB_OK ->
     exists m',
       cb_bench_process_worker_main CB_OK (1%float, 2%float)
         (mk_segment Samples.sample_dataset
            (fun _ => mk_result 0 0%float))
         (mk_worker_args 1 "concur_bench_77"%string 11 3 4 4)
       = (0, m')
       /\ seg_dataset m' = Samples.sample_dataset
       /\ seg_result m' (shm_result 11 1)
          = cb_array_sum 1%float 2%float Samples.sample_dataset 4 4
       /\ forall j, 0 <= j -> j <> 1 ->
            seg_result m' (shm_result 11 j) = mk_result 0 0%float)
  /\ (CB_OK <> CB_OK ->
        cb_bench_process_worker_main CB_OK (1%float, 2%float)
          (mk_segment Samples.sample_dataset
             (fun _ => mk_result 0 0%float))
          (mk_worker_args 1 "concur_bench_77"%string 11 3 4 4)
        = (1, mk_segment Samples.sample_dataset
                (fun _ => mk_result 0 0%float))).
Proof.
  apply (worker_fills_own_slot CB_OK (1%float, 2%float)
           (mk_segment Samples.sample_dataset (fun _ => mk_result 0 0%float))
           (mk_worker_args 1 "concur_bench_77"%string 11 3 4 4));
    cbn; unfold INT_MAX; lia.
Defined.

End SharedMemFacts.

(** ** The command line of a spawned process (Windows) *)

Module SpawnFacts.
Import SpawnWin.

Lemma length_append (s t : String.string) :
  String.length (String.append s t) = (String.length s + String.length t)%nat.
Proof.
  induction s as [|c s IH]; cbn [String.append String.length];
    [reflexivity | now rewrite IH].
Qed.

Lemma append_assoc (s t u : String.string) :
  String.append (String.append s t) u = String.append s (String.append t u).
Proof.
  induction s as [|c s IH]; cbn [String.append]; [reflexivity | now rewrite IH].
Qed.

Lemma append_empty_r (s : String.string) :
  String.append s String.EmptyString = s.
Proof.
  induction s as [|c s IH]; cbn [String.append]; [reflexivity | now rewrite IH].
Qed.

(** The arguments that follow the first one, each behind a space. *)
Lemma build_cmdline_rest : forall rest a cmdline,
  Z.of_nat (String.length cmdline) < CMDLINE_SIZE ->
  build_cmdline (a :: rest) false cmdline (Z.of_nat (String.length cmdline))
  = (let joined :=
       String.append cmdline
         (String.append " " (String.concat " " (a :: rest))) in
     if Z.of_nat (String.length joined) <? CMDLINE_SIZE
     then Some joined else None).
Proof.
  induction rest as [|b rest IH]; intros a cmdline Hc; cbn zeta.
  - cbn [build_cmdline String.concat].
    rewrite !length_append.
    match goal with
    | |- context [?x <=? ?y] => destruct (Z.leb_spec x y)
    end;
      match goal with
      | |- context [?x <? ?y] => destruct (Z.ltb_spec x y)
      end; try lia; reflexivity.
  - change (String.concat " " (a :: b :: rest))
      with (String.append a (String.append " " (String.concat " " (b :: rest)))).
    change (build_cmdline (a :: b :: rest) false cmdline
              (Z.of_nat (String.length cmdline)))
      with (if CMDLINE_SIZE - Z.of_nat (String.length cmdline)
               <=? Z.of_nat (String.length (String.append " " a))
            then None
            else build_cmdline (b :: rest) false
                   (String.append cmdline (String.append " " a))
                   (Z.of_nat (String.length cmdline)
                    + Z.of_nat (String.length (String.append " " a)))).
    destruct (Z.leb_spec (CMDLINE_SIZE - Z.of_nat (String.length cmdline))
                (Z.of_nat (String.length (String.append " " a)))) as [Hov | Hfit].
    + match goal with
      | |- context [?x <? ?y] => destruct (Z.ltb_spec x y) as [Hlt | _]
      end; [|reflexivity].
      rewrite !length_append in Hlt. rewrite length_append in Hov. lia.
    + rewrite <- Nat2Z.inj_add, <- length_append.
      rewrite IH by (rewrite !length_append; rewrite !length_append in Hfit; lia).
      cbn zeta. rewrite !append_assoc. reflexivity.
Qed.

(** X21 -- [cb_process_spawn] never starts a process on a truncated command
    line.  The command line it hands to [CreateProcessA] is exactly the
    arguments joined by single spaces; when that string with its terminator
    would not fit the buffer of 4096 bytes the call returns
    [CB_ERR_OVERFLOW] and no process is created. *)
Theorem spawn_command_line_exact (a : String.string)
  (rest : list String.string) (create_ok : String.string -> bool) :
  cb_process_spawn (Some (a :: rest)) create_ok
  = (let joined := String.concat " " (a :: rest) in
     if Z.of_nat (String.length joined) <? CMDLINE_SIZE
     then (if create_ok joined then CB_OK else CB_ERR_FORK, Some joined)
     else (CB_ERR_OVERFLOW, None)).
Proof.
  unfold cb_process_spawn. cbn zeta.
  change (build_cmdline (a :: rest) true String.EmptyString 0)
    with (if CMDLINE_SIZE - 0 <=? Z.of_nat (String.length a)
          then None
          else build_cmdline rest false (String.append String.EmptyString a)
                 (0 + Z.of_nat (String.length a))).
  cbn [String.append]. rewrite Z.sub_0_r, Z.add_0_l.
  destruct rest as [|b rest].
  - cbn [String.concat build_cmdline].
    destruct (Z.leb_spec CMDLINE_SIZE (Z.of_nat (String.length a)));
      destruct (Z.ltb_spec (Z.of_nat (String.length a)) CMDLINE_SIZE);
      try lia; [reflexivity|].
    destruct (create_ok a); reflexivity.
  - destruct (Z.leb_spec CMDLINE_SIZE (Z.of_nat (String.length a))) as [Hov | Hfit].
    + match goal with
      | |- context [?x <? ?y] => destruct (Z.ltb_spec x y) as [Hlt | _]
      end; [|reflexivity].
      cbn [String.concat] in Hlt. rewrite length_append in Hlt. lia.
    + rewrite build_cmdline_rest by exact Hfit. cbn zeta.
      change (String.concat " " (a :: b :: rest))
        with (String.append a (String.append " " (String.concat " " (b :: rest)))).
      match goal with
      | |- context [?x <? ?y] => destruct (Z.ltb_spec x y)
      end; [|reflexivity].
      match goal with |- context [create_ok ?x] => destruct (create_ok x) end;
        reflexivity.
Qed.

(** The whole loop, from the empty buffer. *)
Lemma build_cmdline_joined (a : String.string) (rest : list String.string) :
  Z.of_nat (String.length (String.concat " " (a :: rest))) < CMDLINE_SIZE ->
  build_cmdline (a :: rest) true String.EmptyString 0
  = Some (String.concat " " (a :: rest)).
Proof.
  intros Hfit.
  change (build_cmdline (a :: rest) true String.EmptyString 0)
    with (if CMDLINE_SIZE - 0 <=? Z.of_nat (String.length a)
          then None
          else build_cmdline rest false (String.append String.EmptyString a)
                 (0 + Z.of_nat (String.length a))).
  cbn [String.append]. rewrite Z.sub_0_r, Z.add_0_l.
  destruct rest as [|b rest].
  - cbn [String.concat] in *. cbn [build_cmdline].
    destruct (Z.leb_spec CMDLINE_SIZE (Z.of_nat (String.length a)));
      [lia | reflexivity].
  - change (String.concat " " (a :: b :: rest))
      with (String.append a (String.append " " (String.concat " " (b :: rest))))
      in *.
    assert (Ha : Z.of_nat (String.length a) < CMDLINE_SIZE).
    { rewrite length_append in Hfit. lia. }
    destruct (Z.leb_spec CMDLINE_SIZE (Z.of_nat (String.length a))); [lia|].
    rewrite build_cmdline_rest by exact Ha. cbn zeta.
    destruct (Z.ltb_spec
                (Z.of_nat (String.length
                   (String.append a
                      (String.append " " (String.concat " " (b :: rest))))))
                CMDLINE_SIZE); [reflexivity | lia].
Qed.

End SpawnFacts.

(** ** The command line of a worker, from the coordinator to the worker *)

Module CommandLineFacts.
Import Worker Input SharedMemWin.

(** A word without blanks is one argument. *)
Lemma split_args_word : forall a,
  Libc.plain a = true -> Libc.split_args a = [a].
Proof.
  unfold Libc.plain.
  induction a as [|c rest IH]; [discriminate|].
  cbn [String.eqb negb andb Libc.no_blank Libc.split_args].
  intros H. apply andb_prop in H. destruct H as [H Hrest].
  apply andb_prop in H. destruct H as [Hc _].
  apply negb_true_iff in Hc. rewrite Hc.
  destruct rest as [|c' rest']; [reflexivity|].
  assert (Hp : negb (String.eqb (String.String c' rest') String.EmptyString)
               && Libc.no_blank (String.String c' rest') = true)
    by (now rewrite Hrest).
  specialize (IH Hp).
  cbn [Libc.no_blank] in Hrest.
  apply andb_prop in Hrest. destruct Hrest as [Hc' _].
  apply andb_prop in Hc'. destruct Hc' as [Hc' _].
  apply negb_true_iff in Hc'. rewrite Hc'. now rewrite IH.
Qed.

(** A word without blanks, a blank, and more. *)
Lemma split_args_cons : forall a t,
  Libc.plain a = true ->
  Libc.split_args (String.append a (String.String " " t))
  = a :: Libc.split_args t.
Proof.
  unfold Libc.plain.
  induction a as [|c rest IH]; intros t; [discriminate|].
  cbn [String.eqb negb andb Libc.no_blank].
  intros H. apply andb_prop in H. destruct H as [H Hrest].
  apply andb_prop in H. destruct H as [Hc _].
  apply negb_true_iff in Hc.
  cbn [String.append]. cbn [Libc.split_args]. rewrite Hc.
  destruct rest as [|c' rest'].
  - cbn [String.append]. reflexivity.
  - assert (Hp : negb (String.eqb (String.String c' rest') String.EmptyString)
                 && Libc.no_blank (String.String c' rest') = true)
      by (now rewrite Hrest).
    specialize (IH t Hp).
    cbn [Libc.no_blank] in Hrest.
    apply andb_prop in Hrest. destruct Hrest as [Hc' _].
    apply andb_prop in Hc'. destruct Hc' as [Hc' _].
    apply negb_true_iff in Hc'.
    cbn [String.append] in IH |- *. rewrite Hc'. now rewrite IH.
Qed.

(** Arguments that need no quoting come back from the command line as they
    went in. *)
Lemma split_args_joined : forall args,
  Forall (fun a => Libc.plain a = true) args ->
  Libc.split_args (String.concat " " args) = args.
Proof.
  induction args as [|a rest IH]; intros H; [reflexivity|].
  inversion H as [|a' rest' Ha Hrest]; subst.
  destruct rest as [|b rest].
  - cbn [String.concat]. now apply split_args_word.
  - change (String.concat " " (a :: b :: rest))
      with (String.append a
              (String.String " " (String.concat " " (b :: rest)))).
    rewrite split_args_cons by exact Ha. now rewrite IH.
Qed.

(** [strncpy] of a name that fits. *)
Lemma substring_whole : forall (name : String.string) (k : nat),
  (String.length name <= k)%nat -> String.substring 0 k name = name.
Proof.
  induction name as [|ch name IH]; intros k Hk.
  - now destruct k.
  - destruct k as [|k]; [cbn [String.length] in Hk; lia|].
    cbn [String.substring]. f_equal. apply IH. cbn [String.length] in Hk. lia.
Qed.

(** X20 -- The worker's command line, from the coordinator to the worker.
    When no argument [bench_process_win.c] builds for worker [i] needs
    quoting (none is empty or holds a blank, a tab or a double quote), the
    line fits the buffer and the process is created, then
    [cb_process_spawn] hands over the arguments joined by blanks, the
    worker's runtime splits the line into the same arguments, and, in a C
    library whose [atoi] reads back what ["%d"] printed, [cb_parse_args]
    succeeds, raises the worker flag, leaves the configuration at its
    defaults and hands on exactly the worker's index, the segment name, the
    array length, the worker count and the worker's slice.  A path with a
    blank does not come back: it reaches the worker cut in two. *)
Theorem worker_command_line_round_trip
  (strtol : String.string -> strto_result) (atoi : String.string -> Z)
  (fmt : Z -> String.string) (exe_path name : String.string)
  (len n i offset chunk : Z) st0 (create_ok : String.string -> bool) :
  Forall (fun a => Libc.plain a = true)
    (child_argv fmt exe_path name len n i offset chunk) ->
  Z.of_nat (String.length
              (String.concat " "
                 (child_argv fmt exe_path name len n i offset chunk)))
  < SpawnWin.CMDLINE_SIZE ->
  create_ok (String.concat " "
               (child_argv fmt exe_path name len n i offset chunk)) = true ->
  (String.length name <= 63)%nat ->
  atoi (fmt i) = i -> atoi (fmt len) = len -> atoi (fmt n) = n ->
  atoi (fmt offset) = offset -> atoi (fmt chunk) = chunk ->
  exists cmdline,
    SpawnWin.cb_process_spawn
      (Some (child_argv fmt exe_path name len n i offset chunk)) create_ok
    = (CB_OK, Some cmdline)
    /\ Libc.split_args cmdline
       = child_argv fmt exe_path name len n i offset chunk
    /\ cb_parse_args strtol atoi (Libc.split_args cmdline) (Some st0)
       = (CB_OK,
          Some (mk_parse_state (mk_config 0 0 0 0 CB_DEFAULT_ITERATIONS false)
                  true (mk_worker_args i name len n offset chunk))).
Proof.
  intros Hplain Hfit Hcreate Hname Hi Hlen Hn Ho Hc.
  exists (String.concat " " (child_argv fmt exe_path name len n i offset chunk)).
  rewrite (split_args_joined _ Hplain).
  split; [|split; [reflexivity|]].
  - unfold SpawnWin.cb_process_spawn.
    unfold child_argv in *.
    rewrite (SpawnFacts.build_cmdline_joined _ _ Hfit).
    now rewrite Hcreate.
  - unfold cb_parse_args, child_argv. cbn [tl parse_loop].
    change (String.eqb "--worker" "--help") with false.
    change (String.eqb "--worker" "--verbose") with false.
    change (String.eqb "--worker" "--iterations") with false.
    change (String.eqb "--worker" "--worker") with true.
    cbn [ps_config]. rewrite Hi, Hlen, Hn, Ho, Hc.
    now rewrite (substring_whole name 63 Hname).
Qed.

Lemma worker_command_line_round_trip_witness :
  exists cmdline,
    SpawnWin.cb_process_spawn
      (Some (child_argv fmt_int "C:\bench\concur-bench.exe"%string
               "concur_bench_4242"%string 1000 3 1 334 333))
      (fun _ => true)
    = (CB_OK, Some cmdline)
    /\ Libc.split_args cmdline
       = child_argv fmt_int "C:\bench\concur-bench.exe"%string
           "concur_bench_4242"%string 1000 3 1 334 333
    /\ cb_parse_args Libc.strtol Libc.atoi (Libc.split_args cmdline)
         (Some (mk_parse_state (mk_config 0 0 0 0 0 false) false
                  (mk_worker_args 0 String.EmptyString 0 0 0 0)))
       = (CB_OK,
          Some (mk_parse_state (mk_config 0 0 0 0 CB_DEFAULT_ITERATIONS false)
                  true
                  (mk_worker_args 1 "concur_bench_4242"%string 1000 3 334 333))).
Proof.
  apply (worker_command_line_round_trip Libc.strtol Libc.atoi fmt_int
           "C:\bench\concur-bench.exe"%string "concur_bench_4242"%string
           1000 3 1 334 333);
    try reflexivity.
  - repeat constructor.
  - cbn. lia.
Defined.

End CommandLineFacts.

(** ** More workers than elements *)

Module SurplusFacts.
Import Partition.

Lemma distribute_nth_start b r : forall todo i off k s,
  0 <= i ->
  nth_error (distribute b r todo i off) k = Some s ->
  sl_start s
  = off + Z.of_nat k * b + Z.max 0 (Z.min (i + Z.of_nat k) r - i).
Proof.
  induction todo as [|todo IH]; intros i off k s Hi H; cbn [distribute] in H.
  - destruct k; discriminate.
  - destruct k as [|k]; cbn [nth_error] in H.
    + injection H as <-. cbn [sl_start]. lia.
    + rewrite (IH (i + 1) _ _ _ ltac:(lia) H). unfold chunk_len.
      rewrite Nat2Z.inj_succ.
      replace (Z.succ (Z.of_nat k) * b) with (Z.of_nat k * b + b) by ring.
      destruct (Z.ltb_spec i r); lia.
Qed.

(** X22 -- With more workers than elements nothing is lost and nothing is
    summed twice: the first [array_length] workers get one element each,
    worker [k] the element at index [k], and every further worker gets an
    empty slice at the end of the array. *)
Theorem partition_surplus_workers (array_length n : Z) (k : nat) :
  0 <= array_length < n -> (k < Z.to_nat n)%nat ->
  nth_error (partition array_length n) k
  = Some (if Z.of_nat k <? array_length
          then mk_slice (Z.of_nat k) 1
          else mk_slice array_length 0).
Proof.
  intros Hlen Hk. unfold partition.
  rewrite Z.quot_small, Z.rem_small by lia.
  destruct (nth_error (distribute 0 array_length (Z.to_nat n) 0 0) k)
    as [s|] eqn:E.
  - pose proof (distribute_nth_start _ _ _ _ _ _ _ (Z.le_refl 0) E) as Hs.
    pose proof (PartitionFacts.distribute_nth _ _ _ _ _ _ _ E) as Hl.
    unfold chunk_len in Hl. destruct s as [st ln]. cbn [sl_start sl_length] in *.
    destruct (Z.ltb_spec (Z.of_nat k) array_length);
      destruct (Z.ltb_spec (0 + Z.of_nat k) array_length); try lia;
      f_equal; f_equal; lia.
  - apply nth_error_None in E. rewrite PartitionFacts.distribute_length in E. lia.
Qed.

Lemma partition_surplus_workers_witness :
  nth_error (partition 2 5) 3 = Some (mk_slice 2 0).
Proof.
  apply (partition_surplus_workers 2 5 3); [lia | cbn; lia].
Defined.

End SurplusFacts.

(** ** A run without iterations *)

Module EdgeFacts.
Import Platform.

(** X23 -- A configuration with [iterations = 0] is refused late.  When the
    allocations and the set-up calls succeed, each coordinator makes no
    call for any worker and returns [CB_ERR_ARGS], the error of
    [cb_stats_compute] on an empty sample; but unlike for a NULL argument
    the report has by then been written: it carries the mode's label,
    the sum 0 and the worker count, and keeps only its old statistics. *)
Theorem run_without_iterations w d c r :
  iterations c = 0 ->
  alloc_ok w = true -> mutex_init_res w = CB_OK ->
  exe_path_res w = CB_OK -> shared_mem_create_res w = CB_OK ->
  BenchSingle.cb_bench_single_run w (Some d) (Some c) (Some r)
  = (CB_ERR_ARGS,
     Some {| label := "single"%string; report_sum := 0; parallelism := 1;
             stats := stats r |})
  /\ BenchProcessUnix.cb_bench_process_run w (Some d) (Some c) (Some r)
     = (CB_ERR_ARGS,
        Some {| label := "process"%string; report_sum := 0;
                parallelism := num_processes c; stats := stats r |}, [])
  /\ BenchProcessWin.cb_bench_process_run w (Some d) (Some c) (Some r)
     = (CB_ERR_ARGS,
        Some {| label := "process"%string; report_sum := 0;
                parallelism := num_processes c; stats := stats r |}, [])
  /\ BenchThread.cb_bench_thread_run w (Some d) (Some c) (Some r)
     = (CB_ERR_ARGS,
        Some {| label := "thread"%string; report_sum := 0;
                parallelism := num_threads c; stats := stats r |}, []).
Proof.
  intros Hit Halloc Hmutex Hexe Hshm.
  unfold BenchSingle.cb_bench_single_run,
    BenchProcessUnix.cb_bench_process_run,
    BenchProcessWin.cb_bench_process_run, BenchThread.cb_bench_thread_run.
  rewrite Hit, Halloc, Hmutex, Hexe, Hshm.
  repeat split; reflexivity.
Qed.

Lemma run_without_iterations_witness :
  BenchSingle.cb_bench_single_run Samples.calm_world
    (Some Samples.sample_dataset)
    (Some (set_iterations Samples.sample_config 0)) (Some Samples.blank_report)
  = (CB_ERR_ARGS,
     Some {| label := "single"%string; report_sum := 0; parallelism := 1;
             stats := stats Samples.blank_report |})
  /\ BenchProcessUnix.cb_bench_process_run Samples.calm_world
       (Some Samples.sample_dataset)
       (Some (set_iterations Samples.sample_config 0))
       (Some Samples.blank_report)
     = (CB_ERR_ARGS,
        Some {| label := "process"%string; report_sum := 0;
                parallelism :=
                  num_processes (set_iterations Samples.sample_config 0);
                stats := stats Samples.blank_report |}, [])
  /\ BenchProcessWin.cb_bench_process_run Samples.calm_world
       (Some Samples.sample_dataset)
       (Some (set_iterations Samples.sample_config 0))
       (Some Samples.blank_report)
     = (CB_ERR_ARGS,
        Some {| label := "process"%string; report_sum := 0;
                parallelism :=
                  num_processes (set_iterations Samples.sample_config 0);
                stats := stats Samples.blank_report |}, [])
  /\ BenchThread.cb_bench_thread_run Samples.calm_world
       (Some Samples.sample_dataset)
       (Some (set_iterations Samples.sample_config 0))
       (Some Samples.blank_report)
     = (CB_ERR_ARGS,
        Some {| label := "thread"%string; report_sum := 0;
                parallelism :=
                  num_threads (set_iterations Samples.sample_config 0);
                stats := stats Samples.blank_report |}, []).
Proof.
  apply (run_without_iterations Samples.calm_world Samples.sample_dataset
           (set_iterations Samples.sample_config 0) Samples.blank_report);
    reflexivity.
Defined.

End EdgeFacts.

(** ** The results directory *)

Module OutputFacts.
Import Output.

(** X24 -- The path of the results directory always fits.  For every
    timestamp that the session's buffer can hold, the call [main] makes,
    with the base directory "results" and a buffer of [CB_MAX_PATH] bytes,
    never returns [CB_ERR_OVERFLOW]: it creates exactly
    [results/run_<timestamp>] and returns what [cb_mkdir_p] answers. *)
Theorem run_dir_always_fits (timestamp : String.string)
  (mkdir_p : String.string -> cb_error_t) :
  Z.of_nat (String.length timestamp) < TIMESTAMP_SIZE ->
  cb_output_create_run_dir (Some "results"%string) (Some timestamp) true
    CB_MAX_PATH mkdir_p
  = (mkdir_p (String.append "results/run_" timestamp),
     Some (String.append "results/run_" timestamp)).
Proof.
  intros Ht. unfold cb_output_create_run_dir, CB_MAX_PATH, TIMESTAMP_SIZE in *.
  cbn [negb orb Z.eqb].
  change (String.append "results" (String.append "/run_" timestamp))
    with (String.append "results/run_" timestamp).
  rewrite SpawnFacts.length_append.
  change (String.length "results/run_") with 12%nat.
  destruct (Z.leb_spec 512 (Z.of_nat (12 + String.length timestamp)));
    [lia | reflexivity].
Qed.

Lemma run_dir_always_fits_witness :
  cb_output_create_run_dir (Some "results"%string)
    (Some "20240131_235959"%string) true CB_MAX_PATH (fun _ => CB_ERR_IO)
  = (CB_ERR_IO, Some "results/run_20240131_235959"%string).
Proof.
  apply (run_dir_always_fits "20240131_235959"%string (fun _ => CB_ERR_IO)).
  cbn. unfold TIMESTAMP_SIZE. lia.
Defined.

End OutputFacts.

(** ** The sum of a generated dataset *)

Module GeneratedSumFacts.
Import Worker SumSpec Dataset.

Lemma range_sum_between dataset :
  Forall (fun x => 1 <= x <= 100) dataset ->
  forall todo i,
    0 <= i -> (Z.to_nat i + todo <= length dataset)%nat ->
    Z.of_nat todo <= range_sum dataset i todo <= 100 * Z.of_nat todo.
Proof.
  intros Hd. induction todo as [|todo IH]; intros i Hi Hlen; cbn [range_sum].
  - lia.
  - specialize (IH (i + 1) ltac:(lia) ltac:(lia)).
    assert (Hx : 1 <= dataset_get dataset i <= 100).
    { unfold dataset_get. rewrite Forall_forall in Hd. apply Hd.
      apply nth_In. lia. }
    lia.
Qed.

(** X25 -- The sum of a generated dataset is exact.  For a dataset that
    [cb_dataset_create] made (the C library's [rand] being non-negative)
    with an array length that is a non-negative [int], [cb_array_sum] over
    the whole array returns the mathematical sum of the elements, which
    lies between the length and a hundred times the length: the 64-bit
    accumulator never wraps. *)
Theorem generated_sum_exact (prng : Type) (srand : Z -> prng)
  (rand : prng -> Z * prng) (c c' : cb_config_t) e out v data marks :
  (forall st, 0 <= fst (rand st)) ->
  0 <= array_length c <= INT_MAX ->
  cb_dataset_create prng srand rand e (Some c) (Some out) v
  = (CB_OK, Some c', Some (Some data), marks) ->
  array_sum data 0 (array_length c')
  = range_sum data 0 (length data)
  /\ array_length c' <= array_sum data 0 (array_length c')
     <= 100 * array_length c'.
Proof.
  intros Hrand Hlen E.
  pose proof (SeedFacts.dataset_create_config _ _ _ _ _ _ _ _ _ _ _ E) as Hc.
  assert (Hal : array_length c' = array_length c) by (rewrite Hc; reflexivity).
  assert (Hdata : length data = Z.to_nat (array_length c)
                  /\ Forall (fun x => 1 <= x <= 100) data).
  { revert E. unfold cb_dataset_create.
    destruct (negb (malloc_ok e)); [discriminate|].
    match goal with
    | |- context [populate prng rand v ?ps ?st ?n 0] =>
      pose proof (DatasetFacts.populate_range prng rand Hrand v ps n st 0) as Hp;
      destruct (populate prng rand v ps st n 0) as [[d m] st']
    end.
    cbn [fst] in Hp. cbn zeta in Hp. intros E. injection E as _ <- _.
    destruct Hp as [Hl Hr]. split; [|exact Hr].
    rewrite Hl. destruct (seed c =? 0); reflexivity. }
  destruct Hdata as [Hl Hr].
  assert (Hex : array_sum data 0 (array_length c')
                = range_sum data 0 (length data)).
  { rewrite Hal, Hl. apply WorkerFacts.array_sum_exact; [|lia].
    eapply Forall_impl; [|exact Hr]. cbn. intros x Hx. lia. }
  split; [exact Hex|]. rewrite Hex.
  pose proof (range_sum_between data Hr (length data) 0 ltac:(lia) ltac:(cbn; lia))
    as Hb.
  assert (Hn : Z.of_nat (length data) = array_length c)
    by (rewrite Hl; apply Z2Nat.id; lia).
  rewrite Hn in Hb. rewrite Hal. exact Hb.
Qed.

Lemma generated_sum_exact_witness :
  array_sum [17; 33; 85; 17; 5; 66; 89; 17; 95; 3; 91; 40] 0
    (array_length (set_seed SeedSamples.auto_config 7723))
  = range_sum [17; 33; 85; 17; 5; 66; 89; 17; 95; 3; 91; 40] 0
      (length [17; 33; 85; 17; 5; 66; 89; 17; 95; 3; 91; 40])
  /\ array_length (set_seed SeedSamples.auto_config 7723)
     <= array_sum [17; 33; 85; 17; 5; 66; 89; 17; 95; 3; 91; 40] 0
          (array_length (set_seed SeedSamples.auto_config 7723))
     <= 100 * array_length (set_seed SeedSamples.auto_config 7723).
Proof.
  apply (generated_sum_exact Z iso_srand iso_rand SeedSamples.auto_config
           (set_seed SeedSamples.auto_config 7723) DatasetSamples.morning
           None false [17; 33; 85; 17; 5; 66; 89; 17; 95; 3; 91; 40] 0%nat).
  - apply DatasetFacts.iso_rand_nonneg.
  - cbn. unfold INT_MAX. lia.
  - vm_compute. reflexivity.
Defined.

End GeneratedSumFacts.

(** ** The whole program *)

Module MainFacts.
Import Platform Worker Input Output Main.

Lemma single_run_some w d c r e o :
  BenchSingle.cb_bench_single_run w (Some d) (Some c) (Some r) = (e, o) ->
  exists s, o = Some s.
Proof.
  unfold BenchSingle.cb_bench_single_run.
  destruct (negb (alloc_ok w)).
  - intros E. injection E as _ <-. eauto.
  - destruct (BenchSingle.single_loop w d c _ 0 [] 0) as [times vs].
    destruct (Stats.cb_stats_compute _ _ _) as [err st].
    intros E. injection E as _ <-. eauto.
Qed.

Lemma thread_run_some w d c r e o tr :
  BenchThread.cb_bench_thread_run w (Some d) (Some c) (Some r) = (e, o, tr) ->
  exists s, o = Some s.
Proof.
  unfold BenchThread.cb_bench_thread_run.
  destruct (negb (alloc_ok w)); [intros E; injection E as _ <- _; eauto|].
  destruct (is_err (mutex_init_res w)); [intros E; injection E as _ <- _; eauto|].
  destruct (BenchThread.thread_iterations w d c _ _ 0 [] 0 [])
    as [[[err times] vs] tr0].
  destruct (is_err err); [intros E; injection E as _ <- _; eauto|].
  destruct (Stats.cb_stats_compute _ _ _) as [err' st].
  intros E. injection E as _ <- _. eauto.
Qed.

Lemma unix_run_some w d c r e o tr :
  BenchProcessUnix.cb_bench_process_run w (Some d) (Some c) (Some r) = (e, o, tr) ->
  exists s, o = Some s.
Proof.
  unfold BenchProcessUnix.cb_bench_process_run.
  destruct (negb (alloc_ok w)); [intros E; injection E as _ <- _; eauto|].
  destruct (BenchProcessUnix.process_iterations w d c _ _ 0 [] 0 [])
    as [[[err times] vs] tr0].
  destruct (is_err err); [intros E; injection E as _ <- _; eauto|].
  destruct (Stats.cb_stats_compute _ _ _) as [err' st].
  intros E. injection E as _ <- _. eauto.
Qed.

Lemma win_run_some w d c r e o tr :
  BenchProcessWin.cb_bench_process_run w (Some d) (Some c) (Some r) = (e, o, tr) ->
  exists s, o = Some s.
Proof.
  unfold BenchProcessWin.cb_bench_process_run.
  destruct (is_err (exe_path_res w)); [intros E; injection E as _ <- _; eauto|].
  destruct (negb (alloc_ok w)); [intros E; injection E as _ <- _; eauto|].
  destruct (is_err (shared_mem_create_res w));
    [intros E; injection E as _ <- _; eauto|].
  cbn zeta.
  destruct (BenchProcessWin.process_iterations w _ c _ _ 0 [] 0 [])
    as [[[err times] vs] tr0].
  destruct (is_err err); [intros E; injection E as _ <- _; eauto|].
  destruct (Stats.cb_stats_compute _ _ _) as [err' st].
  intros E. injection E as _ <- _. eauto.
Qed.

Lemma process_run_sum target w d c r e o tr :
  0 <= array_length c -> 1 <= num_processes c ->
  (target = Windows ->
   WorkerSpec.workers_stored w (array_length c) (num_processes c) 0) ->
  process_run target w (Some d) (Some c) (Some r) = (e, o, tr) ->
  is_err e = false ->
  report_sum (report_of o) = array_sum d 0 (array_length c).
Proof.
  intros Ha Hn Hst E He. apply SumFacts.is_err_false in He. subst e.
  destruct target; cbn [process_run] in E.
  - destruct (unix_run_some _ _ _ _ _ _ _ E) as (s & ->).
    cbn [report_of]. eapply SumFacts.unix_run_sum; eauto.
  - destruct (win_run_some _ _ _ _ _ _ _ E) as (s & ->).
    cbn [report_of]. eapply SumFacts.win_run_sum; eauto.
Qed.

(** Once the three benchmarks have run on a sound configuration, the
    correctness line can only say PASS: on Windows where the workers of the
    first iteration stored their results. *)
Lemma run_benchmarks_pass target ws wp wt d c status v :
  0 <= array_length c -> 1 <= num_processes c -> 1 <= num_threads c ->
  (target = Windows ->
   WorkerSpec.workers_stored wp (array_length c) (num_processes c) 0) ->
  run_benchmarks target ws wp wt d c = (status, Some v) ->
  status = 0 /\ v = Pass (array_sum d 0 (array_length c)).
Proof.
  intros Ha Hp Ht Hst. unfold run_benchmarks.
  destruct (BenchSingle.cb_bench_single_run ws _ _ _) as [e1 single] eqn:E1.
  destruct (is_err e1) eqn:H1; [discriminate|].
  destruct (process_run target wp _ _ _) as [[e2 process] tr2] eqn:E2.
  destruct (is_err e2) eqn:H2; [discriminate|].
  destruct (BenchThread.cb_bench_thread_run wt _ _ _) as [[e3 thread] tr3] eqn:E3.
  destruct (is_err e3) eqn:H3; [discriminate|].
  intros E. injection E as <- <-. split; [reflexivity|].
  apply SumFacts.is_err_false in H1, H3. subst e1 e3.
  destruct (single_run_some _ _ _ _ _ _ E1) as (s1 & ->).
  destruct (thread_run_some _ _ _ _ _ _ _ E3) as (s3 & ->).
  pose proof (SumFacts.single_run_sum _ _ _ _ _ E1) as S1.
  pose proof (process_run_sum _ _ _ _ _ _ _ _ Ha Hp Hst E2 H2) as S2.
  pose proof (SumFacts.thread_run_sum _ _ _ _ _ _ Ha Ht E3) as S3.
  unfold correctness. cbn [report_of]. rewrite S1, S2, S3, !Z.eqb_refl.
  reflexivity.
Qed.

(** The errors of the command line are all [CB_ERR_ARGS]. *)
Lemma parse_loop_error strtol atoi : forall n args st err st',
  (length args <= n)%nat ->
  parse_loop strtol atoi args st = (err, st') ->
  err = CB_OK \/ err = CB_ERR_ARGS.
Proof.
  induction n as [|n IH]; intros args st err st' Hn.
  - destruct args; [|cbn [length] in Hn; lia].
    cbn. intros E. injection E as <- _. now left.
  - destruct args as [|a rest]; cbn [parse_loop].
    { intros E. injection E as <- _. now left. }
    cbn [length] in Hn.
    destruct (String.eqb a "--help"); [intros E; injection E as <- _; now right|].
    destruct (String.eqb a "--verbose"); [apply IH; lia|].
    destruct (String.eqb a "--iterations").
    { destruct rest as [|v rest']; [intros E; injection E as <- _; now right|].
      match goal with
      | |- context [if ?b then _ else _] => destruct b
      end; [intros E; injection E as <- _; now right|].
      apply IH. cbn [length] in Hn. lia. }
    destruct (String.eqb a "--worker");
      [|intros E; injection E as <- _; now right].
    destruct rest as [|a1 [|a2 [|a3 [|a4 [|a5 [|a6 rest']]]]]];
      try (intros E; injection E as <- _; now right).
    apply IH. cbn [length] in Hn. lia.
Qed.

(** X26 -- If [main] prints a correctness line at all, the line says PASS
    and the exit status is 0: whatever the command line, the answers typed
    at the prompts, the random generator, the clock readings and the
    outcomes of the platform calls, on the Unix target; and on the Windows
    target where the workers of the first iteration stored their results.
    The ranges enforced at the prompts are what makes the three modes
    agree.  Without the condition on the Windows workers the line can say
    FAIL, as it does for an executable path with a blank. *)
Theorem main_never_reports_fail
  (strtol strtoul : String.string -> strto_result) (atoi : String.string -> Z)
  (prng : Type) (srand : Z -> prng) (rand : prng -> Z * prng) (target : os)
  argv stdin e ws wp wt worker status v :
  (target = Windows ->
   forall c, input_layer strtol strtoul atoi argv stdin = Some c ->
     WorkerSpec.workers_stored wp (array_length c) (num_processes c) 0) ->
  main strtol strtoul atoi prng srand rand target argv stdin e ws wp wt worker
  = (status, Some v) ->
  status = 0 /\ exists s, v = Pass s.
Proof.
  unfold main, input_layer. intros Hst.
  destruct (cb_parse_args strtol atoi argv _) as [err [st|]]; [|discriminate].
  destruct (is_err err) eqn:Eerr; [discriminate|].
  apply SumFacts.is_err_false in Eerr. subst err.
  destruct (ps_is_worker st); [destruct target; discriminate|].
  destruct (InteractiveFacts.interactive_cases strtol strtoul (ps_config st) stdin)
    as [(len & np & nt & s & it & vb & rest & Ei & _ & Hlen & Hnp & Hnt & _)
       | (c & Ei)];
    rewrite Ei in *; cbn [is_err cb_error_code Z.eqb negb]; [|discriminate].
  destruct (Dataset.cb_dataset_create prng srand rand e _ _ _)
    as [[[err2 c2] data] marks] eqn:Ed.
  destruct (is_err err2); [discriminate|].
  destruct c2 as [c'|]; [|discriminate].
  destruct data as [[d|]|]; try discriminate.
  apply SeedFacts.dataset_create_config in Ed.
  intros E. apply run_benchmarks_pass in E.
  - destruct E as [-> ->]. split; [reflexivity | eauto].
  - rewrite Ed. cbn. unfold CB_MIN_ARRAY_LEN in Hlen. lia.
  - rewrite Ed. cbn. unfold CB_MIN_WORKERS in Hnp. lia.
  - rewrite Ed. cbn. unfold CB_MIN_WORKERS in Hnt. lia.
  - intros Ht. rewrite Ed. cbn [set_seed array_length num_processes].
    apply (Hst Ht (mk_config len np nt s it vb) eq_refl).
Qed.

Lemma main_never_reports_fail_witness :
  0 = 0 /\ exists s, Pass 50487 = Pass s.
Proof.
  apply (main_never_reports_fail Libc.strtol Libc.strtoul Libc.atoi
           Z Dataset.iso_srand Dataset.iso_rand Windows
           ["concur-bench"%string] short_stdin DatasetSamples.morning
           Samples.calm_world
           (Samples.with_workers Samples.calm_world (Samples.workers_for 1000 2))
           Samples.calm_world
           (fun _ => 0) 0 (Pass 50487)).
  - intros _ c Hc. vm_compute in Hc. injection Hc as <-.
    now apply SumFacts.workers_for_stored.
  - vm_compute. reflexivity.
Defined.

(** X27 -- A command line that [cb_parse_args] rejects ends the program
    with exit status 0, before any prompt and any benchmark: the only error
    the parser returns is [CB_ERR_ARGS], the code [main] reserves for
    [--help].  An unknown option, a missing value and an iteration count
    out of range all exit like a request for help. *)
Theorem main_rejected_command_line
  (strtol strtoul : String.string -> strto_result) (atoi : String.string -> Z)
  (prng : Type) (srand : Z -> prng) (rand : prng -> Z * prng) (target : os)
  argv stdin e ws wp wt worker :
  fst (cb_parse_args strtol atoi argv
         (Some (mk_parse_state (mk_config 0 0 0 0 0 false) false
                  (mk_worker_args 0 String.EmptyString 0 0 0 0))))
  <> CB_OK ->
  main strtol strtoul atoi prng srand rand target argv stdin e ws wp wt worker
  = (0, None).
Proof.
  unfold main, cb_parse_args.
  destruct (parse_loop strtol atoi (tl argv) _) as [err st] eqn:Ep.
  cbn [fst]. intros Hne.
  destruct (parse_loop_error strtol atoi _ _ _ _ _ (Nat.le_refl _) Ep)
    as [-> | ->]; [contradiction | reflexivity].
Qed.

Lemma main_rejected_command_line_witness :
  main Libc.strtol Libc.strtoul Libc.atoi Z Dataset.iso_srand Dataset.iso_rand
    Unix ["concur-bench"; "--iterations"; "5000"]%string short_stdin
    DatasetSamples.morning Samples.calm_world Samples.calm_world
    Samples.calm_world (fun _ => 0)
  = (0, None).
Proof.
  apply (main_rejected_command_line Libc.strtol Libc.strtoul Libc.atoi
           Z Dataset.iso_srand Dataset.iso_rand Unix
           ["concur-bench"; "--iterations"; "5000"]%string).
  vm_compute. discriminate.
Defined.

End MainFacts.

(** ** A Windows installation path with a blank *)

Module BlankPathFacts.
Import Platform Worker Input Output Main.

(** C1 -- The sums of the three modes differ on a Windows build installed
    under [C:\Program Files], for a dataset of a thousand sevens summed by
    two processes.  [cb_process_spawn] joins the worker's arguments with
    blanks and without quotes, so the worker finds its own path cut in two,
    takes the second half for an unknown option and leaves [main] with exit
    status 0, whatever [cb_bench_process_worker_main] would have done: it
    is not called, and this is the world of the coordinator's run, where
    every worker exits with status 0 and none has stored a result.  The
    coordinator, which looks at the exit status only,
    adds up the slots it has cleared itself and returns [CB_OK] with the
    sum 0, against 7000 from the baseline and the threads; [main] prints
    the three sums as a FAIL and exits with status 0. *)
Theorem blank_path_breaks_sum :
  (forall i, (i < 2)%nat ->
     exists cmdline,
       SpawnWin.cb_process_spawn (Some (BlankPath.worker_argv i)) (fun _ => true)
       = (CB_OK, Some cmdline)
       /\ firstn 3 (Libc.split_args cmdline)
          = ["C:\Program"; "Files\concur-bench.exe"; "--worker"]%string
       /\ fst (cb_parse_args Libc.strtol Libc.atoi (Libc.split_args cmdline)
                 (Some (mk_parse_state (mk_config 0 0 0 0 0 false) false
                          (mk_worker_args 0 String.EmptyString 0 0 0 0))))
          = CB_ERR_ARGS
       /\ (forall stdin e ws wp wt worker,
             main Libc.strtol Libc.strtoul Libc.atoi Z Dataset.iso_srand
               Dataset.iso_rand Windows (Libc.split_args cmdline) stdin e
               ws wp wt worker
             = (0, None))
       /\ process_wait_res BlankPath.world 0 i = (CB_OK, 0)
       /\ worker_store BlankPath.world 0 i = None)
  /\ (exists r,
        BenchSingle.cb_bench_single_run Samples.calm_world
          (Some BlankPath.dataset) (Some BlankPath.config) (Some zero_report)
        = (CB_OK, Some r)
        /\ report_sum r = 7000)
  /\ (exists r tr,
        BenchProcessWin.cb_bench_process_run BlankPath.world
          (Some BlankPath.dataset) (Some BlankPath.config) (Some zero_report)
        = (CB_OK, Some r, tr)
        /\ report_sum r = 0)
  /\ (exists r tr,
        BenchThread.cb_bench_thread_run Samples.calm_world
          (Some BlankPath.dataset) (Some BlankPath.config) (Some zero_report)
        = (CB_OK, Some r, tr)
        /\ report_sum r = 7000)
  /\ run_benchmarks Windows Samples.calm_world BlankPath.world
       Samples.calm_world BlankPath.dataset BlankPath.config
     = (0, Some (Fail 7000 0 7000)).
Proof.
  split; [|split; [|split; [|split]]].
  - intros i Hi.
    assert (i = 0 \/ i = 1)%nat as [-> | ->] by lia.
    + eexists. split; [vm_compute; reflexivity|].
      split; [vm_compute; reflexivity|].
      split; [vm_compute; reflexivity|].
      split; [|split; reflexivity].
      intros stdin e ws wp wt worker. reflexivity.
    + eexists. split; [vm_compute; reflexivity|].
      split; [vm_compute; reflexivity|].
      split; [vm_compute; reflexivity|].
      split; [|split; reflexivity].
      intros stdin e ws wp wt worker. reflexivity.
  - eexists. split; [vm_compute; reflexivity | reflexivity].
  - eexists. eexists. split; [vm_compute; reflexivity | reflexivity].
  - eexists. eexists. split; [vm_compute; reflexivity | reflexivity].
  - vm_compute. reflexivity.
Qed.

End BlankPathFacts.
